(** * Invasive Species Intelligence: region overlay, alert feed and status board

    A shallow embedding of [js/app.js] (the v0.4 front-end): the risk overlay
    that [renderRiskPolygons] fills, the alert feed that [updateAlertsFeed]
    writes with its [grid-...] links, the lookup of [zoomToGrid], the status
    board of [updateStatusUI] / [updateMasterStatus], and the two loaders
    [loadAILayer] and [loadInfrastructure].

    The page ([index.html]) is not part of the sources: it is a parameter, a
    list of elements.  Leaflet and the JavaScript engine are parameters too,
    through the few answers the code asks of them. *)

From Stdlib Require Import String Ascii List Bool Arith ZArith Lia Floats.
Import ListNotations.
Open Scope string_scope.
Set Warnings "-inexact-float".

(** ** Exceptions and a state monad that keeps the state on a throw *)

Inductive exn : Type :=
| TypeError (msg : string)
| SyntaxError (msg : string)
| DOMException (name : string)
| Error (msg : string).

Inductive result (A : Type) : Type :=
| Ok (a : A)
| Throw (e : exn).
Arguments Ok {A} a.
Arguments Throw {A} e.

Module JS.

(** A computation over a mutable store [S]: what it returns or throws, and
    the store it leaves.  A JavaScript throw does not roll anything back. *)
Definition M (S A : Type) : Type := S -> result A * S.

Definition ret {S A} (a : A) : M S A := fun s => (Ok a, s).

Definition bind {S A B} (m : M S A) (k : A -> M S B) : M S B :=
  fun s => match m s with
           | (Ok a, s') => k a s'
           | (Throw e, s') => (Throw e, s')
           end.

Definition throw {S A} (e : exn) : M S A := fun s => (Throw e, s).

Definition get {S} : M S S := fun s => (Ok s, s).

Definition modify {S} (f : S -> S) : M S unit := fun s => (Ok tt, f s).

(** [try { body } catch (e) { handler(e) }] *)
Definition tryCatch {S A} (body : M S A) (handler : exn -> M S A) : M S A :=
  fun s => match body s with
           | (Ok a, s') => (Ok a, s')
           | (Throw e, s') => handler e s'
           end.

(** [xs.forEach(x => body(x))] *)
Fixpoint forEach {S X} (xs : list X) (body : X -> M S unit) : M S unit :=
  match xs with
  | [] => ret tt
  | x :: rest => bind (body x) (fun _ => forEach rest body)
  end.

(** Run a computation on a part of the store. *)
Definition zoom {S T A} (proj : S -> T) (inj : T -> S -> S) (m : M T A) : M S A :=
  fun s => let '(r, t) := m (proj s) in (r, inj t s).

End JS.

Notation "x <- m ;; k" := (JS.bind m (fun x => k))
  (at level 61, m at next level, right associativity).
Notation "m ;;; k" := (JS.bind m (fun _ => k))
  (at level 61, right associativity).

(** ** The page *)

Module Dom.

(** An element: its [id], its class list ([className] split into tokens) and
    its text ([innerText] / [innerHTML]).  The page lists its elements in
    document order; what a write to [innerHTML] puts inside an element is
    kept as the text of that element and not as further elements of the
    page. *)
Record element : Type := {
  el_id : string;
  el_class : list string;
  el_text : string
}.

Definition document : Type := list element.

Definition set_class (cl : list string) (e : element) : element :=
  {| el_id := el_id e; el_class := cl; el_text := el_text e |}.

Definition set_text (t : string) (e : element) : element :=
  {| el_id := el_id e; el_class := el_class e; el_text := t |}.

(** [document.getElementById(id)]: the first element with that id. *)
Definition getElementById (id : string) (d : document) : option element :=
  find (fun e => el_id e =? id) d.

(** [el.classList.contains(tok)] *)
Definition classList_contains (tok : string) (e : element) : bool :=
  existsb (String.eqb tok) (el_class e).

(** [document.querySelectorAll('.' + cls)] *)
Definition querySelectorAll (cls : string) (d : document) : list element :=
  filter (classList_contains cls) d.

(** [document.querySelector('.' + cls)] *)
Definition querySelector (cls : string) (d : document) : option element :=
  find (classList_contains cls) d.

(** A write through the reference that [getElementById] returned: it lands
    on the first element with that id. *)
Fixpoint modify_by_id (id : string) (f : element -> element) (d : document)
  : document :=
  match d with
  | [] => []
  | e :: rest =>
      if el_id e =? id then f e :: rest
      else e :: modify_by_id id f rest
  end.

(** A write through the reference that [querySelector] returned. *)
Fixpoint modify_by_class (cls : string) (f : element -> element) (d : document)
  : document :=
  match d with
  | [] => []
  | e :: rest =>
      if classList_contains cls e then f e :: rest
      else e :: modify_by_class cls f rest
  end.

(** ASCII whitespace, as the DOM standard lists it. *)
Definition is_ascii_whitespace (c : ascii) : bool :=
  match nat_of_ascii c with
  | 9 | 10 | 12 | 13 | 32 => true
  | _ => false
  end.

Fixpoint has_whitespace (s : string) : bool :=
  match s with
  | EmptyString => false
  | String c rest => is_ascii_whitespace c || has_whitespace rest
  end.

(** What [classList.add(tok)] throws: a SyntaxError for the empty token, an
    InvalidCharacterError for a token with whitespace. *)
Definition token_error (tok : string) : option exn :=
  if tok =? "" then Some (DOMException "SyntaxError")
  else if has_whitespace tok then Some (DOMException "InvalidCharacterError")
  else None.

(** [classList.add(tok)] on a valid token. *)
Definition classList_add (tok : string) (cl : list string) : list string :=
  if existsb (String.eqb tok) cl then cl else cl ++ [tok].

End Dom.
Import Dom.

(** ** The status board *)

(** A health signal set: the entries of the [health] object in the order
    [Object.keys] lists them; a JavaScript object holds each key once. *)
Definition signal_set : Type := list (string * string).

Section StatusBoard.

(** For a key that names a member every object inherits from
    [Object.prototype] ([constructor], [toString], ...), the text the engine
    converts that member to; [None] for every other key. *)
Variable proto_member : string -> option string.

(** The own properties of the [mapping] object literal. *)
Definition mapping (key : string) : option string :=
  if key =? "maritime" then Some "dot-maritime"
  else if key =? "us_data" then Some "dot-us"
  else if key =? "canada_data" then Some "dot-canada"
  else if key =? "integrity" then Some "dot-gbif"
  else if key =? "infrastructure" then Some "dot-glfc"
  else None.

(** [mapping[key]] as [getElementById] receives it, converted to a string:
    an own property, else an inherited member, else ["undefined"]. *)
Definition dotId (key : string) : string :=
  match mapping key with
  | Some id => id
  | None =>
      match proto_member key with
      | Some txt => txt
      | None => "undefined"
      end
  end.

(** The body of the [forEach] of [updateStatusUI], for one key and the status
    [health[key]] of its entry. *)
Definition statusEntry (kv : string * string) : JS.M document unit :=
  let '(key, status) := kv in
  d <- JS.get ;;
  match getElementById (dotId key) d with
  | None => JS.ret tt
  | Some _ =>
      JS.modify (modify_by_id (dotId key) (set_class ["status-row-dot"])) ;;;
      if status =? "green" then JS.ret tt
      else
        match token_error status with
        | Some e => JS.throw e
        | None =>
            JS.modify (modify_by_id (dotId key)
                         (fun dot => set_class (classList_add status (el_class dot)) dot))
        end
  end.

(** The first declaration of [updateMasterStatus] (the earlier one in the
    file).  The later declaration of the same name replaces it before any
    statement runs, so no call reaches it. *)
Definition updateMasterStatus_first : JS.M document unit :=
  d <- JS.get ;;
  let rowDots := querySelectorAll "status-row-dot" d in
  let hasError :=
    fold_left (fun acc dot => if classList_contains "red" dot then true else acc)
              rowDots false in
  match getElementById "status-light" d with
  | None => JS.throw (TypeError "Cannot set properties of null (setting 'className')")
  | Some _ =>
      JS.modify (modify_by_id "status-light" (set_class ["status-dot"])) ;;;
      if hasError
      then JS.modify (modify_by_id "status-light"
                        (fun l => set_class (classList_add "yellow" (el_class l)) l))
      else JS.ret tt
  end.

(** The flags the [rowDots.forEach] of [updateMasterStatus] computes. *)
Definition rowFlags (rowDots : list element) : bool * bool :=
  fold_left
    (fun '(hasError, hasWarning) dot =>
       (if classList_contains "red" dot then true else hasError,
        if classList_contains "yellow" dot then true else hasWarning))
    rowDots (false, false).

Definition setStatusText (txt : string) (d : document) : document :=
  match getElementById "status-text" d with
  | Some _ => modify_by_id "status-text" (set_text txt) d
  | None => d
  end.

Definition setMasterLight (cls : string) (d : document) : document :=
  modify_by_id "master-status-light"
    (fun l => set_class (classList_add cls (el_class l)) l) d.

(** [updateMasterStatus], the declaration in force. *)
Definition updateMasterStatus : JS.M document unit :=
  d <- JS.get ;;
  let masterLight := getElementById "master-status-light" d in
  let rowDots := querySelectorAll "status-row-dot" d in
  let '(hasError, hasWarning) := rowFlags rowDots in
  match masterLight with
  | None => JS.ret tt
  | Some _ =>
      JS.modify (modify_by_id "master-status-light" (set_class ["status-dot"])) ;;;
      if hasError then
        JS.modify (setMasterLight "red") ;;;
        JS.modify (setStatusText "System Offline")
      else if hasWarning then
        JS.modify (setMasterLight "yellow") ;;;
        JS.modify (setStatusText "Syncing Data...")
      else
        JS.modify (setMasterLight "active") ;;;
        JS.modify (setStatusText "Live Model Connected")
  end.

(** The function declared as [updateStatusUI]. *)
Definition originalUpdateStatusUI (health : signal_set) : JS.M document unit :=
  JS.forEach health statusEntry ;;;
  updateMasterStatus.

(** [updateStatusUI] as reassigned at the end of the script, which is what
    every call finds: the loaders call it only after their fetch settles. *)
Definition updateStatusUI (health : signal_set) : JS.M document unit :=
  originalUpdateStatusUI health ;;;
  updateMasterStatus.

(** What the master indicator shows: the class list of the light and the
    status text, for the elements the page has. *)
Definition master_status (d : document) : option (list string) * option string :=
  (option_map el_class (getElementById "master-status-light" d),
   option_map el_text (getElementById "status-text" d)).

End StatusBoard.

(** A page with the five row dots, the master light and the status text. *)
Definition board_page : document :=
  [ {| el_id := "master-status-light"; el_class := ["status-dot"; "active"]; el_text := "" |};
    {| el_id := "status-text"; el_class := []; el_text := "Live Model Connected" |};
    {| el_id := "dot-maritime"; el_class := ["status-row-dot"]; el_text := "" |};
    {| el_id := "dot-us"; el_class := ["status-row-dot"]; el_text := "" |};
    {| el_id := "dot-canada"; el_class := ["status-row-dot"]; el_text := "" |};
    {| el_id := "dot-gbif"; el_class := ["status-row-dot"]; el_text := "" |};
    {| el_id := "dot-glfc"; el_class := ["status-row-dot"]; el_text := "" |} ].

Definition no_proto : string -> option string := fun _ => None.


(** ** Risk colours *)

Module CONFIG.
Definition riskHigh : string := "#ef4444".
Definition riskMed : string := "#f59e0b".
Definition riskLow : string := "#10b981".
End CONFIG.

(** [region.properties]; [risk_score] is a JavaScript number, a binary64. *)
Record properties : Type := {
  species : string;
  risk_score : float;
  risk_label : string;
  confidence : string;
  explanation : string;
  drivers : list string;
  citations : option (list (string * string))
}.

(** The object [getStyle] returns. *)
Record style : Type := {
  color : string;
  weight : float;
  opacity : float;
  fillColor : string;
  fillOpacity : float;
  className : string
}.

(** [getStyle] of [renderRiskPolygons]; [score > 0.5] is [0.5 < score]. *)
Definition getStyle (props : properties) : style :=
  let score := risk_score props in
  let color := CONFIG.riskLow in
  let color := if (0.5 <? score)%float then CONFIG.riskMed else color in
  let color := if (0.8 <? score)%float then CONFIG.riskHigh else color in
  {| color := color;
     weight := 2%float;
     opacity := 0.8%float;
     fillColor := color;
     fillOpacity := 0.35%float;
     className := if (0.8 <? score)%float then "risk-polygon-high" else "" |}.

(** The colour the timer of [updateSidePanel] gives the score. *)
Definition scoreColor (props : properties) : string :=
  if (0.8 <? risk_score props)%float then CONFIG.riskHigh
  else if (0.5 <? risk_score props)%float then CONFIG.riskMed
  else CONFIG.riskLow.

(** ** Grid references in alert text: the pattern [/(grid-[\w-]+)/g] *)

Module GridRef.

(** A string is the UTF-8 text of the JavaScript string; every character
    outside ASCII is made of bytes from 128 up, none a word character. *)
Definition is_word (c : ascii) : bool :=
  let n := nat_of_ascii c in
  ((48 <=? n)%nat && (n <=? 57)%nat) || ((65 <=? n)%nat && (n <=? 90)%nat)
  || ((97 <=? n)%nat && (n <=? 122)%nat) || (n =? 95)%nat.

(** The class [[\w-]]. *)
Definition is_ref_char (c : ascii) : bool :=
  is_word c || (nat_of_ascii c =? 45)%nat.

(** The rest of [s] after the literal [p], when [s] starts with it. *)
Fixpoint after_prefix (p s : string) : option string :=
  match p, s with
  | EmptyString, _ => Some s
  | String a p', String b s' => if Ascii.eqb a b then after_prefix p' s' else None
  | String _ _, EmptyString => None
  end.

(** The greedy [[\w-]*]: the longest run of class characters and the rest. *)
Fixpoint span_ref (s : string) : string * string :=
  match s with
  | EmptyString => (EmptyString, EmptyString)
  | String c rest =>
      if is_ref_char c
      then let '(run, tl) := span_ref rest in (String c run, tl)
      else (EmptyString, s)
  end.

(** The match that starts at the first character of [s], with what follows
    it. *)
Definition match_here (s : string) : option (string * string) :=
  match after_prefix "grid-" s with
  | None => None
  | Some rest =>
      match span_ref rest with
      | (EmptyString, _) => None
      | (run, tl) => Some ("grid-" ++ run, tl)
      end
  end.

(** What a global replace cuts the text into: characters left alone and
    matches. *)
Inductive piece : Type :=
| Lit (c : ascii)
| Ref (tok : string).

(** The scan of a global pattern: try the current position; after a match
    go on behind it, else one character further. *)
Fixpoint scan (fuel : nat) (s : string) : list piece :=
  match fuel with
  | 0 => []
  | S fuel' =>
      match s with
      | EmptyString => []
      | String c rest =>
          match match_here s with
          | Some (tok, tl) => Ref tok :: scan fuel' tl
          | None => Lit c :: scan fuel' rest
          end
      end
  end.

(** Every step consumes a character, so the length is fuel enough. *)
Definition pieces (s : string) : list piece := scan (String.length s) s.

(** The successive values of [$1]. *)
Fixpoint refs (ps : list piece) : list string :=
  match ps with
  | [] => []
  | Lit _ :: rest => refs rest
  | Ref tok :: rest => tok :: refs rest
  end.

Definition tokens (detail : string) : list string := refs (pieces detail).

Definition dq : string := String "034"%char EmptyString.

(** The replacement text with [$1] filled in. *)
Definition grid_link (tok : string) : string :=
  "<span class=" ++ dq ++ "grid-link" ++ dq ++ " onclick=" ++ dq
  ++ "zoomToGrid('" ++ tok ++ "')" ++ dq ++ ">" ++ tok ++ "</span>".

Fixpoint render (wrap : string -> string) (ps : list piece) : string :=
  match ps with
  | [] => EmptyString
  | Lit c :: rest => String c (render wrap rest)
  | Ref tok :: rest => wrap tok ++ render wrap rest
  end.

(** [detail.replace(/(grid-[\w-]+)/g, '<span ...>$1</span>')] *)
Definition enrich (detail : string) : string :=
  render grid_link (pieces detail).

End GridRef.

(** ** Alerts *)

Record alert : Type := {
  a_type : string;
  a_title : string;
  a_detail : option string;      (* [None]: the alert has no [detail] *)
  a_timestamp : string
}.

Definition nl : string := String "010"%char EmptyString.
Definition indent (n : nat) : string := String.concat "" (repeat " " n).

(** The template literal of [updateAlertsFeed] for one alert. *)
Definition feedItem (al : alert) (enrichedDetail : string) : string :=
  let dq := GridRef.dq in
  let critical := a_type al =? "CRITICAL" in
  nl ++ indent 8 ++ "<div class=" ++ dq ++ "feed-item "
     ++ (if critical then "critical-alert" else "") ++ dq ++ ">"
  ++ nl ++ indent 12 ++ "<div class=" ++ dq ++ "feed-item-header" ++ dq ++ ">"
  ++ nl ++ indent 16 ++ "<strong class=" ++ dq ++ "feed-item-title" ++ dq ++ ">"
     ++ a_type al ++ ":</strong>"
  ++ nl ++ indent 16 ++ "<span class=" ++ dq ++ "feed-timestamp" ++ dq ++ ">"
     ++ a_timestamp al ++ "</span>"
  ++ nl ++ indent 12 ++ "</div>"
  ++ nl ++ indent 12 ++ "<div class=" ++ dq ++ "feed-content" ++ dq ++ ">"
  ++ nl ++ indent 16 ++ "<span class=" ++ dq
     ++ (if critical then "critical-highlight" else "signal-highlight") ++ dq ++ ">"
     ++ a_title al ++ "</span><br>"
  ++ nl ++ indent 16 ++ enrichedDetail
  ++ nl ++ indent 12 ++ "</div>"
  ++ nl ++ indent 8 ++ "</div>"
  ++ nl ++ indent 4.

Definition noAlerts : string :=
  "<div class=" ++ GridRef.dq ++ "feed-item" ++ GridRef.dq
  ++ ">No active alerts. All systems nominal.</div>".

(** The callback of [alerts.map]: it throws on an alert without [detail]. *)
Definition feedEntry (al : alert) : result string :=
  match a_detail al with
  | None => Throw (TypeError "Cannot read properties of undefined (reading 'replace')")
  | Some detail => Ok (feedItem al (GridRef.enrich detail))
  end.

(** [alerts.map(...).join('')], stopping at the first throw. *)
Fixpoint feedHtml (alerts : list alert) : result string :=
  match alerts with
  | [] => Ok EmptyString
  | al :: rest =>
      match feedEntry al with
      | Throw e => Throw e
      | Ok item =>
          match feedHtml rest with
          | Throw e => Throw e
          | Ok html => Ok (item ++ html)
          end
      end
  end.

(** [updateAlertsFeed], on the page.  The markup assigned to [innerHTML] is
    the new text of the feed container.  The elements the browser builds
    from it are not entered in the page: for alerts whose own strings hold
    no markup these are the elements of the item template, which have no id
    and no class that the script looks up, so that no later lookup can tell;
    alerts that bring markup of their own are beyond this model of the
    page. *)
Definition updateAlertsFeed (alerts : list alert) : JS.M document unit :=
  d <- JS.get ;;
  match querySelector "feed-container" d with
  | None => JS.ret tt
  | Some _ =>
      match alerts with
      | [] => JS.modify (modify_by_class "feed-container" (set_text noAlerts))
      | _ =>
          match feedHtml alerts with
          | Throw e => JS.throw e
          | Ok html => JS.modify (modify_by_class "feed-container" (set_text html))
          end
      end
  end.

(** ** The application *)

Inductive log_entry : Type :=
| Log (msg : string)
| Warn (msg : string)
| ErrorLog (msg : string) (e : exn).

(** What a fetch of a JSON endpoint comes to. *)
Inductive response (A : Type) : Type :=
| NetworkFailure            (* [fetch] rejects *)
| StatusNotOk               (* [response.ok] is false *)
| MalformedBody             (* [response.json()] rejects *)
| Body (data : A).
Arguments NetworkFailure {A}.
Arguments StatusNotOk {A}.
Arguments MalformedBody {A}.
Arguments Body {A} data.

Inductive group : Type := Barriers | Treatments | Trapping.

(** A point of the infrastructure payload.  A coordinate is a number, or
    the point has no such member ([None], which reads as [undefined]); a
    coordinate given as [null], which Leaflet treats differently from a
    missing one, is not a value of this type. *)
Record point : Type := {
  pt_lat : option float;         (* [None]: the point has no [lat] *)
  pt_lon : option float;         (* [None]: the point has no [lon] *)
  pt_type : option string;       (* [None]: no [type] to call [charAt] on *)
  pt_name : string;
  pt_waterbody : option string;
  pt_fc : option string
}.

(** A circle marker as [loadInfrastructure] configures it. *)
Record marker : Type := {
  m_latlng : float * float;
  m_radius : nat;
  m_color : string;
  m_group : group;
  m_point : point
}.

Section App.

(** Leaflet: the geometry of a region, whether [L.geoJSON] builds a layer
    from it (it throws on a GeoJSON object it does not know) and whether the
    layer has bounds [fitBounds] accepts. *)
Variable geometry : Type.
Variable geoJSON_ok : geometry -> bool.
Variable bounds_ok : geometry -> bool.

(** The engine, see [dotId]; and [window.location]. *)
Variable proto_member : string -> option string.
Variable location_port : string.
Variable location_protocol : string.

Record region : Type := {
  id : option string;                    (* [None]: no [id] *)
  r_geometry : geometry;
  r_properties : option properties       (* [None]: no [properties] *)
}.

(** A layer of the risk overlay: the [L.geoJSON] group with the [regionId]
    attached to it, and what its handlers captured. *)
Record layer : Type := {
  regionId : option string;
  l_geometry : geometry;
  l_style : style;
  l_properties : properties
}.

Record predict_data : Type := {
  regions : option (list region);
  alerts : option (list alert);
  metadata_health : option signal_set    (* [data.metadata && data.metadata.health] *)
}.

Record state : Type := {
  page : document;
  risk_overlay : list layer;             (* [layerGroups.risk_overlay], in [eachLayer] order *)
  infrastructure : list marker;          (* the barriers, treatments and trapping groups *)
  panel_queue : list (option properties);(* timers of [updateSidePanel] not yet run *)
  focus : option layer;                  (* the layer [zoomToGrid] last fitted and opened *)
  console : list log_entry
}.

Definition with_page (p : document) (s : state) : state :=
  {| page := p; risk_overlay := risk_overlay s; infrastructure := infrastructure s;
     panel_queue := panel_queue s; focus := focus s; console := console s |}.

Definition add_layer (l : layer) (s : state) : state :=
  {| page := page s; risk_overlay := risk_overlay s ++ [l];
     infrastructure := infrastructure s;
     panel_queue := panel_queue s; focus := focus s; console := console s |}.

Definition add_marker (m : marker) (s : state) : state :=
  {| page := page s; risk_overlay := risk_overlay s;
     infrastructure := infrastructure s ++ [m];
     panel_queue := panel_queue s; focus := focus s; console := console s |}.

Definition queue_panel (p : option properties) (s : state) : state :=
  {| page := page s; risk_overlay := risk_overlay s; infrastructure := infrastructure s;
     panel_queue := panel_queue s ++ [p]; focus := focus s; console := console s |}.

Definition set_focus (l : layer) (s : state) : state :=
  {| page := page s; risk_overlay := risk_overlay s; infrastructure := infrastructure s;
     panel_queue := panel_queue s; focus := Some l; console := console s |}.

Definition log (e : log_entry) (s : state) : state :=
  {| page := page s; risk_overlay := risk_overlay s; infrastructure := infrastructure s;
     panel_queue := panel_queue s; focus := focus s; console := console s ++ [e] |}.

Definition on_page {A} (m : JS.M document A) : JS.M state A :=
  JS.zoom page with_page m.

Definition apiUrl (path : string) : string :=
  if (location_port =? "8080") || (location_protocol =? "file:")
  then "http://127.0.0.1:8000" ++ path
  else path.

(** The layer [L.geoJSON] builds for a region, with the [regionId] attached. *)
Definition geoLayer (r : region) (props : properties) : layer :=
  {| regionId := id r;
     l_geometry := r_geometry r;
     l_style := getStyle props;
     l_properties := props |}.

(** The body of the [forEach] of [renderRiskPolygons]: the style is computed
    first, then the layer built, then the id attached and the layer added. *)
Definition renderRegion (r : region) : JS.M state unit :=
  match r_properties r with
  | None => JS.throw (TypeError "Cannot read properties of undefined (reading 'risk_score')")
  | Some props =>
      if geoJSON_ok (r_geometry r)
      then JS.modify (add_layer (geoLayer r props))
      else JS.throw (Error "Invalid GeoJSON object.")
  end.

Definition renderRiskPolygons (rs : option (list region)) : JS.M state unit :=
  match rs with
  | None => JS.throw (TypeError "Cannot read properties of undefined (reading 'forEach')")
  | Some l => JS.forEach l renderRegion
  end.

(** [updateSidePanel]: the panel is dimmed at once and the writes are left
    to a timer; only the queue of timers is kept here. *)
Definition updateSidePanel (props : option properties) : JS.M state unit :=
  s <- JS.get ;;
  match getElementById "prediction-content" (page s) with
  | None => JS.throw (TypeError "Cannot read properties of null (reading 'style')")
  | Some _ => JS.modify (queue_panel props)
  end.

(** The health set the [catch] of [loadAILayer] hands to [updateStatusUI]. *)
Definition degraded : signal_set :=
  [ ("maritime", "green"); ("us_data", "red"); ("canada_data", "red");
    ("integrity", "red") ].

(** The [try] block of [loadAILayer] once the body has arrived. *)
Definition showPredictions (data : predict_data) : JS.M state unit :=
  renderRiskPolygons (regions data) ;;;
  match alerts data with
  | Some al => on_page (updateAlertsFeed al)
  | None => JS.ret tt
  end ;;;
  match regions data with
  | Some (r :: _) => updateSidePanel (r_properties r)
  | _ => JS.ret tt
  end ;;;
  match metadata_health data with
  | Some health => on_page (updateStatusUI proto_member health)
  | None => JS.ret tt
  end.

Definition loadAILayer (resp : response predict_data) : JS.M state unit :=
  JS.tryCatch
    (JS.modify (log (Log "Fetching AI Predictions from Hybrid Backend...")) ;;;
     JS.modify (log (Log ("Fetching AI Predictions from: " ++ apiUrl "/predict"))) ;;;
     match resp with
     | NetworkFailure => JS.throw (TypeError "Failed to fetch")
     | StatusNotOk => JS.throw (Error "API Response Error")
     | MalformedBody => JS.throw (SyntaxError "Unexpected token in JSON")
     | Body data => showPredictions data
     end)
    (fun error =>
       JS.modify (log (ErrorLog "Failed to load AI Layer:" error)) ;;;
       on_page (updateStatusUI proto_member degraded)).

(** The loop of [zoomToGrid]: every layer is visited and a later hit
    replaces an earlier one. *)
Definition findLayer (gridId : string) (overlay : list layer) : option layer :=
  fold_left
    (fun foundLayer l =>
       match regionId l with
       | Some rid => if rid =? gridId then Some l else foundLayer
       | None => foundLayer
       end)
    overlay None.

Definition zoomToGrid (gridId : string) : JS.M state unit :=
  s <- JS.get ;;
  match findLayer gridId (risk_overlay s) with
  | Some foundLayer =>
      if bounds_ok (l_geometry foundLayer)
      then JS.modify (set_focus foundLayer)
      else JS.throw (Error "Bounds are not valid.")
  | None => JS.modify (log (Warn ("Grid " ++ gridId ++ " not found on map.")))
  end.

(** The body of the [forEach] of [loadInfrastructure]. *)
Definition renderPoint (pt : point) : JS.M state unit :=
  let '(color, radius, grp) :=
    match pt_type pt with
    | Some "treatment" => ("#ec4899", 4, Treatments)
    | Some "trapping" => ("#facc15", 6, Trapping)
    | Some "barrier" =>
        match pt_fc pt with
        | Some "No" => ("#f87171", 5, Barriers)
        | _ => ("#38bdf8", 5, Barriers)
        end
    | _ => ("#38bdf8", 5, Barriers)
    end in
  match pt_lat pt, pt_lon pt with
  | Some lat, Some lon =>
      match pt_type pt with
      | None => JS.throw (TypeError "Cannot read properties of undefined (reading 'charAt')")
      | Some _ =>
          JS.modify (add_marker {| m_latlng := (lat, lon); m_radius := radius;
                                   m_color := color; m_group := grp; m_point := pt |})
      end
  | _, _ => JS.throw (Error "Invalid LatLng object")
  end.

Definition loadInfrastructure (resp : response (option (list point))) : JS.M state unit :=
  JS.tryCatch
    (JS.modify (log (Log ("Fetching GLFC Infrastructure from: " ++ apiUrl "/infrastructure"))) ;;;
     match resp with
     | NetworkFailure => JS.throw (TypeError "Failed to fetch")
     | StatusNotOk => JS.throw (Error "Infrastructure API Error")
     | MalformedBody => JS.throw (SyntaxError "Unexpected token in JSON")
     | Body None => JS.throw (TypeError "Cannot read properties of undefined (reading 'forEach')")
     | Body (Some points) => JS.forEach points renderPoint
     end)
    (fun e => JS.modify (log (ErrorLog "Infrastructure loading failed:" e))).

End App.


Arguments id {geometry} r.
Arguments r_geometry {geometry} r.
Arguments r_properties {geometry} r.
Arguments regionId {geometry} l.
Arguments l_geometry {geometry} l.
Arguments l_style {geometry} l.
Arguments l_properties {geometry} l.
Arguments regions {geometry} p.
Arguments alerts {geometry} p.
Arguments metadata_health {geometry} p.
Arguments page {geometry} s.
Arguments risk_overlay {geometry} s.
Arguments infrastructure {geometry} s.
Arguments panel_queue {geometry} s.
Arguments focus {geometry} s.
Arguments console {geometry} s.
Arguments with_page {geometry} p s.
Arguments add_layer {geometry} l s.
Arguments add_marker {geometry} m s.
Arguments queue_panel {geometry} p s.
Arguments set_focus {geometry} l s.
Arguments log {geometry} e s.
Arguments on_page {geometry A} m.
Arguments geoLayer {geometry} r props.
Arguments renderRegion {geometry} geoJSON_ok r.
Arguments renderRiskPolygons {geometry} geoJSON_ok rs.
Arguments updateSidePanel {geometry} props.
Arguments showPredictions {geometry} geoJSON_ok proto_member data.
Arguments loadAILayer {geometry} geoJSON_ok proto_member location_port location_protocol resp.
Arguments findLayer {geometry} gridId overlay.
Arguments zoomToGrid {geometry} bounds_ok gridId.
Arguments renderPoint {geometry} pt.
Arguments loadInfrastructure {geometry} location_port location_protocol resp.


(** ** Collapsible panels: [setupUIInteractivity] *)

(** [classList.remove(tok)] *)
Definition classList_remove (tok : string) (cl : list string) : list string :=
  filter (fun c => negb (c =? tok)) cl.

(** [classList.contains(tok)], on a class list. *)
Definition has_class (tok : string) (cl : list string) : bool :=
  existsb (String.eqb tok) cl.

(** A panel as [togglePanel] sees it: the class list of the panel element
    and the [points] attribute of the chevron in its toggle button. *)
Record panel : Type := {
  p_class : list string;
  p_points : string
}.

Definition chevronDown : string := "6 9 12 15 18 9".
Definition chevronUp : string := "18 15 12 9 6 15".

(** [togglePanel(panel, icon, forceCollapse)]; [None] is the call without
    the third argument. *)
Definition togglePanel (forceCollapse : option bool) (p : panel) : panel :=
  let isCollapsed :=
    match forceCollapse with
    | Some force => force
    | None => negb (has_class "collapsed" (p_class p))
    end in
  if isCollapsed
  then {| p_class := classList_add "collapsed" (p_class p); p_points := chevronDown |}
  else {| p_class := classList_remove "collapsed" (p_class p); p_points := chevronUp |}.

(** What [setupUIInteractivity] works on, on a page that has all of it: the
    sidebar and the status board with their chevrons, and the elements of
    class [panel-section] in document order (none of them one of the two
    panels).  On a page that lacks a panel or a toggle the function throws
    before it changes anything. *)
Record ui : Type := {
  sidebar : panel;
  statusBoard : panel;
  sections : list element
}.

(** [handleResize], for the [innerWidth] and [innerHeight] of the window. *)
Definition handleResize (innerWidth innerHeight : Z) (u : ui) : ui :=
  let isSmallScreen := ((innerWidth <=? 768) || (innerHeight <=? 700))%Z in
  if isSmallScreen then
    {| sidebar := if negb (has_class "collapsed" (p_class (sidebar u)))
                  then togglePanel (Some true) (sidebar u) else sidebar u;
       statusBoard := if negb (has_class "collapsed" (p_class (statusBoard u)))
                      then togglePanel (Some true) (statusBoard u) else statusBoard u;
       sections := sections u |}
  else
    {| sidebar := if has_class "collapsed" (p_class (sidebar u))
                  then togglePanel (Some false) (sidebar u) else sidebar u;
       statusBoard := if has_class "collapsed" (p_class (statusBoard u))
                      then togglePanel (Some false) (statusBoard u) else statusBoard u;
       sections := sections u |}.

(** The click handlers of the two toggle buttons. *)
Definition clickSidebarToggle (u : ui) : ui :=
  {| sidebar := togglePanel None (sidebar u); statusBoard := statusBoard u;
     sections := sections u |}.

Definition clickStatusToggle (u : ui) : ui :=
  {| sidebar := sidebar u; statusBoard := togglePanel None (statusBoard u);
     sections := sections u |}.

(** The default state: every section collapsed but the feed. *)
Definition enforceDefault (section : element) : element :=
  if el_id section =? "feed-section"
  then set_class (classList_remove "collapsed" (el_class section)) section
  else set_class (classList_add "collapsed" (el_class section)) section.

(** The statements of [setupUIInteractivity] after the listeners are set:
    the default state, the mobile check, the first [handleResize]. *)
Definition setupUIInteractivity (innerWidth innerHeight : Z) (u : ui) : ui :=
  let u1 := {| sidebar := sidebar u; statusBoard := statusBoard u;
               sections := map enforceDefault (sections u) |} in
  let isMobile := (innerWidth <=? 768)%Z in
  let u2 := if isMobile
            then {| sidebar := togglePanel (Some true) (sidebar u1);
                    statusBoard := togglePanel (Some true) (statusBoard u1);
                    sections := sections u1 |}
            else u1 in
  handleResize innerWidth innerHeight u2.
(** ** Vocabulary of the statements *)

(** A write that leaves the id of an element alone. *)
Definition keeps_id (f : element -> element) : Prop :=
  forall e, el_id (f e) = el_id e.

(** A status the loop body of [updateStatusUI] accepts: green, or a class
    token. *)
Definition valid_status (v : string) : Prop :=
  v = "green" \/ token_error v = None.

(** The source names [mapping] has. *)
Definition known (key : string) : bool :=
  match mapping key with Some _ => true | None => false end.

(** The class list of a row dot after the loop body: reset, then the status
    added unless it is green. *)
Definition dot_class (status : string) : list string :=
  if status =? "green" then ["status-row-dot"]
  else classList_add status ["status-row-dot"].

(** What [updateMasterStatus] shows for the two flags: the class added to the
    master light and the status text. *)
Definition verdict (flags : bool * bool) : string * string :=
  let '(hasError, hasWarning) := flags in
  if hasError then ("red", "System Offline")
  else if hasWarning then ("yellow", "Syncing Data...")
  else ("active", "Live Model Connected").

(** The writes of [updateMasterStatus] on a page that has the master light. *)
Definition master_write (lt : string * string) (d : document) : document :=
  modify_by_id "status-text" (set_text (snd lt))
    (modify_by_id "master-status-light" (set_class ["status-dot"; fst lt]) d).

(** The page [updateMasterStatus] leaves. *)
Definition masterPage (d : document) : document :=
  match getElementById "master-status-light" d with
  | None => d
  | Some _ => master_write (verdict (rowFlags (querySelectorAll "status-row-dot" d))) d
  end.

(** An element that counts as a row dot with the class [cls]. *)
Definition row_has (cls : string) (e : element) : bool :=
  classList_contains "status-row-dot" e && classList_contains cls e.

(** The health aggregation in the words of the specification: red if any
    signal is red, else yellow if any is yellow, else green, which the page
    renders with the class [active]. *)
Definition spec_aggregate (health : signal_set) : string * string :=
  if existsb (fun kv => snd kv =? "red") health then ("red", "System Offline")
  else if existsb (fun kv => snd kv =? "yellow") health then ("yellow", "Syncing Data...")
  else ("active", "Live Model Connected").

(** The signal set names the element: it is the dot of one of its sources. *)
Definition named_by (health : signal_set) (e : element) : Prop :=
  exists k v, In (k, v) health /\ mapping k = Some (el_id e).

Section LoopVocabulary.

Variable pm : string -> option string.

(** The page the loop of [updateStatusUI] leaves when no status is
    rejected: one write per entry. *)
Definition loop_page (health : signal_set) (d : document) : document :=
  fold_left
    (fun d kv => modify_by_id (dotId pm (fst kv)) (set_class (dot_class (snd kv))) d)
    health d.

(** The same loop seen from one element. *)
Definition restyle (health : signal_set) (e : element) : element :=
  fold_left
    (fun e kv =>
       if el_id e =? dotId pm (fst kv) then set_class (dot_class (snd kv)) e else e)
    health e.

(** The pages earlier status updates leave, whatever their outcome. *)
Definition replay (earlier : list signal_set) (d : document) : document :=
  fold_left (fun d health => snd (updateStatusUI pm health d)) earlier d.

End LoopVocabulary.

(** [master_write] seen from one element. *)
Definition master_write_el (lt : string * string) (e : element) : element :=
  let e1 := if el_id e =? "master-status-light"
            then set_class ["status-dot"; fst lt] e else e in
  if el_id e1 =? "status-text" then set_text (snd lt) e1 else e1.

(** How far a page may have drifted from the page [d0] it started as, under
    status updates that address the dots [dots] only: an element keeps its
    id; its classes are those of the start unless it is one of the dots or
    the master light (which is then no row dot); its text is that of the
    start unless it is the status text of a page that has a master light. *)
Definition drifted (dots : list string) (has_light : Prop) (e0 e : element) : Prop :=
  el_id e = el_id e0
  /\ (el_class e = el_class e0
      \/ In (el_id e0) dots
      \/ (el_id e0 = "master-status-light"
          /\ classList_contains "status-row-dot" e = false))
  /\ (el_text e = el_text e0 \/ (el_id e0 = "status-text" /\ has_light)).

(** Two pages that differ at most in the classes of a master light that is
    no row dot, and in the status text when there is a master light. *)
Definition same_board (has_light : Prop) (e1 e2 : element) : Prop :=
  el_id e1 = el_id e2
  /\ (el_class e1 = el_class e2
      \/ (el_id e1 = "master-status-light"
          /\ classList_contains "status-row-dot" e1 = false
          /\ classList_contains "status-row-dot" e2 = false))
  /\ (el_text e1 = el_text e2 \/ (el_id e1 = "status-text" /\ has_light)).

(** The dots a signal set addresses. *)
Definition dots_of (pm : string -> option string) (health : signal_set) : list string :=
  map (fun kv => dotId pm (fst kv)) health.

(** A region's properties with a given score, for examples. *)
Definition sample_properties (score : float) : properties :=
  {| species := "Silver Carp"; risk_score := score; risk_label := "";
     confidence := ""; explanation := ""; drivers := []; citations := None |}.

(** *** Grid references, in the words of the specification *)

(** The word characters: the letters of ASCII, the digits and the
    underscore. *)
Definition word_characters : string :=
  "ABCDEFGHIJKLMNOPQRSTUVWXYZabcdefghijklmnopqrstuvwxyz0123456789_".

(** A word or hyphen character. *)
Definition token_char (c : ascii) : Prop :=
  In c (list_ascii_of_string word_characters) \/ c = "-"%char.

(** Every character of [w] is a word or hyphen character. *)
Fixpoint token_chars (w : string) : Prop :=
  match w with
  | EmptyString => True
  | String c rest => token_char c /\ token_chars rest
  end.

(** A region reference token: the literal [grid-] followed by one or more
    word or hyphen characters. *)
Definition ref_token (t : string) : Prop :=
  exists w, w <> "" /\ token_chars w /\ t = "grid-" ++ w.

(** A token begins at the first character of [s]. *)
Definition starts_ref (s : string) : Prop :=
  exists t tl, ref_token t /\ s = t ++ tl.

(** The text after a token does not continue it. *)
Definition stops (tl : string) : Prop :=
  match tl with
  | EmptyString => True
  | String c _ => ~ token_char c
  end.

(** The detail text of an alert, its tokens and the text the feed shows for
    it, read left to right: at each position either no token begins there
    and the character is shown as it is, or the longest token that begins
    there is taken, shown as a link that hands the token to [zoomToGrid],
    and the reading goes on behind it. *)
Inductive Marked : string -> list string -> string -> Prop :=
| mk_end : Marked "" [] ""
| mk_skip c s ts shown :
    ~ starts_ref (String c s) -> Marked s ts shown ->
    Marked (String c s) ts (String c shown)
| mk_take tok tl ts shown :
    ref_token tok -> stops tl -> Marked tl ts shown ->
    Marked (tok ++ tl) (tok :: ts) (GridRef.grid_link tok ++ shown).

(** Every character of [w] is in the class of the scan. *)
Fixpoint all_ref (w : string) : bool :=
  match w with
  | EmptyString => true
  | String c rest => GridRef.is_ref_char c && all_ref rest
  end.

(** *** Regions and layers *)

(** A layer carries the region's identifier as its [regionId]. *)
Definition has_id {geometry : Type} (gridId : string) (l : layer geometry) : bool :=
  match regionId l with
  | Some rid => rid =? gridId
  | None => false
  end.

(** The resolution of a token in the words of the specification: the fixed
    prefix is stripped and the rest is matched against the identifiers. *)
Definition spec_resolve {geometry : Type} (token : string)
    (overlay : list (layer geometry)) : option (layer geometry) :=
  match GridRef.after_prefix "grid-" token with
  | Some rid => find (has_id rid) overlay
  | None => None
  end.

(** The layer shows the region: same identifier (or none), same geometry,
    the region's properties, styled by [getStyle]. *)
Definition shows {geometry : Type} (r : region geometry) (l : layer geometry) : Prop :=
  regionId l = id r
  /\ l_geometry l = r_geometry r
  /\ r_properties r = Some (l_properties l)
  /\ l_style l = getStyle (l_properties l).

(** A region the rendering does not throw on. *)
Definition renderable {geometry : Type} (geoJSON_ok : geometry -> bool)
    (r : region geometry) : Prop :=
  r_properties r <> None /\ geoJSON_ok (r_geometry r) = true.

(** A well-formed region in the words of the specification: it has an
    identifier and a risk score in [0,1]. *)
Definition spec_valid {geometry : Type} (r : region geometry) : bool :=
  match id r, r_properties r with
  | Some _, Some props =>
      ((0 <=? risk_score props) && (risk_score props <=? 1))%float
  | _, _ => false
  end.

(** The state with another overlay. *)
Definition with_overlay {geometry : Type} (ov : list (layer geometry))
    (s : state geometry) : state geometry :=
  {| page := page s; risk_overlay := ov; infrastructure := infrastructure s;
     panel_queue := panel_queue s; focus := focus s; console := console s |}.

(** A fetch that brought no body. *)
Definition failed {A : Type} (resp : response A) : Prop :=
  forall data, resp <> Body data.

(** The exception a failed fetch raises in the loaders. *)
Definition failure_of {A : Type} (notOk : string) (resp : response A) : exn :=
  match resp with
  | StatusNotOk => Error notOk
  | MalformedBody => SyntaxError "Unexpected token in JSON"
  | _ => TypeError "Failed to fetch"
  end.

(** The elements the degraded status set and the master status write to. *)
Definition board_ids : list string :=
  ["dot-maritime"; "dot-us"; "dot-canada"; "dot-gbif";
   "master-status-light"; "status-text"].

(** An element kept as it was unless its id is one of [ids]. *)
Definition kept_outside (ids : list string) (e0 e : element) : Prop :=
  el_id e = el_id e0 /\ (~ In (el_id e0) ids -> e = e0).

(** A computation that leaves a part of the store as it found it, whatever
    its outcome. *)
Definition preserves {S T A : Type} (proj : S -> T) (m : JS.M S A) : Prop :=
  forall s, proj (snd (m s)) = proj s.

(** A start state: an empty overlay on the given page. *)
Definition startup {geometry : Type} (p : document) : state geometry :=
  {| page := p; risk_overlay := []; infrastructure := []; panel_queue := [];
     focus := None; console := [] |}.

(** Sample regions, for examples: Leaflet accepts every geometry. *)
Definition sample_region (rid : option string) (score : float) : region unit :=
  {| id := rid; r_geometry := tt; r_properties := Some (sample_properties score) |}.

Definition any_geometry : unit -> bool := fun _ => true.

Definition sample_batch (rs : list (region unit)) : predict_data unit :=
  {| regions := Some rs; alerts := None; metadata_health := None |}.

(** A page with the status board, the alert feed and the side panel. *)
Definition app_page : document :=
  (board_page
   ++ [ {| el_id := "feed"; el_class := ["feed-container"];
           el_text := "<div class=feed-item>stale alert near grid-A</div>" |};
        {| el_id := "prediction-content"; el_class := []; el_text := "" |} ])%list.

(** A state after a load that brought the region [grid-A]. *)
Definition loaded : state unit :=
  {| page := app_page;
     risk_overlay := [geoLayer (sample_region (Some "grid-A") 0.9) (sample_properties 0.9)];
     infrastructure := []; panel_queue := [Some (sample_properties 0.9)];
     focus := None; console := [] |}.

(** *** Vocabulary of the further properties *)

(** Some row dot of the page carries the class [cls]. *)
Definition some_row_dot (cls : string) (d : document) : Prop :=
  exists e, In e d /\ In "status-row-dot" (el_class e) /\ In cls (el_class e).

(** The elements a status update may write to: the dots of its entries, the
    master light and the status text. *)
Definition status_targets (pm : string -> option string) (health : signal_set)
  : list string :=
  (dots_of pm health ++ ["master-status-light"; "status-text"])%list.

(** The characters the link markup adds around a token, the token's own
    second copy apart. *)
Definition link_overhead : nat := 56.

(** The feed item of an alert that has a detail text. *)
Definition feedItemOf (al : alert) : string :=
  match a_detail al with
  | Some detail => feedItem al (GridRef.enrich detail)
  | None => EmptyString
  end.

(** What reading [detail] of an alert that has none throws. *)
Definition no_detail_error : exn :=
  TypeError "Cannot read properties of undefined (reading 'replace')".

(** What rendering a region the code cannot render throws. *)
Definition render_error {geometry : Type} (r : region geometry) : exn :=
  match r_properties r with
  | None => TypeError "Cannot read properties of undefined (reading 'risk_score')"
  | Some _ => Error "Invalid GeoJSON object."
  end.

(** What the side panel is asked to show after a batch: the properties of
    its first region, nothing for an empty batch. *)
Definition first_panel {geometry : Type} (rs : option (list (region geometry)))
  : list (option properties) :=
  match rs with
  | Some (r :: _) => [r_properties r]
  | _ => []
  end.

(** A text without markup: it has no [<], so that the HTML parser makes
    text of it and no element. *)
Fixpoint plain (s : string) : bool :=
  match s with
  | EmptyString => true
  | String c rest => negb (Ascii.eqb c "<") && plain rest
  end.

(** An alert that brings no markup of its own.  Its strings all land in
    element content, so the feed then holds for it the elements of the item
    template only: none has an id, and none a class the script looks up. *)
Definition plain_alert (al : alert) : Prop :=
  plain (a_type al) = true /\ plain (a_title al) = true
  /\ plain (a_timestamp al) = true
  /\ match a_detail al with
     | Some detail => plain detail = true
     | None => True
     end.

(** *** Infrastructure points *)

(** The colour, radius and group of a point, by the comparisons of the
    source: [pt.type === 'treatment'], else [pt.type === 'trapping'], else
    [pt.type === 'barrier' && pt.fc === 'No'], else the defaults. *)
Definition point_style (ty fc : option string) : string * nat * group :=
  match ty with
  | Some t =>
      if t =? "treatment" then ("#ec4899", 4, Treatments)
      else if t =? "trapping" then ("#facc15", 6, Trapping)
      else if (t =? "barrier")
              && match fc with Some f => f =? "No" | None => false end
           then ("#f87171", 5, Barriers)
           else ("#38bdf8", 5, Barriers)
  | None => ("#38bdf8", 5, Barriers)
  end.

(** A point the loop of [loadInfrastructure] does not throw on. *)
Definition drawable (pt : point) : Prop :=
  pt_lat pt <> None /\ pt_lon pt <> None /\ pt_type pt <> None.

(** What the loop throws on a point it cannot draw. *)
Definition point_error (pt : point) : exn :=
  match pt_lat pt, pt_lon pt with
  | Some _, Some _ => TypeError "Cannot read properties of undefined (reading 'charAt')"
  | _, _ => Error "Invalid LatLng object"
  end.

(** The state with other infrastructure markers. *)
Definition with_infrastructure {geometry : Type} (ms : list marker)
    (s : state geometry) : state geometry :=
  {| page := page s; risk_overlay := risk_overlay s; infrastructure := ms;
     panel_queue := panel_queue s; focus := focus s; console := console s |}.

(** A sample point. *)
Definition sample_point (ty : option string) (fc : option string) : point :=
  {| pt_lat := Some 44.5%float; pt_lon := Some (-84.2)%float; pt_type := ty;
     pt_name := "Cheboygan Dam"; pt_waterbody := None; pt_fc := fc |}.

(** *** Panels *)

(** The panel is collapsed. *)
Definition collapsed (p : panel) : bool := has_class "collapsed" (p_class p).

(** The window counts as a small screen. *)
Definition small_screen (innerWidth innerHeight : Z) : bool :=
  ((innerWidth <=? 768) || (innerHeight <=? 700))%Z.

(** Two class lists with the same classes, [collapsed] apart. *)
Definition same_other_classes (cl cl' : list string) : Prop :=
  forall c, c <> "collapsed" -> (In c cl' <-> In c cl).

(** * Properties *)

(** ** Writes to the page *)

Section DomFacts.

Implicit Types (d : document) (e : element) (f g : element -> element).

Lemma set_class_keeps_id cl : keeps_id (set_class cl).
Proof. intros e; reflexivity. Qed.

Lemma set_text_keeps_id t : keeps_id (set_text t).
Proof. intros e; reflexivity. Qed.

Lemma modify_by_id_ids i f d :
  keeps_id f -> map el_id (modify_by_id i f d) = map el_id d.
Proof.
  intros Hf; induction d as [|e d IH]; simpl; [reflexivity|].
  destruct (el_id e =? i); simpl; [rewrite Hf | rewrite IH]; reflexivity.
Qed.

Lemma getElementById_none i d :
  getElementById i d = None <-> ~ In i (map el_id d).
Proof.
  unfold getElementById; induction d as [|e d IH]; simpl.
  - split; [intros _ [] | reflexivity].
  - destruct (String.eqb_spec (el_id e) i) as [E|E].
    + split; [discriminate | intros H; exfalso; apply H; left; exact E].
    + rewrite IH; split; [intros H [H'|H']; [exact (E H') | exact (H H')] | tauto].
Qed.

Lemma getElementById_some i d e :
  getElementById i d = Some e -> In e d /\ el_id e = i.
Proof.
  unfold getElementById; intros H; apply find_some in H as [H1 H2].
  split; [exact H1 | now apply String.eqb_eq].
Qed.

Lemma getElementById_in i d :
  In i (map el_id d) -> exists e, getElementById i d = Some e.
Proof.
  intros H; destruct (getElementById i d) as [e|] eqn:E; [now exists e|].
  apply getElementById_none in E; contradiction.
Qed.

Lemma modify_by_id_absent i f d :
  ~ In i (map el_id d) -> modify_by_id i f d = d.
Proof.
  induction d as [|e d IH]; simpl; [reflexivity|]; intros H.
  destruct (String.eqb_spec (el_id e) i) as [E|E]; [exfalso; apply H; now left|].
  rewrite IH; [reflexivity | intros H'; apply H; now right].
Qed.

(** Two writes through the same reference. *)
Lemma modify_by_id_twice i f g d :
  keeps_id f ->
  modify_by_id i g (modify_by_id i f d) = modify_by_id i (fun e => g (f e)) d.
Proof.
  intros Hf; induction d as [|e d IH]; simpl; [reflexivity|].
  destruct (el_id e =? i) eqn:E; simpl.
  - rewrite Hf, E; reflexivity.
  - rewrite E, IH; reflexivity.
Qed.

(** Reading after a write. *)
Lemma getElementById_modify_same i f d :
  keeps_id f ->
  getElementById i (modify_by_id i f d) = option_map f (getElementById i d).
Proof.
  intros Hf; unfold getElementById; induction d as [|e d IH]; simpl; [reflexivity|].
  destruct (el_id e =? i) eqn:E; simpl.
  - rewrite Hf, E; reflexivity.
  - rewrite E; exact IH.
Qed.

Lemma getElementById_modify_other i j f d :
  keeps_id f -> i <> j ->
  getElementById j (modify_by_id i f d) = getElementById j d.
Proof.
  intros Hf Hij; unfold getElementById; induction d as [|e d IH]; simpl; [reflexivity|].
  destruct (String.eqb_spec (el_id e) i) as [E|E]; simpl.
  - rewrite Hf. destruct (String.eqb_spec (el_id e) j) as [E'|E']; [congruence | reflexivity].
  - destruct (el_id e =? j); [reflexivity | exact IH].
Qed.

(** On a page whose ids are distinct a write by id is a pointwise change. *)
Lemma modify_by_id_map i f d :
  NoDup (map el_id d) ->
  modify_by_id i f d = map (fun e => if el_id e =? i then f e else e) d.
Proof.
  induction d as [|e d IH]; simpl; [reflexivity|]; intros H.
  inversion H as [|? ? Hn Hd]; subst.
  destruct (String.eqb_spec (el_id e) i) as [E|E].
  - f_equal. rewrite <- (modify_by_id_absent i f d) at 1 by (rewrite <- E; exact Hn).
    symmetry; rewrite <- IH by exact Hd. reflexivity.
  - f_equal; exact (IH Hd).
Qed.

End DomFacts.

(** ** The status board *)

Section StatusFacts.

Variable pm : string -> option string.

(** The loop body, as one case analysis. *)
Lemma statusEntry_run k v d :
  statusEntry pm (k, v) d =
  match getElementById (dotId pm k) d with
  | None => (Ok tt, d)
  | Some _ =>
      if v =? "green"
      then (Ok tt, modify_by_id (dotId pm k) (set_class (dot_class v)) d)
      else match token_error v with
           | Some e => (Throw e, modify_by_id (dotId pm k) (set_class ["status-row-dot"]) d)
           | None => (Ok tt, modify_by_id (dotId pm k) (set_class (dot_class v)) d)
           end
  end.
Proof.
  unfold statusEntry, JS.bind, JS.get, JS.modify, JS.ret, JS.throw, dot_class.
  destruct (getElementById (dotId pm k) d); [|reflexivity].
  destruct (v =? "green"); [reflexivity|].
  destruct (token_error v); [reflexivity|].
  rewrite modify_by_id_twice by apply set_class_keeps_id. reflexivity.
Qed.

Lemma statusEntry_valid k v d :
  valid_status v ->
  statusEntry pm (k, v) d =
  (Ok tt, modify_by_id (dotId pm k) (set_class (dot_class v)) d).
Proof.
  intros Hv; rewrite statusEntry_run.
  destruct (getElementById (dotId pm k) d) eqn:E.
  - destruct Hv as [->|Hv]; [reflexivity|].
    rewrite Hv; destruct (v =? "green"); reflexivity.
  - apply getElementById_none in E.
    rewrite modify_by_id_absent by exact E. reflexivity.
Qed.

Lemma statusEntry_absent k v d :
  ~ In (dotId pm k) (map el_id d) -> statusEntry pm (k, v) d = (Ok tt, d).
Proof.
  intros H; rewrite statusEntry_run.
  apply getElementById_none in H; rewrite H; reflexivity.
Qed.

Lemma statusEntry_ids kv d :
  map el_id (snd (statusEntry pm kv d)) = map el_id d.
Proof.
  destruct kv as [k v]; rewrite statusEntry_run.
  destruct (getElementById (dotId pm k) d); [|reflexivity].
  destruct (v =? "green"); [|destruct (token_error v)]; simpl;
    apply modify_by_id_ids, set_class_keeps_id.
Qed.

Lemma forEach_cons {S X} (x : X) (xs : list X) (body : X -> JS.M S unit) (s : S) :
  JS.forEach (x :: xs) body s =
  match body x s with
  | (Ok _, s') => JS.forEach xs body s'
  | (Throw e, s') => (Throw e, s')
  end.
Proof. reflexivity. Qed.

(** Entries under unknown names can be dropped from the loop. *)
Lemma statusLoop_filter health d :
  (forall k v, In (k, v) health -> mapping k = None ->
               ~ In (dotId pm k) (map el_id d)) ->
  JS.forEach health (statusEntry pm) d =
  JS.forEach (filter (fun kv => known (fst kv)) health) (statusEntry pm) d.
Proof.
  revert d; induction health as [|[k v] health IH]; intros d H; [reflexivity|].
  simpl filter; unfold known at 1; simpl fst.
  destruct (mapping k) eqn:Ek.
  - rewrite !forEach_cons.
    pose proof (statusEntry_ids (k, v) d) as Hids.
    destruct (statusEntry pm (k, v) d) as [[u|e] d']; [|reflexivity].
    simpl in Hids. apply IH. intros k' v' Hin Hm. rewrite Hids.
    apply (H k' v'); [now right | exact Hm].
  - rewrite forEach_cons, statusEntry_absent by (apply (H k v); [now left | exact Ek]).
    apply IH. intros k' v' Hin Hm. apply (H k' v'); [now right | exact Hm].
Qed.

End StatusFacts.

(** C10 (as amended). An entry of a health signal set whose source name is
    none of [maritime], [us_data], [canada_data], [integrity],
    [infrastructure] is ignored by the status update when the page has no
    element under the id the lookup of such a name comes to (the text
    [undefined], or the text of an inherited member): then its loop body
    returns normally and leaves the page as it is, and the whole update
    gives the same outcome and the same page (row dots and master status
    included) as the update with the signal set stripped of those entries. *)
Theorem unknown_sources_ignored
    (pm : string -> option string) (health : signal_set) (d : document) :
  (forall k v, In (k, v) health -> mapping k = None ->
               ~ In (dotId pm k) (map el_id d)) ->
  (forall k v, In (k, v) health -> mapping k = None ->
               statusEntry pm (k, v) d = (Ok tt, d))
  /\ updateStatusUI pm health d
     = updateStatusUI pm (filter (fun kv => known (fst kv)) health) d.
Proof.
  intros H; split.
  - intros k v Hin Hm. apply statusEntry_absent. exact (H k v Hin Hm).
  - unfold updateStatusUI, originalUpdateStatusUI, JS.bind.
    rewrite (statusLoop_filter pm health d H). reflexivity.
Qed.

Lemma unknown_sources_ignored_witness :
  updateStatusUI no_proto
    [("a", "green"); ("us_data", "red"); ("b", ""); ("integrity", "yellow")]
    board_page
  = updateStatusUI no_proto [("us_data", "red"); ("integrity", "yellow")] board_page.
Proof.
  refine (proj2 (unknown_sources_ignored no_proto
                   [("a", "green"); ("us_data", "red"); ("b", ""); ("integrity", "yellow")]
                   board_page _)).
  intros k v Hin Hm. unfold dotId, no_proto. rewrite Hm.
  simpl. intuition discriminate.
Defined.

(** A page that has an element under the id [undefined], which is what the
    lookup of an unknown name comes to: the entry of the unknown source
    [zebra] is written to that element, which becomes a red row dot and
    turns the master status red, where the set without the entry leaves it
    green; and with a status that [classList.add] rejects the update
    throws. *)
Lemma unknown_source_reaches_element_named_undefined :
  let d := (board_page
            ++ [ {| el_id := "undefined"; el_class := ["note"]; el_text := "" |} ])%list in
  mapping "zebra" = None
  /\ getElementById "undefined" (snd (updateStatusUI no_proto [("zebra", "red")] d))
     = Some {| el_id := "undefined"; el_class := ["status-row-dot"; "red"];
               el_text := "" |}
  /\ master_status (snd (updateStatusUI no_proto [("zebra", "red")] d))
     = (Some ["status-dot"; "red"], Some "System Offline")
  /\ master_status (snd (updateStatusUI no_proto [] d))
     = (Some ["status-dot"; "active"], Some "Live Model Connected")
  /\ fst (updateStatusUI no_proto [("zebra", "")] d)
     = Throw (DOMException "SyntaxError").
Proof. cbv zeta. repeat split; reflexivity. Qed.


(** ** The master status *)

Lemma rowFlags_existsb (l : list element) :
  rowFlags l = (existsb (classList_contains "red") l,
                existsb (classList_contains "yellow") l).
Proof.
  unfold rowFlags.
  assert (G : forall a b,
             fold_left
               (fun '(hasError, hasWarning) dot =>
                  (if classList_contains "red" dot then true else hasError,
                   if classList_contains "yellow" dot then true else hasWarning))
               l (a, b)
             = (a || existsb (classList_contains "red") l,
                b || existsb (classList_contains "yellow") l)).
  { induction l as [|e l IH]; intros a b; simpl.
    - now rewrite !orb_false_r.
    - rewrite IH. destruct (classList_contains "red" e), (classList_contains "yellow" e), a, b;
        reflexivity. }
  exact (G false false).
Qed.

Lemma existsb_filter {A} (p q : A -> bool) (l : list A) :
  existsb q (filter p l) = existsb (fun x => p x && q x) l.
Proof.
  induction l as [|x l IH]; simpl; [reflexivity|].
  destruct (p x); simpl; rewrite IH; reflexivity.
Qed.

Lemma rowFlags_page (d : document) :
  rowFlags (querySelectorAll "status-row-dot" d)
  = (existsb (row_has "red") d, existsb (row_has "yellow") d).
Proof.
  unfold querySelectorAll; rewrite rowFlags_existsb, !existsb_filter. reflexivity.
Qed.

Lemma updateMasterStatus_run (d : document) :
  updateMasterStatus d = (Ok tt, masterPage d).
Proof.
  unfold updateMasterStatus, masterPage, JS.bind, JS.get.
  destruct (rowFlags (querySelectorAll "status-row-dot" d)) as [[|] [|]];
    destruct (getElementById "master-status-light" d) eqn:E; try reflexivity;
    unfold JS.modify, master_write, setMasterLight, setStatusText; simpl;
    rewrite modify_by_id_twice by apply set_class_keeps_id;
    match goal with
    | |- context [getElementById "status-text" ?p] =>
        destruct (getElementById "status-text" p) eqn:E'
    end; try reflexivity;
    apply getElementById_none in E';
    rewrite (modify_by_id_absent "status-text") by exact E'; reflexivity.
Qed.

Lemma master_write_ids lt d : map el_id (master_write lt d) = map el_id d.
Proof.
  unfold master_write.
  rewrite modify_by_id_ids by apply set_text_keeps_id.
  apply modify_by_id_ids, set_class_keeps_id.
Qed.

Lemma masterPage_ids d : map el_id (masterPage d) = map el_id d.
Proof.
  unfold masterPage; destruct (getElementById "master-status-light" d);
    [apply master_write_ids | reflexivity].
Qed.

(** What the master indicator shows after the writes. *)
Lemma master_status_write lt d :
  In "master-status-light" (map el_id d) ->
  In "status-text" (map el_id d) ->
  master_status (master_write lt d) = (Some ["status-dot"; fst lt], Some (snd lt)).
Proof.
  intros Hl Ht. unfold master_status, master_write.
  apply getElementById_in in Hl as [l El].
  apply getElementById_in in Ht as [t Et].
  rewrite getElementById_modify_other by (apply set_text_keeps_id || discriminate).
  rewrite getElementById_modify_same by apply set_class_keeps_id.
  rewrite getElementById_modify_same by apply set_text_keeps_id.
  rewrite getElementById_modify_other by (apply set_class_keeps_id || discriminate).
  rewrite El, Et. reflexivity.
Qed.

(** ** The loop of the status update *)

Section LoopFacts.

Variable pm : string -> option string.

Lemma statusLoop_valid health d :
  (forall k v, In (k, v) health -> valid_status v) ->
  JS.forEach health (statusEntry pm) d = (Ok tt, loop_page pm health d).
Proof.
  revert d; induction health as [|[k v] health IH]; intros d H; [reflexivity|].
  rewrite forEach_cons, statusEntry_valid by (apply (H k v); now left).
  simpl. apply IH. intros k' v' Hin; apply (H k' v'); now right.
Qed.

Lemma updateStatusUI_valid health d :
  (forall k v, In (k, v) health -> valid_status v) ->
  updateStatusUI pm health d
  = (Ok tt, masterPage (masterPage (loop_page pm health d))).
Proof.
  intros H. unfold updateStatusUI, originalUpdateStatusUI, JS.bind.
  rewrite statusLoop_valid by exact H.
  rewrite !updateMasterStatus_run. reflexivity.
Qed.

Lemma loop_page_ids health d : map el_id (loop_page pm health d) = map el_id d.
Proof.
  revert d; induction health as [|kv health IH]; intros d; [reflexivity|].
  simpl. rewrite IH. apply modify_by_id_ids, set_class_keeps_id.
Qed.

Lemma restyle_id health e : el_id (restyle pm health e) = el_id e.
Proof.
  revert e; induction health as [|kv health IH]; intros e; [reflexivity|].
  simpl. rewrite IH. destruct (el_id e =? dotId pm (fst kv)); reflexivity.
Qed.

Lemma restyle_text health e : el_text (restyle pm health e) = el_text e.
Proof.
  revert e; induction health as [|kv health IH]; intros e; [reflexivity|].
  simpl. rewrite IH. destruct (el_id e =? dotId pm (fst kv)); reflexivity.
Qed.

Lemma loop_page_map health d :
  NoDup (map el_id d) -> loop_page pm health d = map (restyle pm health) d.
Proof.
  revert d; induction health as [|kv health IH]; intros d Hd; simpl.
  - symmetry; apply map_id.
  - rewrite IH by (rewrite modify_by_id_ids by apply set_class_keeps_id; exact Hd).
    rewrite modify_by_id_map by exact Hd. rewrite map_map. reflexivity.
Qed.

(** An element no entry addresses keeps its classes. *)
Lemma restyle_unaddressed health e :
  (forall k v, In (k, v) health -> dotId pm k <> el_id e) ->
  restyle pm health e = e.
Proof.
  revert e; induction health as [|[k v] health IH]; intros e H; [reflexivity|].
  simpl. destruct (String.eqb_spec (el_id e) (dotId pm k)) as [E|E].
  - exfalso. apply (H k v); [now left | now symmetry].
  - apply IH. intros k' v' Hin; apply (H k' v'); now right.
Qed.

End LoopFacts.

Lemma mapping_injective k k' i :
  mapping k = Some i -> mapping k' = Some i -> k = k'.
Proof.
  unfold mapping.
  repeat match goal with
         | |- context [String.eqb ?a ?b] => destruct (String.eqb_spec a b); subst
         end; congruence.
Qed.

Lemma dotId_known pm k i : mapping k = Some i -> dotId pm k = i.
Proof. unfold dotId; now intros ->. Qed.

Lemma mapping_not_master k i :
  mapping k = Some i -> i <> "master-status-light" /\ i <> "status-text".
Proof.
  unfold mapping.
  repeat match goal with
         | |- context [String.eqb ?a ?b] => destruct (String.eqb_spec a b); subst
         end; intros H; inversion H; subst; split; discriminate.
Qed.

(** ** The second call of [updateMasterStatus] changes nothing *)

Lemma master_write_map lt d :
  NoDup (map el_id d) -> master_write lt d = map (master_write_el lt) d.
Proof.
  intros Hd. unfold master_write.
  rewrite (modify_by_id_map "status-text")
    by (rewrite modify_by_id_ids by apply set_class_keeps_id; exact Hd).
  rewrite (modify_by_id_map "master-status-light") by exact Hd.
  rewrite map_map. reflexivity.
Qed.

Lemma existsb_map_same {A} (p : A -> bool) (g : A -> A) (l : list A) :
  (forall x, In x l -> p (g x) = p x) -> existsb p (map g l) = existsb p l.
Proof.
  induction l as [|x l IH]; intros H; simpl; [reflexivity|].
  rewrite H by now left. rewrite IH; [reflexivity|]. intros y Hy; apply H; now right.
Qed.

Lemma verdict_light flags :
  fst (verdict flags) = "red" \/ fst (verdict flags) = "yellow"
  \/ fst (verdict flags) = "active".
Proof. destruct flags as [[|] [|]]; simpl; auto. Qed.

(** The writes to the master light and the status text do not change which
    row dots are red or yellow, when the master light is no row dot. *)
Lemma row_has_master_write c flags d :
  NoDup (map el_id d) ->
  (forall e, In e d -> el_id e = "master-status-light" ->
             classList_contains "status-row-dot" e = false) ->
  existsb (row_has c) (master_write (verdict flags) d) = existsb (row_has c) d.
Proof.
  intros Hd Hml. rewrite master_write_map by exact Hd.
  apply existsb_map_same. intros e He. unfold master_write_el.
  destruct (String.eqb_spec (el_id e) "master-status-light") as [E|E].
  - simpl el_id. rewrite E. simpl String.eqb. cbv iota.
    unfold row_has at 2. rewrite (Hml e He E). simpl andb.
    unfold row_has, classList_contains; simpl el_class.
    destruct (verdict_light flags) as [-> | [-> | ->]]; reflexivity.
  - destruct (el_id e =? "status-text"); reflexivity.
Qed.

Lemma master_write_el_twice lt e :
  master_write_el lt (master_write_el lt e) = master_write_el lt e.
Proof.
  destruct e as [i c t]. unfold master_write_el, set_class, set_text. simpl.
  destruct (i =? "master-status-light") eqn:E; simpl;
    destruct (i =? "status-text") eqn:E'; simpl;
    rewrite ?E, ?E'; simpl; rewrite ?E, ?E'; reflexivity.
Qed.

Lemma masterPage_idem d :
  NoDup (map el_id d) ->
  (forall e, In e d -> el_id e = "master-status-light" ->
             classList_contains "status-row-dot" e = false) ->
  masterPage (masterPage d) = masterPage d.
Proof.
  intros Hd Hml. unfold masterPage at 2.
  destruct (getElementById "master-status-light" d) as [l|] eqn:El.
  - unfold masterPage.
    assert (In "master-status-light" (map el_id d)) as Hin.
    { destruct (getElementById_some _ _ _ El) as [H1 H2].
      rewrite <- H2. now apply in_map. }
    rewrite <- (master_write_ids (verdict (rowFlags (querySelectorAll "status-row-dot" d))) d)
      in Hin.
    apply getElementById_in in Hin as [l' El']. rewrite El'.
    rewrite (rowFlags_page (master_write _ d)).
    rewrite !row_has_master_write by assumption.
    rewrite <- rowFlags_page.
    set (lt := verdict (rowFlags (querySelectorAll "status-row-dot" d))).
    rewrite (master_write_map lt (master_write lt d)) by (rewrite master_write_ids; exact Hd).
    rewrite (master_write_map lt d) by exact Hd.
    rewrite map_map, El. apply map_ext. apply master_write_el_twice.
  - unfold masterPage. rewrite El. reflexivity.
Qed.

(** ** Signals and row dots *)

Lemma classList_contains_in tok e :
  classList_contains tok e = true <-> In tok (el_class e).
Proof.
  unfold classList_contains. rewrite existsb_exists. split.
  - intros [x [Hx E]]. apply String.eqb_eq in E. now subst x.
  - intros H. exists tok. split; [exact H | apply String.eqb_refl].
Qed.

Section SignalFacts.

Variable pm : string -> option string.

Lemma dotId_injective k k' :
  mapping k <> None -> mapping k' <> None -> dotId pm k = dotId pm k' -> k = k'.
Proof.
  intros Hk Hk' E.
  destruct (mapping k) as [i|] eqn:Ei; [|contradiction].
  destruct (mapping k') as [i'|] eqn:Ei'; [|contradiction].
  rewrite (dotId_known pm k i Ei), (dotId_known pm k' i' Ei') in E. subst i'.
  exact (mapping_injective k k' i Ei Ei').
Qed.

(** With distinct known keys, the entry of a dot decides its classes. *)
Lemma restyle_addressed health e k v :
  NoDup (map fst health) ->
  (forall k' v', In (k', v') health -> mapping k' <> None) ->
  In (k, v) health -> el_id e = dotId pm k ->
  restyle pm health e = set_class (dot_class v) e.
Proof.
  revert e; induction health as [|[k0 v0] health IH]; intros e Hnd Hkn Hin Hid;
    [contradiction|].
  simpl in Hnd. inversion Hnd as [|? ? Hnotin Hnd']; subst.
  assert (Hk0 : mapping k0 <> None) by (apply (Hkn k0 v0); now left).
  assert (Hrest : forall k' v', In (k', v') health -> mapping k' <> None)
    by (intros k' v' H'; apply (Hkn k' v'); now right).
  simpl. destruct Hin as [Heq|Hin].
  - inversion Heq; subst k0 v0. simpl fst; simpl snd.
    rewrite Hid, String.eqb_refl.
    apply restyle_unaddressed. intros k' v' Hin' E. simpl in E.
    rewrite Hid in E. apply dotId_injective in E; [|exact (Hrest k' v' Hin')|exact Hk0].
    subst k'. apply Hnotin. change k with (fst (k, v')). now apply in_map.
  - simpl fst; simpl snd.
    destruct (String.eqb_spec (el_id e) (dotId pm k0)) as [E|E].
    + exfalso. rewrite Hid in E.
      apply dotId_injective in E; [|exact (Hrest k v Hin)|exact Hk0].
      subst k0. apply Hnotin. change k with (fst (k, v)). now apply in_map.
    + apply IH; assumption.
Qed.

Lemma dot_class_has c v e :
  (v = "green" \/ v = "yellow" \/ v = "red") -> (c = "red" \/ c = "yellow") ->
  row_has c (set_class (dot_class v) e) = (v =? c).
Proof. intros [-> | [-> | ->]] [-> | ->]; reflexivity. Qed.

(** On a page whose other row dots are neither red nor yellow, some row dot
    is red (yellow) after the loop exactly when some signal is. *)
Lemma row_has_signals c health d :
  c = "red" \/ c = "yellow" ->
  NoDup (map fst health) ->
  (forall k v, In (k, v) health ->
     (exists i, mapping k = Some i /\ In i (map el_id d))
     /\ (v = "green" \/ v = "yellow" \/ v = "red")) ->
  (forall e, In e d -> In "status-row-dot" (el_class e) ->
     ~ named_by health e ->
     ~ In "red" (el_class e) /\ ~ In "yellow" (el_class e)) ->
  existsb (row_has c) (map (restyle pm health) d)
  = existsb (fun kv => snd kv =? c) health.
Proof.
  intros Hc Hnd Hsig Hcov.
  assert (Hkn : forall k v, In (k, v) health -> mapping k <> None).
  { intros k v Hin. destruct (Hsig k v Hin) as [[i [Hi _]] _]. congruence. }
  apply eq_true_iff_eq. rewrite !existsb_exists. split.
  - intros [e' [Hin' Hrow]]. apply in_map_iff in Hin' as [e [<- Hin]].
    destruct (existsb (fun kv => el_id e =? dotId pm (fst kv)) health) eqn:Ex.
    + apply existsb_exists in Ex as [[k v] [Hkv E]]. simpl in E.
      apply String.eqb_eq in E.
      rewrite (restyle_addressed health e k v Hnd Hkn Hkv E) in Hrow.
      exists (k, v); split; [exact Hkv|]. simpl.
      destruct (Hsig k v Hkv) as [_ Hv].
      rewrite <- (dot_class_has c v e Hv Hc). exact Hrow.
    + assert (Hun : forall k v, In (k, v) health -> dotId pm k <> el_id e).
      { intros k v Hkv E.
        assert (existsb (fun kv => el_id e =? dotId pm (fst kv)) health = true) as Ht.
        { apply existsb_exists. exists (k, v); split; [exact Hkv|].
          simpl. rewrite E. apply String.eqb_refl. }
        congruence. }
      rewrite (restyle_unaddressed pm health e Hun) in Hrow.
      unfold row_has in Hrow. apply andb_prop in Hrow as [Hs Hcl].
      apply classList_contains_in in Hs. apply classList_contains_in in Hcl.
      exfalso. destruct (Hcov e Hin Hs) as [Hred Hyellow].
      { intros [k [v [Hkv Hm]]]. apply (Hun k v Hkv). apply dotId_known. exact Hm. }
      destruct Hc as [-> | ->]; contradiction.
  - intros [[k v] [Hkv E]]. simpl in E.
    destruct (Hsig k v Hkv) as [[i [Hi Hin]] Hv].
    apply in_map_iff in Hin as [e [Hid He]].
    exists (restyle pm health e). split; [now apply in_map|].
    rewrite (restyle_addressed health e k v Hnd Hkn Hkv)
      by (rewrite Hid; symmetry; apply dotId_known; exact Hi).
    rewrite <- (dot_class_has c v e Hv Hc) in E. exact E.
Qed.

End SignalFacts.

Lemma map_restyle_ids pm health d :
  map el_id (map (restyle pm health) d) = map el_id d.
Proof. rewrite map_map. apply map_ext. intros e; apply restyle_id. Qed.

Lemma three_levels_valid v :
  v = "green" \/ v = "yellow" \/ v = "red" -> valid_status v.
Proof. intros [-> | [-> | ->]]; [left | right | right]; reflexivity. Qed.

(** C1 (as amended). The master status follows the precedence red, yellow,
    green over the signals of the set, whenever the set reaches its row dots
    and the other row dots raise no alarm: for a signal set with distinct
    known source names, each with its dot on the page and a level among
    green, yellow and red, on a page with distinct ids, a master light that
    is no row dot and a status text, on which every row dot the set does not
    name shows neither red nor yellow, the update returns normally and the
    master light and text show red and "System Offline" if any signal is
    red, else yellow and "Syncing Data..." if any is yellow, else the green
    state (class [active]) and "Live Model Connected" - the empty set
    included. *)
Theorem master_status_precedence
    (pm : string -> option string) (health : signal_set) (d : document) :
  NoDup (map el_id d) ->
  NoDup (map fst health) ->
  In "master-status-light" (map el_id d) ->
  In "status-text" (map el_id d) ->
  (forall k v, In (k, v) health ->
     (exists i, mapping k = Some i /\ In i (map el_id d))
     /\ (v = "green" \/ v = "yellow" \/ v = "red")) ->
  (forall e, In e d -> el_id e = "master-status-light" ->
     ~ In "status-row-dot" (el_class e)) ->
  (forall e, In e d -> In "status-row-dot" (el_class e) ->
     ~ named_by health e ->
     ~ In "red" (el_class e) /\ ~ In "yellow" (el_class e)) ->
  exists d',
    updateStatusUI pm health d = (Ok tt, d')
    /\ master_status d'
       = (Some ["status-dot"; fst (spec_aggregate health)],
          Some (snd (spec_aggregate health))).
Proof.
  intros Hd Hnd Hml Hst Hsig Hlight Hcov.
  rewrite updateStatusUI_valid
    by (intros k v Hin; apply three_levels_valid; exact (proj2 (Hsig k v Hin))).
  eexists; split; [reflexivity|].
  rewrite loop_page_map by exact Hd.
  set (d1 := map (restyle pm health) d).
  assert (Hids : map el_id d1 = map el_id d) by apply map_restyle_ids.
  assert (Hd1 : NoDup (map el_id d1)) by (rewrite Hids; exact Hd).
  assert (Hml1 : forall e, In e d1 -> el_id e = "master-status-light" ->
                           classList_contains "status-row-dot" e = false).
  { intros e1 Hin1 Hid1. apply in_map_iff in Hin1 as [e [<- Hin]].
    rewrite restyle_id in Hid1.
    rewrite restyle_unaddressed.
    - destruct (classList_contains "status-row-dot" e) eqn:Ec; [|reflexivity].
      apply classList_contains_in in Ec. now elim (Hlight e Hin Hid1).
    - intros k v Hkv E. destruct (Hsig k v Hkv) as [[i [Hi _]] _].
      rewrite (dotId_known pm k i Hi), Hid1 in E.
      destruct (mapping_not_master k i Hi) as [F _]. contradiction. }
  rewrite masterPage_idem by assumption.
  unfold masterPage.
  assert (Hml' : In "master-status-light" (map el_id d1)) by (rewrite Hids; exact Hml).
  destruct (getElementById_in _ _ Hml') as [l El]. rewrite El.
  rewrite master_status_write by (rewrite Hids; assumption).
  rewrite rowFlags_page. unfold d1.
  rewrite !(row_has_signals pm _ health d) by (auto; assumption).
  unfold verdict, spec_aggregate.
  destruct (existsb (fun kv => snd kv =? "red") health);
    [|destruct (existsb (fun kv => snd kv =? "yellow") health)]; reflexivity.
Qed.

(** On the page of five green dots the set [{a: green, b: red}] leaves the
    master status green, where the aggregation of the specification says red. *)
Lemma red_signal_under_unknown_name_shows_green :
  spec_aggregate [("a", "green"); ("b", "red")] = ("red", "System Offline")
  /\ master_status
       (snd (updateStatusUI no_proto [("a", "green"); ("b", "red")] board_page))
     = (Some ["status-dot"; "active"], Some "Live Model Connected").
Proof. split; reflexivity. Qed.

Ltac nodup_strings :=
  repeat (constructor; [simpl; intuition discriminate|]); constructor.

Ltac in_strings := simpl; repeat (first [left; reflexivity | right]).

(** The degraded set of a failed load on the page of five dots: the dot of
    the infrastructure source is not named and stays green. *)
Lemma master_status_precedence_witness :
  exists d',
    updateStatusUI no_proto degraded board_page = (Ok tt, d')
    /\ master_status d' = (Some ["status-dot"; "red"], Some "System Offline").
Proof.
  apply (master_status_precedence no_proto degraded board_page).
  - nodup_strings.
  - nodup_strings.
  - in_strings.
  - in_strings.
  - intros k v H; simpl in H.
    repeat (destruct H as [H|H]; [inversion H; subst; split;
      [eexists; split; [reflexivity | in_strings] | tauto]|]).
    contradiction.
  - intros e H Hid; simpl in H.
    repeat (destruct H as [H|H]; [subst e; simpl; intuition discriminate|]).
    contradiction.
  - intros e H Hc _; simpl in H.
    repeat (destruct H as [H|H]; [subst e; simpl; intuition discriminate|]).
    contradiction.
Defined.

(** ** Earlier status updates *)

Lemma Forall2_modify_by_id (R : element -> element -> Prop) i f d0 d :
  Forall2 R d0 d ->
  (forall e0 e, R e0 e -> el_id e = i -> R e0 (f e)) ->
  Forall2 R d0 (modify_by_id i f d).
Proof.
  intros H Hf; induction H as [|e0 e d0 d Hr H IH]; simpl; [constructor|].
  destruct (String.eqb_spec (el_id e) i) as [E|E]; constructor; auto.
Qed.

Lemma drifted_ids dots P d0 d :
  Forall2 (drifted dots P) d0 d -> map el_id d = map el_id d0.
Proof.
  induction 1 as [|e0 e d0 d [Hid _] H IH]; simpl; [reflexivity|].
  now rewrite Hid, IH.
Qed.

Lemma drifted_refl dots P d : Forall2 (drifted dots P) d d.
Proof.
  induction d as [|e d IH]; constructor; [|exact IH].
  repeat split; auto.
Qed.

Section DriftFacts.

Variable pm : string -> option string.
Variable dots : list string.
Variable d0 : document.

Local Abbreviation light := (In "master-status-light" (map el_id d0)).
Local Abbreviation drift := (Forall2 (drifted dots light) d0).

Lemma drift_dot i cl d :
  drift d -> In i dots ->
  drift (modify_by_id i (set_class cl) d).
Proof.
  intros H Hi. apply Forall2_modify_by_id; [exact H|].
  intros e0 e [Hid [_ Ht]] E. repeat split; simpl.
  - exact Hid.
  - right; left. rewrite <- Hid, E. exact Hi.
  - exact Ht.
Qed.

Lemma drift_statusEntry k v d :
  drift d -> In (dotId pm k) dots -> drift (snd (statusEntry pm (k, v) d)).
Proof.
  intros H Hk. rewrite statusEntry_run.
  destruct (getElementById (dotId pm k) d); [|exact H].
  destruct (v =? "green"); [|destruct (token_error v)]; simpl;
    apply drift_dot; assumption.
Qed.

Lemma drift_statusLoop health d :
  drift d -> incl (dots_of pm health) dots ->
  drift (snd (JS.forEach health (statusEntry pm) d)).
Proof.
  revert d; induction health as [|[k v] health IH]; intros d H Hinc; [exact H|].
  rewrite forEach_cons.
  assert (Hk : In (dotId pm k) dots) by (apply Hinc; now left).
  pose proof (drift_statusEntry k v d H Hk) as Hs.
  destruct (statusEntry pm (k, v) d) as [[u|e] d']; simpl in Hs; [|exact Hs].
  apply IH; [exact Hs|]. intros x Hx; apply Hinc; now right.
Qed.

Lemma drift_masterPage d : drift d -> drift (masterPage d).
Proof.
  intros H. unfold masterPage.
  destruct (getElementById "master-status-light" d) as [l|] eqn:El; [|exact H].
  assert (Hl : light).
  { unfold light. rewrite <- (drifted_ids _ _ _ _ H).
    destruct (getElementById_some _ _ _ El) as [H1 H2].
    rewrite <- H2. now apply in_map. }
  unfold master_write.
  apply Forall2_modify_by_id; [apply Forall2_modify_by_id; [exact H|]|].
  - intros e0 e [Hid [_ Ht]] E. repeat split; simpl; [exact Hid| |exact Ht].
    right; right. split; [now rewrite <- Hid|].
    destruct (verdict_light (rowFlags (querySelectorAll "status-row-dot" d)))
      as [-> | [-> | ->]]; reflexivity.
  - intros e0 e [Hid [Hc _]] E. repeat split; simpl; [exact Hid|exact Hc|].
    right. split; [now rewrite <- Hid | exact Hl].
Qed.

Lemma drift_updateStatusUI health d :
  drift d -> incl (dots_of pm health) dots ->
  drift (snd (updateStatusUI pm health d)).
Proof.
  intros H Hinc. unfold updateStatusUI, originalUpdateStatusUI, JS.bind.
  pose proof (drift_statusLoop health d H Hinc) as Hs.
  destruct (JS.forEach health (statusEntry pm) d) as [[u|e] d1]; simpl in Hs;
    [|exact Hs].
  rewrite !updateMasterStatus_run. simpl.
  now apply drift_masterPage, drift_masterPage.
Qed.

Lemma drift_replay earlier d :
  drift d ->
  (forall health, In health earlier -> incl (dots_of pm health) dots) ->
  drift (replay pm earlier d).
Proof.
  revert d; induction earlier as [|health earlier IH]; intros d H Hinc; [exact H|].
  simpl. apply IH.
  - apply drift_updateStatusUI; [exact H | apply Hinc; now left].
  - intros h' Hh'; apply Hinc; now right.
Qed.

End DriftFacts.

(** ** Pages that differ only where the current set writes *)

Lemma restyle_class_congr pm health e e' :
  el_id e = el_id e' ->
  el_class e = el_class e' \/ In (el_id e) (dots_of pm health) ->
  el_class (restyle pm health e) = el_class (restyle pm health e').
Proof.
  revert e e'; induction health as [|[k v] health IH]; intros e e' Hid H.
  - destruct H as [H|[]]. exact H.
  - simpl. rewrite Hid. simpl fst; simpl snd.
    destruct (String.eqb_spec (el_id e') (dotId pm k)) as [E|E].
    + apply IH; [exact Hid | left; reflexivity].
    + apply IH; [exact Hid|]. destruct H as [H|[H|H]]; auto.
      simpl in H. rewrite Hid in H. congruence.
Qed.

Lemma restyle_off_dots pm health e :
  ~ In (el_id e) (dots_of pm health) -> restyle pm health e = e.
Proof.
  intros H. apply restyle_unaddressed. intros k v Hkv E. apply H.
  rewrite <- E. unfold dots_of.
  change (dotId pm k) with ((fun kv => dotId pm (fst kv)) (k, v)). now apply in_map.
Qed.

Lemma contains_class_eq cls e e' :
  el_class e = el_class e' -> classList_contains cls e = classList_contains cls e'.
Proof. unfold classList_contains; now intros ->. Qed.

Lemma same_board_after_loop pm health (light : Prop) e0 e1 e2 :
  (el_id e0 = "master-status-light" ->
   classList_contains "status-row-dot" e0 = false) ->
  drifted (dots_of pm health) light e0 e1 ->
  drifted (dots_of pm health) light e0 e2 ->
  same_board light (restyle pm health e1) (restyle pm health e2).
Proof.
  intros H0 [Hid1 [Hc1 Ht1]] [Hid2 [Hc2 Ht2]].
  assert (Hid : el_id e1 = el_id e2) by congruence.
  split; [now rewrite !restyle_id|]. split.
  - destruct (in_dec string_dec (el_id e0) (dots_of pm health)) as [Hin|Hout].
    + left. apply restyle_class_congr; [exact Hid | right; now rewrite Hid1].
    + rewrite !restyle_off_dots by congruence.
      destruct Hc1 as [Hc1|[Hc1|[Hm1 Hc1]]]; [|contradiction|];
        destruct Hc2 as [Hc2|[Hc2|[Hm2 Hc2]]]; try contradiction.
      * left; congruence.
      * right. repeat split; [congruence| |exact Hc2].
        rewrite (contains_class_eq _ e1 e0 Hc1). exact (H0 Hm2).
      * right. repeat split; [congruence|exact Hc1|].
        rewrite (contains_class_eq _ e2 e0 Hc2). exact (H0 Hm1).
      * right. repeat split; [congruence|exact Hc1|exact Hc2].
  - rewrite !restyle_text, restyle_id.
    destruct Ht1 as [Ht1|[Hs Hl]]; [|right; split; [congruence|exact Hl]].
    destruct Ht2 as [Ht2|[Hs Hl]]; [|right; split; [congruence|exact Hl]].
    left; congruence.
Qed.

Lemma same_board_ids P p1 p2 :
  Forall2 (same_board P) p1 p2 -> map el_id p1 = map el_id p2.
Proof.
  induction 1 as [|e1 e2 p1 p2 [Hid _] H IH]; simpl; [reflexivity|].
  now rewrite Hid, IH.
Qed.

Lemma same_board_row_has c P p1 p2 :
  Forall2 (same_board P) p1 p2 ->
  existsb (row_has c) p1 = existsb (row_has c) p2.
Proof.
  induction 1 as [|e1 e2 p1 p2 [Hid [Hc _]] H IH]; simpl; [reflexivity|].
  rewrite IH. f_equal. unfold row_has.
  destruct Hc as [Hc|[_ [H1 H2]]].
  - now rewrite !(contains_class_eq _ e1 e2 Hc).
  - now rewrite H1, H2.
Qed.

Lemma same_board_master_write lt P e1 e2 :
  same_board P e1 e2 -> master_write_el lt e1 = master_write_el lt e2.
Proof.
  destruct e1 as [i c1 t1], e2 as [i2 c2 t2]. intros [Hid [Hc Ht]]. simpl in *.
  subst i2. unfold master_write_el, set_class, set_text; simpl.
  destruct (String.eqb_spec i "master-status-light") as [E|E]; simpl.
  - subst i. simpl. destruct Ht as [->|[F _]]; [reflexivity | discriminate].
  - destruct Hc as [->|[F _]]; [|contradiction].
    destruct (String.eqb_spec i "status-text") as [E'|E']; [reflexivity|].
    destruct Ht as [->|[F _]]; [reflexivity | contradiction].
Qed.

Lemma Forall2_map_eq {A B} (R : A -> A -> Prop) (f : A -> B) l1 l2 :
  Forall2 R l1 l2 -> (forall x y, In x l1 -> R x y -> f x = f y) ->
  map f l1 = map f l2.
Proof.
  intros H Hf; induction H as [|x y l1 l2 Hr H IH]; simpl; [reflexivity|].
  rewrite (Hf x y) by (auto; now left). rewrite IH; [reflexivity|].
  intros x' y' Hin; apply Hf; now right.
Qed.

Lemma masterPage_congr (P : Prop) p1 p2 :
  NoDup (map el_id p1) ->
  (P -> In "master-status-light" (map el_id p1)) ->
  Forall2 (same_board P) p1 p2 ->
  masterPage p1 = masterPage p2.
Proof.
  intros Hd HP H.
  pose proof (same_board_ids P p1 p2 H) as Hids.
  unfold masterPage. rewrite !rowFlags_page.
  rewrite !(same_board_row_has _ P p1 p2 H).
  destruct (getElementById "master-status-light" p1) as [l|] eqn:El.
  - assert (In "master-status-light" (map el_id p2)) as Hin.
    { rewrite <- Hids. destruct (getElementById_some _ _ _ El) as [H1 H2].
      rewrite <- H2. now apply in_map. }
    destruct (getElementById_in _ _ Hin) as [l' ->].
    rewrite !master_write_map by (rewrite <- ?Hids; exact Hd).
    apply (Forall2_map_eq _ _ _ _ H). intros x y _. apply same_board_master_write.
  - apply getElementById_none in El.
    assert (getElementById "master-status-light" p2 = None) as ->
      by (apply getElementById_none; rewrite <- Hids; exact El).
    rewrite <- (map_id p1), <- (map_id p2).
    apply (Forall2_map_eq _ _ _ _ H).
    intros [i c1 t1] [i2 c2 t2] Hin [Hid [Hc Ht]]. simpl in *. subst i2.
    destruct Hc as [->|[Hm _]].
    + destruct Ht as [->|[_ F]]; [reflexivity | exfalso; exact (El (HP F))].
    + exfalso. apply El. rewrite <- Hm.
      change i with (el_id {| el_id := i; el_class := c1; el_text := t1 |}).
      now apply in_map.
Qed.

Lemma Forall2_join {A B} (R : A -> A -> Prop) (Q : B -> B -> Prop) (f : A -> B) l0 l1 l2 :
  Forall2 R l0 l1 -> Forall2 R l0 l2 ->
  (forall x0 x1 x2, In x0 l0 -> R x0 x1 -> R x0 x2 -> Q (f x1) (f x2)) ->
  Forall2 Q (map f l1) (map f l2).
Proof.
  intros H1; revert l2; induction H1 as [|x0 x1 l0 l1 Hr H1 IH]; intros l2 H2 HQ;
    inversion H2; subst; simpl; constructor.
  - apply (HQ x0); [now left | assumption | assumption].
  - apply IH; [assumption|]. intros y0 y1 y2 Hin; apply HQ; now right.
Qed.

Lemma dots_of_incl pm (h health : signal_set) :
  (forall k v, In (k, v) h -> In k (map fst health)) ->
  incl (dots_of pm h) (dots_of pm health).
Proof.
  intros H x Hx. unfold dots_of in *.
  apply in_map_iff in Hx as [[k v] [<- Hkv]]. simpl.
  apply H in Hkv. apply in_map_iff in Hkv as [[k' v'] [E Hin]]. simpl in E; subst k'.
  change (dotId pm k) with ((fun kv => dotId pm (fst kv)) (k, v')). now apply in_map.
Qed.

(** C8 (as amended). The status update reads the row dots of the page, and a
    dot keeps the class an earlier signal set gave it until a later set names
    its source: the result is not a function of the current set alone.  It is
    one when the current set names every source the earlier sets named: on
    a page with distinct ids whose master light is no row dot, two histories
    of earlier status updates (whatever their outcome) followed by the same
    signal set of accepted statuses end with the same outcome and the same
    page, hence the same master light and status text. *)
Theorem status_independent_of_named_history
    (pm : string -> option string) (d0 : document)
    (earlier1 earlier2 : list signal_set) (health : signal_set) :
  NoDup (map el_id d0) ->
  (forall e, In e d0 -> el_id e = "master-status-light" ->
             classList_contains "status-row-dot" e = false) ->
  (forall k v, In (k, v) health -> valid_status v) ->
  (forall h k v, In h (earlier1 ++ earlier2) -> In (k, v) h ->
                 In k (map fst health)) ->
  updateStatusUI pm health (replay pm earlier1 d0)
  = updateStatusUI pm health (replay pm earlier2 d0).
Proof.
  intros Hd Hml Hv Hcov.
  set (dots := dots_of pm health).
  set (light := In "master-status-light" (map el_id d0)).
  assert (D : forall earlier,
             (forall h, In h earlier -> In h (earlier1 ++ earlier2)) ->
             Forall2 (drifted dots light) d0 (replay pm earlier d0)).
  { intros earlier Hin. apply drift_replay; [apply drifted_refl|].
    intros h Hh. apply dots_of_incl. intros k v Hkv.
    exact (Hcov h k v (Hin h Hh) Hkv). }
  pose proof (D earlier1 (fun h Hh => in_or_app _ _ h (or_introl Hh))) as D1.
  pose proof (D earlier2 (fun h Hh => in_or_app _ _ h (or_intror Hh))) as D2.
  pose proof (drifted_ids _ _ _ _ D1) as I1.
  pose proof (drifted_ids _ _ _ _ D2) as I2.
  rewrite !updateStatusUI_valid by exact Hv.
  rewrite !loop_page_map by (rewrite ?I1, ?I2; exact Hd).
  do 2 f_equal.
  apply (masterPage_congr light).
  - rewrite map_restyle_ids, I1. exact Hd.
  - intros Hl. rewrite map_restyle_ids, I1. exact Hl.
  - apply (Forall2_join _ _ _ _ _ _ D1 D2).
    intros e0 e1 e2 Hin H1 H2.
    apply (same_board_after_loop pm health light e0); [|exact H1|exact H2].
    intros E; exact (Hml e0 Hin E).
Qed.

(** After the degraded set of a failed load, the set [{maritime: green}]
    shows red and "System Offline"; on the fresh page the same set shows the
    green state. *)
Lemma same_signals_different_status :
  master_status
    (snd (updateStatusUI no_proto [("maritime", "green")]
            (replay no_proto [degraded] board_page)))
  = (Some ["status-dot"; "red"], Some "System Offline")
  /\ master_status
       (snd (updateStatusUI no_proto [("maritime", "green")]
               (replay no_proto [] board_page)))
     = (Some ["status-dot"; "active"], Some "Live Model Connected").
Proof. split; reflexivity. Qed.

Lemma status_independent_of_named_history_witness :
  updateStatusUI no_proto
    [("maritime", "green"); ("us_data", "green"); ("canada_data", "yellow");
     ("integrity", "green")]
    (replay no_proto [degraded] board_page)
  = updateStatusUI no_proto
      [("maritime", "green"); ("us_data", "green"); ("canada_data", "yellow");
       ("integrity", "green")]
      (replay no_proto [] board_page).
Proof.
  apply (status_independent_of_named_history no_proto board_page [degraded] []).
  - nodup_strings.
  - intros e H E; simpl in H.
    repeat (destruct H as [H|H]; [subst e; first [reflexivity | discriminate E]|]).
    contradiction.
  - intros k v H; simpl in H.
    repeat (destruct H as [H|H]; [inversion H; subst; first [now left | now right]|]).
    contradiction.
  - intros h k v H Hkv; simpl in H. destruct H as [<-|[]]. simpl in Hkv.
    repeat (destruct Hkv as [Hkv|Hkv]; [inversion Hkv; subst; in_strings|]).
    contradiction.
Defined.

(** ** Risk classes *)

Lemma SFcompare_antisym x y c :
  SFcompare x y = Some c -> SFcompare y x = Some (CompOpp c).
Proof.
  destruct x as [s1|s1| |s1 m1 e1], y as [s2|s2| |s2 m2 e2]; simpl;
    try discriminate; intros H; inversion H; subst; clear H;
    try (destruct s1; reflexivity); try (destruct s2; reflexivity);
    try (destruct s1, s2; reflexivity).
  rewrite (Z.compare_antisym e1 e2).
  change (PosDef.Pos.compare_cont Eq m2 m1) with (Pos.compare m2 m1).
  change (PosDef.Pos.compare_cont Eq m1 m2) with (Pos.compare m1 m2).
  rewrite (Pos.compare_antisym m1 m2).
  destruct s1, s2; try reflexivity;
    destruct (e1 ?= e2)%Z; simpl; try reflexivity;
    destruct (m1 ?= m2)%positive; reflexivity.
Qed.

(** [x <= y] excludes [y < x]. *)
Lemma leb_excludes_ltb x y : (x <=? y)%float = true -> (y <? x)%float = false.
Proof.
  rewrite leb_spec, ltb_spec. unfold SFleb, SFltb.
  destruct (SFcompare (Prim2SF x) (Prim2SF y)) as [c|] eqn:E; [|discriminate].
  rewrite (SFcompare_antisym _ _ _ E). destruct c; simpl; congruence.
Qed.

(** Among numbers (no NaN), not [c < s] is [s <= c]. *)
Lemma not_ltb_is_leb z c s :
  (z <=? s)%float = true -> (c <=? c)%float = true ->
  (c <? s)%float = false -> (s <=? c)%float = true.
Proof.
  rewrite !leb_spec, ltb_spec. unfold SFleb, SFltb. intros Hs Hc.
  destruct (SFcompare (Prim2SF c) (Prim2SF s)) as [x|] eqn:E.
  - rewrite (SFcompare_antisym _ _ _ E). destruct x; simpl; congruence.
  - exfalso. destruct (Prim2SF c), (Prim2SF s), (Prim2SF z); simpl in *; discriminate.
Qed.

(** A score above 0.8 is above 0.5: the two literals as binary64 numbers. *)
Lemma above_high_above_medium s :
  (0.8 <? s)%float = true -> (0.5 <? s)%float = true.
Proof.
  rewrite !ltb_spec.
  set (a := Prim2SF 0.8). vm_compute in a. set (b := Prim2SF 0.5). vm_compute in b.
  subst a b. unfold SFltb, SFcompare.
  destruct (Prim2SF s) as [sg|sg| |sg m e]; try discriminate.
  - destruct sg; auto.
  - destruct sg; try discriminate.
    destruct (-53 ?= e)%Z; try discriminate; auto.
    change (PosDef.Pos.compare_cont Eq) with Pos.compare.
    destruct (Pos.compare_spec 7205759403792794%positive m) as [E|E|E]; try discriminate.
    intros _.
    destruct (Pos.compare_spec 4503599627370496%positive m) as [E'|E'|E']; [| reflexivity |].
    + subst m. vm_compute in E. discriminate E.
    + exfalso. apply (Pos.lt_irrefl m).
      apply (Pos.lt_trans _ 4503599627370496%positive); [exact E'|].
      apply (Pos.lt_trans _ 7205759403792794%positive); [reflexivity | exact E].
Qed.

(** C3. For a region whose risk score [s] lies in [0,1], the colour of the
    polygon ([getStyle], with its pulse class) and of the side-panel score
    use the cut-points 0.5 and 0.8 with strict comparisons: [s > 0.8] is high,
    [0.5 < s <= 0.8] is medium, [s <= 0.5] is low; the three cases cover every
    score; 0.5 itself is low and 0.8 itself is medium. *)
Theorem risk_cutpoints (props : properties) :
  (0 <=? risk_score props)%float = true ->
  (risk_score props <=? 1)%float = true ->
  let s := risk_score props in
  let st := getStyle props in
  ((0.8 <? s)%float = true ->
     color st = CONFIG.riskHigh /\ fillColor st = CONFIG.riskHigh
     /\ className st = "risk-polygon-high" /\ scoreColor props = CONFIG.riskHigh)
  /\ ((0.5 <? s)%float = true -> (s <=? 0.8)%float = true ->
     color st = CONFIG.riskMed /\ fillColor st = CONFIG.riskMed
     /\ className st = "" /\ scoreColor props = CONFIG.riskMed)
  /\ ((s <=? 0.5)%float = true ->
     color st = CONFIG.riskLow /\ fillColor st = CONFIG.riskLow
     /\ className st = "" /\ scoreColor props = CONFIG.riskLow)
  /\ ((0.8 <? s)%float = true
      \/ ((0.5 <? s)%float = true /\ (s <=? 0.8)%float = true)
      \/ (s <=? 0.5)%float = true)
  /\ (s = 0.5%float -> color st = CONFIG.riskLow /\ scoreColor props = CONFIG.riskLow)
  /\ (s = 0.8%float -> color st = CONFIG.riskMed /\ scoreColor props = CONFIG.riskMed).
Proof.
  intros H0 H1 s st. subst st. unfold getStyle, scoreColor. fold s. simpl.
  assert (Low : (s <=? 0.5)%float = true ->
                (0.5 <? s)%float = false /\ (0.8 <? s)%float = false).
  { intros Hl. pose proof (leb_excludes_ltb _ _ Hl) as Hm. split; [exact Hm|].
    destruct (0.8 <? s)%float eqn:Hh; [|reflexivity].
    rewrite (above_high_above_medium s Hh) in Hm. discriminate Hm. }
  split; [|split; [|split; [|split; [|split]]]].
  - intros Hh. rewrite Hh. auto.
  - intros Hm Hh. apply leb_excludes_ltb in Hh. rewrite Hh, Hm. auto.
  - intros Hl. destruct (Low Hl) as [-> ->]. auto.
  - destruct (0.8 <? s)%float eqn:Hh; [now left|right].
    destruct (0.5 <? s)%float eqn:Hm.
    + left. split; [reflexivity|].
      apply (not_ltb_is_leb 0 0.8 s); [exact H0 | reflexivity | exact Hh].
    + right. apply (not_ltb_is_leb 0 0.5 s); [exact H0 | reflexivity | exact Hm].
  - intros ->. split; reflexivity.
  - intros ->. split; reflexivity.
Qed.

Lemma risk_cutpoints_witness :
  color (getStyle (sample_properties 0.81)) = CONFIG.riskHigh
  /\ color (getStyle (sample_properties 0.8)) = CONFIG.riskMed
  /\ color (getStyle (sample_properties 0.51)) = CONFIG.riskMed
  /\ color (getStyle (sample_properties 0.5)) = CONFIG.riskLow.
Proof.
  split; [|split; [|split]].
  - destruct (risk_cutpoints (sample_properties 0.81) eq_refl eq_refl) as (H & _).
    apply H; reflexivity.
  - destruct (risk_cutpoints (sample_properties 0.8) eq_refl eq_refl) as (_ & H & _).
    apply H; reflexivity.
  - destruct (risk_cutpoints (sample_properties 0.51) eq_refl eq_refl) as (_ & H & _).
    apply H; reflexivity.
  - destruct (risk_cutpoints (sample_properties 0.5) eq_refl eq_refl) as (_ & _ & H & _).
    apply H; reflexivity.
Defined.

(** ** Grid references *)

Lemma append_length (a b : string) :
  String.length (a ++ b) = String.length a + String.length b.
Proof. induction a as [|c a IH]; simpl; [reflexivity | now rewrite IH]. Qed.

Lemma append_assoc (a b c : string) : (a ++ b) ++ c = a ++ (b ++ c).
Proof. induction a as [|x a IH]; simpl; [reflexivity | now rewrite IH]. Qed.

(** The class of the scan is the class of the pattern: the word characters
    and the hyphen. *)
Lemma is_ref_char_table c :
  GridRef.is_ref_char c
  = existsb (Ascii.eqb c) (list_ascii_of_string word_characters ++ ["-"%char]).
Proof. destruct c as [[] [] [] [] [] [] [] []]; reflexivity. Qed.

Lemma token_char_iff c : token_char c <-> GridRef.is_ref_char c = true.
Proof.
  rewrite is_ref_char_table, existsb_exists. unfold token_char. split.
  - intros [H | ->].
    + exists c. split; [apply in_or_app; now left | apply Ascii.eqb_refl].
    + exists "-"%char. split; [apply in_or_app; right; now left | reflexivity].
  - intros [x [Hin E]]. apply Ascii.eqb_eq in E. subst x.
    apply in_app_or in Hin as [H | [H | []]]; [now left | now right].
Qed.

Lemma not_token_char_iff c : ~ token_char c <-> GridRef.is_ref_char c = false.
Proof.
  rewrite token_char_iff. destruct (GridRef.is_ref_char c); split; intros H.
  - now elim H.
  - discriminate H.
  - reflexivity.
  - discriminate.
Qed.

Lemma token_chars_iff w : token_chars w <-> all_ref w = true.
Proof.
  induction w as [|c w IH]; simpl; [tauto|].
  rewrite andb_true_iff, token_char_iff, IH. tauto.
Qed.

Lemma after_prefix_spec p s r :
  GridRef.after_prefix p s = Some r <-> s = p ++ r.
Proof.
  revert s; induction p as [|a p IH]; intros s; simpl.
  - split; [now intros [= ->] | now intros ->].
  - destruct s as [|b s]; [split; discriminate|].
    destruct (Ascii.eqb_spec a b) as [->|E].
    + rewrite IH. split; [now intros -> | now intros [= ->]].
    + split; [discriminate | intros [= E' _]; now elim E].
Qed.

Lemma span_ref_spec s run tl :
  GridRef.span_ref s = (run, tl) ->
  s = run ++ tl /\ all_ref run = true /\ stops tl.
Proof.
  revert run tl; induction s as [|c s IH]; intros run tl; simpl.
  - intros [= <- <-]. repeat split.
  - destruct (GridRef.is_ref_char c) eqn:E.
    + destruct (GridRef.span_ref s) as [run' tl'].
      intros [= <- <-]. destruct (IH run' tl' eq_refl) as [-> [Ha Hs]].
      simpl. rewrite E, Ha. repeat split. exact Hs.
    + intros [= <- <-]. split; [reflexivity|]. split; [reflexivity|].
      simpl. now apply not_token_char_iff.
Qed.

(** A run of class characters that stops is the run the greedy class finds. *)
Lemma span_ref_complete run tl :
  all_ref run = true -> stops tl -> GridRef.span_ref (run ++ tl) = (run, tl).
Proof.
  induction run as [|c run IH]; simpl; intros Ha Hs.
  - destruct tl as [|c tl]; [reflexivity|]. simpl in *.
    apply not_token_char_iff in Hs. now rewrite Hs.
  - apply andb_prop in Ha as [Hc Ha]. rewrite Hc, (IH Ha Hs). reflexivity.
Qed.

(** A run of class characters is a prefix of the greedy run. *)
Lemma span_ref_prefix w tl :
  all_ref w = true ->
  exists more tl', GridRef.span_ref (w ++ tl) = (w ++ more, tl').
Proof.
  induction w as [|c w IH]; simpl; intros Ha.
  - destruct (GridRef.span_ref tl) as [run tl'] eqn:E. now exists run, tl'.
  - apply andb_prop in Ha as [Hc Ha]. rewrite Hc.
    destruct (IH Ha) as [more [tl' ->]]. now exists more, tl'.
Qed.

Lemma match_here_some s tok tl :
  GridRef.match_here s = Some (tok, tl) ->
  ref_token tok /\ s = tok ++ tl /\ stops tl.
Proof.
  unfold GridRef.match_here.
  destruct (GridRef.after_prefix "grid-" s) as [rest|] eqn:Ep; [|discriminate].
  apply after_prefix_spec in Ep.
  destruct (GridRef.span_ref rest) as [run tl'] eqn:Es.
  apply span_ref_spec in Es as [-> [Ha Hs]].
  destruct run as [|c run]; [discriminate|]. intros [= <- <-].
  split; [|split].
  - exists (String c run). split; [discriminate|].
    split; [now apply token_chars_iff | reflexivity].
  - rewrite Ep. reflexivity.
  - exact Hs.
Qed.

Lemma match_here_none s :
  GridRef.match_here s = None <-> ~ starts_ref s.
Proof.
  split.
  - intros Hn [t [tl [[w [Hw [Ha ->]]] ->]]]. apply token_chars_iff in Ha.
    unfold GridRef.match_here in Hn.
    assert (Ep : GridRef.after_prefix "grid-" (("grid-" ++ w) ++ tl) = Some (w ++ tl))
      by (apply after_prefix_spec; now rewrite append_assoc).
    rewrite Ep in Hn.
    destruct (span_ref_prefix w tl Ha) as [more [tl' Es]]. rewrite Es in Hn.
    destruct w as [|c w]; [now elim Hw | discriminate Hn].
  - intros Hn. destruct (GridRef.match_here s) as [[tok tl]|] eqn:E; [|reflexivity].
    exfalso. apply Hn. apply match_here_some in E as [Ht [-> _]]. now exists tok, tl.
Qed.

(** The match at a position is the longest token there. *)
Lemma match_here_take tok tl :
  ref_token tok -> stops tl -> GridRef.match_here (tok ++ tl) = Some (tok, tl).
Proof.
  intros [w [Hw [Ha ->]]] Hs. apply token_chars_iff in Ha.
  unfold GridRef.match_here.
  assert (Ep : GridRef.after_prefix "grid-" (("grid-" ++ w) ++ tl) = Some (w ++ tl))
    by (apply after_prefix_spec; now rewrite append_assoc).
  rewrite Ep, (span_ref_complete w tl Ha Hs).
  destruct w as [|c w]; [now elim Hw | reflexivity].
Qed.

(** More fuel than the length changes nothing. *)
Lemma scan_enough n s :
  String.length s <= n -> GridRef.scan n s = GridRef.pieces s.
Proof.
  unfold GridRef.pieces.
  remember (String.length s) as len eqn:El.
  revert n s El. induction len as [len IH] using lt_wf_ind. intros n s El Hn.
  destruct s as [|c s]; [destruct n; simpl in El; subst; reflexivity|].
  simpl in El. destruct n as [|n]; [lia|]. subst len. simpl.
  destruct (GridRef.match_here (String c s)) as [[tok tl]|] eqn:E.
  - apply match_here_some in E as [[w [Hw [_ ->]]] [Es _]].
    assert (Hl : String.length tl < S (String.length s)).
    { change (S (String.length s)) with (String.length (String c s)).
      rewrite Es, !append_length. simpl. lia. }
    f_equal.
    rewrite (IH (String.length tl) Hl n tl eq_refl) by lia.
    rewrite (IH (String.length tl) Hl (String.length s) tl eq_refl) by lia.
    reflexivity.
  - f_equal. apply (IH (String.length s)); [lia | reflexivity | lia].
Qed.

(** The scan, one position at a time. *)
Lemma pieces_step c s :
  GridRef.pieces (String c s) =
  match GridRef.match_here (String c s) with
  | Some (tok, tl) => GridRef.Ref tok :: GridRef.pieces tl
  | None => GridRef.Lit c :: GridRef.pieces s
  end.
Proof.
  unfold GridRef.pieces at 1. simpl.
  destruct (GridRef.match_here (String c s)) as [[tok tl]|] eqn:E.
  - apply match_here_some in E as [[w [Hw [_ ->]]] [Es _]].
    rewrite scan_enough; [reflexivity|].
    assert (String.length (String c s) = String.length (("grid-" ++ w) ++ tl))
      by now rewrite Es.
    rewrite !append_length in H. simpl in H. lia.
  - reflexivity.
Qed.

Lemma tokens_step c s :
  GridRef.tokens (String c s) =
  match GridRef.match_here (String c s) with
  | Some (tok, tl) => tok :: GridRef.tokens tl
  | None => GridRef.tokens s
  end.
Proof.
  unfold GridRef.tokens. rewrite pieces_step.
  destruct (GridRef.match_here (String c s)) as [[tok tl]|]; reflexivity.
Qed.

(** The replace, one position at a time. *)
Lemma enrich_step c s :
  GridRef.enrich (String c s) =
  match GridRef.match_here (String c s) with
  | Some (tok, tl) => GridRef.grid_link tok ++ GridRef.enrich tl
  | None => String c (GridRef.enrich s)
  end.
Proof.
  unfold GridRef.enrich. rewrite pieces_step.
  destruct (GridRef.match_here (String c s)) as [[tok tl]|]; reflexivity.
Qed.

(** What a match leaves is shorter than what it was tried on. *)
Lemma match_here_shorter s tok tl :
  GridRef.match_here s = Some (tok, tl) -> String.length tl < String.length s.
Proof.
  intros E. apply match_here_some in E as [[w [_ [_ ->]]] [-> _]].
  rewrite !append_length. simpl. lia.
Qed.

(** The replace reads the detail as the specification does. *)
Lemma enrich_marked s : Marked s (GridRef.tokens s) (GridRef.enrich s).
Proof.
  remember (String.length s) as len eqn:El.
  revert s El. induction len as [len IH] using lt_wf_ind. intros s El.
  destruct s as [|c s]; [constructor|].
  rewrite tokens_step, enrich_step.
  destruct (GridRef.match_here (String c s)) as [[tok tl]|] eqn:E.
  - pose proof (match_here_some _ _ _ E) as [Ht [Es Hs]].
    pose proof (match_here_shorter _ _ _ E) as Hl.
    rewrite Es. apply mk_take; [exact Ht | exact Hs |].
    apply (IH (String.length tl)); [subst len; exact Hl | reflexivity].
  - apply mk_skip; [now apply match_here_none|].
    apply (IH (String.length s)); [subst len; simpl; lia | reflexivity].
Qed.

Lemma marked_unique s ts shown :
  Marked s ts shown -> ts = GridRef.tokens s /\ shown = GridRef.enrich s.
Proof.
  induction 1 as [|c s ts shown Hn H [IH1 IH2]|tok tl ts shown Ht Hs H [IH1 IH2]].
  - split; reflexivity.
  - rewrite tokens_step, enrich_step. apply match_here_none in Hn.
    rewrite Hn, IH1, IH2. split; reflexivity.
  - pose proof (match_here_take tok tl Ht Hs) as E.
    destruct Ht as [w [_ [_ ->]]]. simpl in *.
    rewrite tokens_step, enrich_step, E, IH1, IH2. split; reflexivity.
Qed.

Lemma pieces_partition s : GridRef.render (fun t => t) (GridRef.pieces s) = s.
Proof.
  remember (String.length s) as len eqn:El.
  revert s El. induction len as [len IH] using lt_wf_ind. intros s El.
  destruct s as [|c s]; [reflexivity|].
  rewrite pieces_step.
  destruct (GridRef.match_here (String c s)) as [[tok tl]|] eqn:E.
  - pose proof (match_here_some _ _ _ E) as [Ht [Es Hs]].
    simpl. rewrite (IH (String.length tl)); [now rewrite Es| |reflexivity].
    subst len. rewrite Es. destruct Ht as [w [_ [_ ->]]].
    rewrite !append_length. simpl. lia.
  - simpl. rewrite (IH (String.length s)); [reflexivity | subst len; simpl; lia | reflexivity].
Qed.

Lemma no_token_unmarked s :
  (forall pre post, s = pre ++ post -> ~ starts_ref post) ->
  GridRef.tokens s = [] /\ GridRef.enrich s = s.
Proof.
  induction s as [|c s IH]; intros H; [split; reflexivity|].
  rewrite tokens_step, enrich_step.
  assert (E : GridRef.match_here (String c s) = None)
    by (apply match_here_none, (H ""); reflexivity).
  rewrite E. destruct IH as [IH1 IH2].
  { intros pre post ->. apply (H (String c pre)). reflexivity. }
  rewrite IH1, IH2. split; reflexivity.
Qed.

(** [grid-] with no class character behind it is passed over. *)
Lemma bare_prefix_unmarked tl :
  stops tl ->
  GridRef.tokens ("grid-" ++ tl) = GridRef.tokens tl
  /\ GridRef.enrich ("grid-" ++ tl) = "grid-" ++ GridRef.enrich tl.
Proof.
  intros Hs.
  assert (E : GridRef.match_here ("grid-" ++ tl) = None).
  { unfold GridRef.match_here.
    assert (Ep : GridRef.after_prefix "grid-" ("grid-" ++ tl) = Some tl)
      by now apply after_prefix_spec.
    rewrite Ep. change tl with ("" ++ tl) at 1.
    rewrite (span_ref_complete "" tl eq_refl Hs). reflexivity. }
  split.
  - change ("grid-" ++ tl) with (String "g" (String "r" (String "i" (String "d" (String "-" tl))))) in *.
    rewrite tokens_step, E. now rewrite !tokens_step.
  - change ("grid-" ++ tl) with (String "g" (String "r" (String "i" (String "d" (String "-" tl))))) in *.
    rewrite enrich_step, E. now rewrite !enrich_step.
Qed.

(** ** The feed *)

Lemma feedHtml_app before after htmlB htmlA :
  feedHtml before = Ok htmlB -> feedHtml after = Ok htmlA ->
  feedHtml (before ++ after)%list = Ok (htmlB ++ htmlA).
Proof.
  revert htmlB; induction before as [|a before IH]; intros htmlB; simpl.
  - intros [= <-] H. exact H.
  - destruct (feedEntry a) as [item|e]; [|discriminate].
    destruct (feedHtml before) as [html|e]; [|discriminate].
    intros [= <-] H. rewrite (IH html eq_refl H), append_assoc. reflexivity.
Qed.

(** C5. The feed marks in the detail text of an alert exactly its region
    reference tokens - the literal [grid-] followed by one or more word or
    hyphen characters, each as long as it can be - in the order in which
    they appear, repeated ones kept.  The successive matches of the replace
    in [updateAlertsFeed] and the text it puts in their place are those the
    left-to-right reading of the specification gives, and no others: every
    token becomes a link that hands it to [zoomToGrid] and every other
    character is shown as it is.  A detail in which no token begins anywhere
    has no match and is shown unchanged, without an error; [grid-] with no
    word or hyphen character behind it is no match and the reading goes on
    behind it.  The item of the alert with the detail so marked is what
    [updateAlertsFeed] writes to the feed, between the items of the alerts
    before and behind it. *)
Theorem grid_tokens_extracted (detail : string) :
  Marked detail (GridRef.tokens detail) (GridRef.enrich detail)
  /\ (forall ts shown, Marked detail ts shown ->
        ts = GridRef.tokens detail /\ shown = GridRef.enrich detail)
  /\ ((forall pre post, detail = pre ++ post -> ~ starts_ref post) ->
      GridRef.tokens detail = [] /\ GridRef.enrich detail = detail)
  /\ (forall tl, stops tl ->
        GridRef.tokens ("grid-" ++ tl) = GridRef.tokens tl
        /\ GridRef.enrich ("grid-" ++ tl) = "grid-" ++ GridRef.enrich tl)
  /\ (forall al shown,
        a_detail al = Some detail ->
        Marked detail (GridRef.tokens detail) shown ->
        feedEntry al = Ok (feedItem al shown)
        /\ forall before after htmlB htmlA d feed,
             feedHtml before = Ok htmlB -> feedHtml after = Ok htmlA ->
             querySelector "feed-container" d = Some feed ->
             updateAlertsFeed (before ++ al :: after)%list d
             = (Ok tt,
                modify_by_class "feed-container"
                  (set_text (htmlB ++ feedItem al shown ++ htmlA)) d)).
Proof.
  split; [apply enrich_marked|].
  split; [apply marked_unique|].
  split; [apply no_token_unmarked|].
  split; [apply bare_prefix_unmarked|].
  intros al shown Hd Hm. apply marked_unique in Hm as [_ ->].
  assert (He : feedEntry al = Ok (feedItem al (GridRef.enrich detail)))
    by (unfold feedEntry; now rewrite Hd).
  split; [exact He|].
  intros before after htmlB htmlA d feed HB HA Hq.
  assert (Hone : feedHtml (al :: after)
                 = Ok (feedItem al (GridRef.enrich detail) ++ htmlA))
    by (simpl; now rewrite He, HA).
  pose proof (feedHtml_app before (al :: after) _ _ HB Hone) as Hall.
  unfold updateAlertsFeed, JS.bind, JS.get. rewrite Hq.
  destruct (before ++ al :: after)%list as [|x l] eqn:El.
  - destruct before; discriminate El.
  - rewrite Hall. reflexivity.
Qed.

Example tokens_of_breach :
  GridRef.tokens "Breach detected near grid-042 and grid-043-can"
  = ["grid-042"; "grid-043-can"].
Proof. reflexivity. Qed.

Example tokens_repeated :
  GridRef.tokens "grid-7, grid-, grid-7." = ["grid-7"; "grid-7"].
Proof. reflexivity. Qed.

Example enrich_of_breach :
  GridRef.enrich "Breach near grid-042, grid- and grid-043-can."
  = "Breach near " ++ GridRef.grid_link "grid-042" ++ ", grid- and "
    ++ GridRef.grid_link "grid-043-can" ++ ".".
Proof. reflexivity. Qed.

(** ** The lookup of [zoomToGrid] *)

Section LookupFacts.

Variable geometry : Type.
Implicit Types (l : layer geometry) (overlay : list (layer geometry)).

Lemma findLayer_snoc gridId overlay l :
  findLayer gridId (overlay ++ [l])%list
  = if has_id gridId l then Some l else findLayer gridId overlay.
Proof.
  unfold findLayer, has_id. rewrite fold_left_app. simpl.
  destruct (regionId l) as [rid|]; [destruct (rid =? gridId)|]; reflexivity.
Qed.

Lemma findLayer_none gridId overlay :
  findLayer gridId overlay = None
  <-> forall l, In l overlay -> has_id gridId l = false.
Proof.
  induction overlay as [|l overlay IH] using rev_ind.
  - split; [intros _ l [] | reflexivity].
  - rewrite findLayer_snoc. destruct (has_id gridId l) eqn:E.
    + split; [discriminate|]. intros H.
      rewrite (H l) in E by (apply in_or_app; right; now left). discriminate.
    + rewrite IH. split.
      * intros H l' Hin. apply in_app_or in Hin as [Hin|[<-|[]]]; auto.
      * intros H l' Hin. apply H, in_or_app. now left.
Qed.

Lemma findLayer_some gridId overlay l :
  findLayer gridId overlay = Some l
  <-> exists before after,
        overlay = (before ++ l :: after)%list
        /\ has_id gridId l = true
        /\ forall l', In l' after -> has_id gridId l' = false.
Proof.
  induction overlay as [|x overlay IH] using rev_ind.
  - split; [discriminate|]. intros [before [after [E _]]].
    destruct before; discriminate.
  - rewrite findLayer_snoc. destruct (has_id gridId x) eqn:Ex.
    + split.
      * intros [= ->]. exists overlay, []. repeat split; [exact Ex | intros l' []].
      * intros [before [after [E [Hl Hafter]]]].
        destruct after as [|y after _] using rev_ind.
        -- apply app_inj_tail in E as [_ ->]. reflexivity.
        -- rewrite app_comm_cons, app_assoc in E. apply app_inj_tail in E as [_ ->].
           rewrite Hafter in Ex by (apply in_or_app; right; now left). discriminate.
    + rewrite IH. split.
      * intros [before [after [-> [Hl Hafter]]]].
        exists before, (after ++ [x])%list. repeat split.
        -- now rewrite <- app_assoc.
        -- exact Hl.
        -- intros l' Hin. apply in_app_or in Hin as [Hin|[<-|[]]]; auto.
      * intros [before [after [E [Hl Hafter]]]].
        destruct after as [|y after _] using rev_ind.
        -- apply app_inj_tail in E as [_ ->]. congruence.
        -- rewrite app_comm_cons, app_assoc in E. apply app_inj_tail in E as [-> ->].
           exists before, after. repeat split; [exact Hl|].
           intros l' Hin. apply Hafter, in_or_app. now left.
Qed.

Lemma has_id_true gridId l : has_id gridId l = true <-> regionId l = Some gridId.
Proof.
  unfold has_id. destruct (regionId l) as [rid|].
  - rewrite String.eqb_eq. split; [now intros -> | now intros [= ->]].
  - split; discriminate.
Qed.

End LookupFacts.

(** C6 (as amended). [zoomToGrid] resolves a token by comparing the whole
    token, prefix included, with the identifiers attached to the layers of
    the overlay, for strict equality (case-sensitive, nothing stripped or
    normalised).  When no layer has that identifier it reports not-found -
    it logs a warning, returns normally and changes nothing else - and when
    some do it finds one of them, the last in the overlay. *)
Theorem zoomToGrid_resolves_whole_token
    (geometry : Type) (bounds_ok : geometry -> bool)
    (gridId : string) (st : state geometry) :
  (findLayer gridId (risk_overlay st) = None
   <-> forall l, In l (risk_overlay st) -> regionId l <> Some gridId)
  /\ (findLayer gridId (risk_overlay st) = None ->
      zoomToGrid bounds_ok gridId st
      = (Ok tt, log (Warn ("Grid " ++ gridId ++ " not found on map.")) st))
  /\ (forall l, In l (risk_overlay st) -> regionId l = Some gridId ->
      exists found,
        findLayer gridId (risk_overlay st) = Some found
        /\ regionId found = Some gridId)
  /\ (forall found, findLayer gridId (risk_overlay st) = Some found ->
      exists before after,
        risk_overlay st = (before ++ found :: after)%list
        /\ regionId found = Some gridId
        /\ (forall l, In l after -> regionId l <> Some gridId)
        /\ zoomToGrid bounds_ok gridId st
           = if bounds_ok (l_geometry found)
             then (Ok tt, set_focus found st)
             else (Throw (Error "Bounds are not valid."), st)).
Proof.
  assert (N : forall l : layer geometry,
             has_id gridId l = false <-> regionId l <> Some gridId).
  { intros l. rewrite <- has_id_true. destruct (has_id gridId l); split; congruence. }
  split; [|split; [|split]].
  - rewrite findLayer_none. split; intros H l Hin; apply N; auto.
  - intros E. unfold zoomToGrid, JS.bind, JS.get. rewrite E. reflexivity.
  - intros l Hin Hid.
    destruct (findLayer gridId (risk_overlay st)) as [found|] eqn:E.
    + exists found. split; [reflexivity|].
      apply findLayer_some in E as [_ [_ [_ [Hf _]]]]. now apply has_id_true.
    + exfalso. rewrite findLayer_none in E. specialize (E l Hin).
      apply N in E. contradiction.
  - intros found E. pose proof E as E'.
    apply findLayer_some in E' as [before [after [Ho [Hf Hafter]]]].
    exists before, after. repeat split.
    + exact Ho.
    + now apply has_id_true.
    + intros l Hin. apply N. auto.
    + unfold zoomToGrid, JS.bind, JS.get. rewrite E.
      destruct (bounds_ok (l_geometry found)); reflexivity.
Qed.

(** The token [grid-042] and a region whose identifier is [042]: stripping
    the prefix would find the region; the lookup does not. *)
Lemma prefix_is_not_stripped :
  let region042 : layer unit :=
    geoLayer {| id := Some "042"; r_geometry := tt;
                r_properties := Some (sample_properties 0.9) |}
             (sample_properties 0.9) in
  spec_resolve "grid-042" [region042] = Some region042
  /\ findLayer "grid-042" [region042] = None.
Proof. split; reflexivity. Qed.

(** ** Parts of the store a computation leaves alone *)

Section FrameFacts.

Context {S T : Type} (proj : S -> T).

Lemma preserves_ret {A} (a : A) : preserves proj (JS.ret a).
Proof. intros s; reflexivity. Qed.

Lemma preserves_throw {A} (e : exn) : preserves proj (@JS.throw S A e).
Proof. intros s; reflexivity. Qed.

Lemma preserves_modify (f : S -> S) :
  (forall s, proj (f s) = proj s) -> preserves proj (JS.modify f).
Proof. intros H s; apply H. Qed.

Lemma preserves_bind {A B} (m : JS.M S A) (k : A -> JS.M S B) :
  preserves proj m -> (forall a, preserves proj (k a)) ->
  preserves proj (JS.bind m k).
Proof.
  intros Hm Hk s. unfold JS.bind. specialize (Hm s).
  destruct (m s) as [[a|e] s']; simpl in *; [|exact Hm].
  rewrite (Hk a s'). exact Hm.
Qed.

Lemma preserves_tryCatch {A} (m : JS.M S A) (h : exn -> JS.M S A) :
  preserves proj m -> (forall e, preserves proj (h e)) ->
  preserves proj (JS.tryCatch m h).
Proof.
  intros Hm Hh s. unfold JS.tryCatch. specialize (Hm s).
  destruct (m s) as [[a|e] s']; simpl in *; [exact Hm|].
  rewrite (Hh e s'). exact Hm.
Qed.

Lemma preserves_forEach {X} (xs : list X) (body : X -> JS.M S unit) :
  (forall x, preserves proj (body x)) -> preserves proj (JS.forEach xs body).
Proof.
  intros H; induction xs as [|x xs IH]; [apply preserves_ret|].
  simpl. apply preserves_bind; [apply H | intros _; exact IH].
Qed.

End FrameFacts.

Lemma tryCatch_after {S A B} (m : JS.M S A) (k : A -> JS.M S B)
    (h : exn -> JS.M S B) (s s' : S) (a : A) :
  m s = (Ok a, s') ->
  JS.tryCatch (JS.bind m k) h s = JS.tryCatch (k a) h s'.
Proof. intros E. unfold JS.tryCatch, JS.bind. rewrite E. reflexivity. Qed.

Lemma tryCatch_thrown {S A B} (m : JS.M S A) (k : A -> JS.M S B)
    (h : exn -> JS.M S B) (s s' : S) (e : exn) :
  m s = (Throw e, s') ->
  JS.tryCatch (JS.bind m k) h s = h e s'.
Proof. intros E. unfold JS.tryCatch, JS.bind. rewrite E. reflexivity. Qed.

(** ** The overlay *)

Section OverlayFacts.

Variable geometry : Type.
Variable geoJSON_ok : geometry -> bool.
Variable pm : string -> option string.
Variables port protocol : string.

Implicit Types (s st : state geometry) (r : region geometry).

Lemma on_page_preserves {A T} (proj : state geometry -> T) (m : JS.M document A) :
  (forall p s, proj (with_page p s) = proj s) -> preserves proj (on_page m).
Proof.
  intros H s. unfold on_page, JS.zoom. destruct (m (page s)) as [res p]. apply H.
Qed.

Lemma updateSidePanel_preserves {T} (proj : state geometry -> T) props :
  (forall p s, proj (queue_panel p s) = proj s) ->
  preserves proj (updateSidePanel props).
Proof.
  intros H s. unfold updateSidePanel, JS.bind, JS.get.
  destruct (getElementById "prediction-content" (page s)); [apply H | reflexivity].
Qed.

(** A batch the rendering does not throw on puts one layer per region behind
    the layers already there, in the order of the batch, and touches nothing
    else. *)
Lemma renderRiskPolygons_all (rs : list (region geometry)) s :
  (forall r, In r rs -> renderable geoJSON_ok r) ->
  exists new,
    renderRiskPolygons geoJSON_ok (Some rs) s
    = (Ok tt, with_overlay (risk_overlay s ++ new)%list s)
    /\ Forall2 shows rs new.
Proof.
  revert s; induction rs as [|r rs IH]; intros s H.
  - exists []. split; [|constructor]. simpl. rewrite app_nil_r. now destruct s.
  - destruct (H r (or_introl eq_refl)) as [Hp Hg].
    destruct (r_properties r) as [props|] eqn:Ep; [|now elim Hp].
    destruct (IH (add_layer (geoLayer r props) s)) as [new [E HF]].
    { intros r' Hr'; apply H; now right. }
    exists (geoLayer r props :: new). split.
    + simpl in *. unfold JS.bind, renderRegion at 1. rewrite Ep, Hg.
      unfold JS.modify. rewrite E. f_equal. unfold with_overlay; simpl.
      now rewrite <- app_assoc.
    + constructor; [|exact HF]. repeat split. simpl. now symmetry.
Qed.

(** The steps of [loadAILayer] other than the rendering leave the overlay. *)
Lemma after_rendering_preserves (data : predict_data geometry) :
  preserves risk_overlay
    (JS.tryCatch
       ((match alerts data with
         | Some al => on_page (updateAlertsFeed al)
         | None => JS.ret tt
         end : JS.M (state geometry) unit) ;;;
        match regions data with
        | Some (r :: _) => updateSidePanel (r_properties r)
        | _ => JS.ret tt
        end ;;;
        match metadata_health data with
        | Some health => on_page (updateStatusUI pm health)
        | None => JS.ret tt
        end)
       (fun error =>
          JS.modify (log (ErrorLog "Failed to load AI Layer:" error)) ;;;
          on_page (updateStatusUI pm degraded))).
Proof.
  apply preserves_tryCatch.
  - apply preserves_bind.
    { destruct (alerts data);
        [apply on_page_preserves; reflexivity | apply preserves_ret]. }
    intros _. apply preserves_bind.
    { destruct (regions data) as [[|r ?]|];
        [apply preserves_ret | apply updateSidePanel_preserves; reflexivity
        | apply preserves_ret]. }
    intros _. destruct (metadata_health data);
      [apply on_page_preserves; reflexivity | apply preserves_ret].
  - intros e. apply preserves_bind; [apply preserves_modify; reflexivity|].
    intros _. apply on_page_preserves; reflexivity.
Qed.

End OverlayFacts.

(** [loadAILayer] once the body has arrived: the two log lines, then the
    rest of the [try] block under the [catch]. *)
Lemma loadAILayer_body
    (geometry : Type) (geoJSON_ok : geometry -> bool)
    (pm : string -> option string) (port protocol : string)
    (data : predict_data geometry) (st : state geometry) :
  loadAILayer geoJSON_ok pm port protocol (Body data) st
  = JS.tryCatch (showPredictions geoJSON_ok pm data)
      (fun error =>
         JS.modify (log (ErrorLog "Failed to load AI Layer:" error)) ;;;
         on_page (updateStatusUI pm degraded))
      (log (Log ("Fetching AI Predictions from: " ++ apiUrl port protocol "/predict"))
         (log (Log "Fetching AI Predictions from Hybrid Backend...") st)).
Proof. reflexivity. Qed.

(** C2 (as amended). A successful refresh does not replace the region
    snapshot: when the body arrives and every region of the batch renders,
    [loadAILayer] leaves in the overlay the layers that were there, followed
    by one layer per region of the batch in batch order, whatever the later
    steps of the load do.  The visible regions are exactly those of the new
    batch when the overlay was empty before the refresh, as at the one load
    the script makes at start-up. *)
Theorem refresh_appends_batch
    (geometry : Type) (geoJSON_ok : geometry -> bool)
    (pm : string -> option string) (port protocol : string)
    (data : predict_data geometry) (rs : list (region geometry))
    (st : state geometry) :
  regions data = Some rs ->
  (forall r, In r rs -> renderable geoJSON_ok r) ->
  exists new,
    risk_overlay (snd (loadAILayer geoJSON_ok pm port protocol (Body data) st))
    = (risk_overlay st ++ new)%list
    /\ Forall2 shows rs new
    /\ (risk_overlay st = [] ->
        map regionId
          (risk_overlay (snd (loadAILayer geoJSON_ok pm port protocol (Body data) st)))
        = map id rs).
Proof.
  intros Hr Hall.
  set (s2 := log (Log ("Fetching AI Predictions from: " ++ apiUrl port protocol "/predict"))
               (log (Log "Fetching AI Predictions from Hybrid Backend...") st)).
  destruct (renderRiskPolygons_all geometry geoJSON_ok rs s2 Hall) as [new [E HF]].
  rewrite <- Hr in E.
  assert (Hov : risk_overlay
                  (snd (loadAILayer geoJSON_ok pm port protocol (Body data) st))
                = (risk_overlay st ++ new)%list).
  { rewrite loadAILayer_body. fold s2. unfold showPredictions.
    rewrite (tryCatch_after _ _ _ _ _ tt E).
    rewrite (after_rendering_preserves geometry pm data). reflexivity. }
  exists new. split; [exact Hov|]. split; [exact HF|].
  intros Hempty. rewrite Hov, Hempty. simpl.
  clear - HF. induction HF as [|r l rs new [Hid _] HF IH]; simpl; [reflexivity|].
  now rewrite Hid, IH.
Qed.

(** Two successful refreshes on the page with the side panel, the batch [A]
    and then the batch [B]: both run to the end of the [try] block (the
    console holds the four fetch lines and no error, the master status stays
    green), and the overlay shows [A] and [B] together. *)
Lemma stale_and_fresh_regions_coexist :
  let load batch st :=
    snd (loadAILayer any_geometry no_proto "8080" "http:"
           (Body (sample_batch batch)) st) in
  let first := load [sample_region (Some "grid-A") 0.9] (startup app_page) in
  let second := load [sample_region (Some "grid-B") 0.3] first in
  map regionId (risk_overlay first) = [Some "grid-A"]
  /\ map regionId (risk_overlay second) = [Some "grid-A"; Some "grid-B"]
  /\ console second
     = [ Log "Fetching AI Predictions from Hybrid Backend...";
         Log "Fetching AI Predictions from: http://127.0.0.1:8000/predict";
         Log "Fetching AI Predictions from Hybrid Backend...";
         Log "Fetching AI Predictions from: http://127.0.0.1:8000/predict" ]
  /\ panel_queue second
     = [Some (sample_properties 0.9); Some (sample_properties 0.3)]
  /\ master_status (page second)
     = (Some ["status-dot"; "active"], Some "Live Model Connected").
Proof. cbv zeta. repeat split; reflexivity. Qed.

Lemma refresh_appends_batch_witness :
  exists new,
    risk_overlay
      (snd (loadAILayer any_geometry no_proto "8080" "http:"
              (Body (sample_batch [sample_region (Some "grid-A") 0.9;
                                   sample_region (Some "grid-B") 0.3]))
              (startup app_page)))
    = (risk_overlay (startup (geometry := unit) app_page) ++ new)%list
    /\ Forall2 shows [sample_region (Some "grid-A") 0.9;
                      sample_region (Some "grid-B") 0.3] new
    /\ (risk_overlay (startup (geometry := unit) app_page) = [] ->
        map regionId
          (risk_overlay
             (snd (loadAILayer any_geometry no_proto "8080" "http:"
                     (Body (sample_batch [sample_region (Some "grid-A") 0.9;
                                          sample_region (Some "grid-B") 0.3]))
                     (startup app_page))))
        = [Some "grid-A"; Some "grid-B"]).
Proof.
  apply (refresh_appends_batch unit any_geometry no_proto "8080" "http:"
           (sample_batch [sample_region (Some "grid-A") 0.9;
                          sample_region (Some "grid-B") 0.3])
           [sample_region (Some "grid-A") 0.9; sample_region (Some "grid-B") 0.3]
           (startup app_page)).
  - reflexivity.
  - intros r H; simpl in H.
    repeat (destruct H as [H|H]; [subst r; split; [discriminate | reflexivity]|]).
    contradiction.
Defined.

(** C7 (as amended). The rendering validates nothing.  A batch in which
    every region has properties and a geometry Leaflet accepts is rendered
    whole and without a throw: a region without identifier, or with a risk
    score outside [0,1], gets its layer like any other; nothing but the
    overlay changes, so no error is recorded; and the overlay afterwards
    holds the layers it had, followed by one layer per region of the batch
    in source order, an identifier as often as the batch has it. *)
Theorem rendering_rejects_no_region
    (geometry : Type) (geoJSON_ok : geometry -> bool)
    (rs : list (region geometry)) (st : state geometry) :
  (forall r, In r rs -> renderable geoJSON_ok r) ->
  exists new,
    renderRiskPolygons geoJSON_ok (Some rs) st
    = (Ok tt, with_overlay (risk_overlay st ++ new)%list st)
    /\ Forall2 shows rs new
    /\ map regionId new = map id rs
    /\ List.length new = List.length rs.
Proof.
  intros Hall.
  destruct (renderRiskPolygons_all geometry geoJSON_ok rs st Hall) as [new [E HF]].
  exists new. split; [exact E|]. split; [exact HF|].
  clear - HF. induction HF as [|r l rs new [Hid _] HF [IH1 IH2]]; simpl;
    [split; reflexivity|].
  now rewrite Hid, IH1, IH2.
Qed.

(** A batch with a region that has no identifier and a score of 1.5: the
    overlay shows it beside the valid one, nothing is logged, and the valid
    subset of the specification is the first region alone. *)
Lemma malformed_region_is_rendered :
  let batch := [sample_region (Some "grid-A") 0.9; sample_region None 1.5;
                sample_region (Some "grid-A") 0.2] in
  let st' := snd (renderRiskPolygons any_geometry (Some batch) (startup board_page)) in
  map regionId (risk_overlay st') = [Some "grid-A"; None; Some "grid-A"]
  /\ console st' = []
  /\ map id (filter spec_valid batch) = [Some "grid-A"; Some "grid-A"].
Proof. repeat split; reflexivity. Qed.

Lemma rendering_rejects_no_region_witness :
  exists new,
    renderRiskPolygons any_geometry
      (Some [sample_region (Some "grid-A") 0.9; sample_region None 1.5])
      (startup board_page)
    = (Ok tt, with_overlay (risk_overlay (startup board_page) ++ new)%list
                (startup board_page))
    /\ Forall2 shows [sample_region (Some "grid-A") 0.9; sample_region None 1.5] new
    /\ map regionId new = [Some "grid-A"; None]
    /\ List.length new = 2.
Proof.
  apply (rendering_rejects_no_region unit any_geometry
           [sample_region (Some "grid-A") 0.9; sample_region None 1.5]
           (startup board_page)).
  intros r H; simpl in H.
  repeat (destruct H as [H|H]; [subst r; split; [discriminate | reflexivity]|]).
  contradiction.
Defined.

(** ** A failed load *)

Lemma kept_outside_refl ids d : Forall2 (kept_outside ids) d d.
Proof. induction d; constructor; [split; auto | assumption]. Qed.

Lemma kept_outside_modify ids i f d0 d :
  Forall2 (kept_outside ids) d0 d -> In i ids -> keeps_id f ->
  Forall2 (kept_outside ids) d0 (modify_by_id i f d).
Proof.
  intros H Hi Hf. apply Forall2_modify_by_id; [exact H|].
  intros e0 e [Hid _] E. split; [now rewrite Hf|].
  intros Hout. exfalso. apply Hout. now rewrite <- Hid, E.
Qed.

Lemma kept_outside_masterPage ids d0 d :
  Forall2 (kept_outside ids) d0 d ->
  In "master-status-light" ids -> In "status-text" ids ->
  Forall2 (kept_outside ids) d0 (masterPage d).
Proof.
  intros H Hl Ht. unfold masterPage.
  destruct (getElementById "master-status-light" d); [|exact H].
  unfold master_write.
  apply kept_outside_modify; [|exact Ht|apply set_text_keeps_id].
  apply kept_outside_modify; [exact H|exact Hl|apply set_class_keeps_id].
Qed.

Lemma getElementById_masterPage i d :
  i <> "master-status-light" -> i <> "status-text" ->
  getElementById i (masterPage d) = getElementById i d.
Proof.
  intros Hl Ht. unfold masterPage.
  destruct (getElementById "master-status-light" d); [|reflexivity].
  unfold master_write.
  rewrite getElementById_modify_other by (apply set_text_keeps_id || congruence).
  apply getElementById_modify_other; [apply set_class_keeps_id | congruence].
Qed.

(** The page the degraded set leaves. *)
Lemma degraded_page pm d :
  updateStatusUI pm degraded d
  = (Ok tt,
     masterPage (masterPage
       (modify_by_id "dot-gbif" (set_class ["status-row-dot"; "red"])
          (modify_by_id "dot-canada" (set_class ["status-row-dot"; "red"])
             (modify_by_id "dot-us" (set_class ["status-row-dot"; "red"])
                (modify_by_id "dot-maritime" (set_class ["status-row-dot"]) d)))))).
Proof.
  rewrite updateStatusUI_valid; [reflexivity|].
  intros k v H; simpl in H.
  repeat (destruct H as [H|H]; [inversion H; subst; first [now left | now right]|]).
  contradiction.
Qed.

Lemma loadAILayer_failed
    (geometry : Type) (geoJSON_ok : geometry -> bool)
    (pm : string -> option string) (port protocol : string)
    (resp : response (predict_data geometry)) (st : state geometry) :
  failed resp ->
  loadAILayer geoJSON_ok pm port protocol resp st
  = (Ok tt,
     with_page (snd (updateStatusUI pm degraded (page st)))
       (log (ErrorLog "Failed to load AI Layer:" (failure_of "API Response Error" resp))
          (log (Log ("Fetching AI Predictions from: " ++ apiUrl port protocol "/predict"))
             (log (Log "Fetching AI Predictions from Hybrid Backend...") st)))).
Proof.
  intros Hf.
  destruct resp as [| | |data]; [| | |now elim (Hf data)];
    unfold loadAILayer, JS.tryCatch, JS.bind, JS.modify, JS.throw, on_page, JS.zoom;
    simpl; rewrite degraded_page; reflexivity.
Qed.

(** C4. A prediction refresh that fails with a transport or parse error (the
    fetch rejects, the status is not ok, or the body does not parse) returns
    normally and leaves the overlay of regions, the pending panel updates,
    the map focus and the infrastructure markers as they were; on the page it
    changes nothing but the status board, so the alert feed stays; and it
    hands the status update the degraded set, after which the dots of
    [us_data], [canada_data] and [integrity] are red, the dot of the
    simulated [maritime] source is green, and the [infrastructure] dot is as
    before. *)
Theorem failed_load_keeps_snapshot
    (geometry : Type) (geoJSON_ok : geometry -> bool)
    (pm : string -> option string) (port protocol : string)
    (resp : response (predict_data geometry)) (st : state geometry) :
  failed resp ->
  let out := loadAILayer geoJSON_ok pm port protocol resp st in
  let red := set_class ["status-row-dot"; "red"] in
  fst out = Ok tt
  /\ risk_overlay (snd out) = risk_overlay st
  /\ panel_queue (snd out) = panel_queue st
  /\ focus (snd out) = focus st
  /\ infrastructure (snd out) = infrastructure st
  /\ updateStatusUI pm degraded (page st) = (Ok tt, page (snd out))
  /\ Forall2 (kept_outside board_ids) (page st) (page (snd out))
  /\ getElementById "dot-us" (page (snd out))
     = option_map red (getElementById "dot-us" (page st))
  /\ getElementById "dot-canada" (page (snd out))
     = option_map red (getElementById "dot-canada" (page st))
  /\ getElementById "dot-gbif" (page (snd out))
     = option_map red (getElementById "dot-gbif" (page st))
  /\ getElementById "dot-maritime" (page (snd out))
     = option_map (set_class ["status-row-dot"]) (getElementById "dot-maritime" (page st))
  /\ getElementById "dot-glfc" (page (snd out)) = getElementById "dot-glfc" (page st).
Proof.
  intros Hf out red. subst out.
  rewrite (loadAILayer_failed geometry geoJSON_ok pm port protocol resp st Hf).
  simpl fst; simpl snd. rewrite degraded_page. simpl snd.
  change (page (with_page ?p ?s)) with p.
  repeat match goal with |- _ /\ _ => split end; try reflexivity.
  - apply kept_outside_masterPage; [|unfold board_ids; in_strings ..].
    apply kept_outside_masterPage; [|unfold board_ids; in_strings ..].
    repeat (apply kept_outside_modify;
            [|unfold board_ids; in_strings|apply set_class_keeps_id]).
    apply kept_outside_refl.
  - rewrite !getElementById_masterPage by discriminate.
    rewrite getElementById_modify_other by (apply set_class_keeps_id || discriminate).
    rewrite getElementById_modify_other by (apply set_class_keeps_id || discriminate).
    rewrite getElementById_modify_same by apply set_class_keeps_id.
    rewrite getElementById_modify_other by (apply set_class_keeps_id || discriminate).
    destruct (getElementById "dot-us" (page st)); reflexivity.
  - rewrite !getElementById_masterPage by discriminate.
    rewrite getElementById_modify_other by (apply set_class_keeps_id || discriminate).
    rewrite getElementById_modify_same by apply set_class_keeps_id.
    rewrite !getElementById_modify_other by (apply set_class_keeps_id || discriminate).
    destruct (getElementById "dot-canada" (page st)); reflexivity.
  - rewrite !getElementById_masterPage by discriminate.
    rewrite getElementById_modify_same by apply set_class_keeps_id.
    rewrite !getElementById_modify_other by (apply set_class_keeps_id || discriminate).
    destruct (getElementById "dot-gbif" (page st)); reflexivity.
  - rewrite !getElementById_masterPage by discriminate.
    rewrite !getElementById_modify_other by (apply set_class_keeps_id || discriminate).
    rewrite getElementById_modify_same by apply set_class_keeps_id.
    destruct (getElementById "dot-maritime" (page st)); reflexivity.
  - rewrite !getElementById_masterPage by discriminate.
    rewrite !getElementById_modify_other by (apply set_class_keeps_id || discriminate).
    reflexivity.
Qed.

Lemma failed_load_keeps_snapshot_witness :
  let out := loadAILayer any_geometry no_proto "8080" "http:" NetworkFailure loaded in
  fst out = Ok tt
  /\ risk_overlay (snd out) = risk_overlay loaded
  /\ querySelector "feed-container" (page (snd out))
     = querySelector "feed-container" (page loaded)
  /\ option_map el_class (getElementById "dot-us" (page (snd out)))
     = Some ["status-row-dot"; "red"]
  /\ option_map el_class (getElementById "dot-maritime" (page (snd out)))
     = Some ["status-row-dot"]
  /\ master_status (page (snd out))
     = (Some ["status-dot"; "red"], Some "System Offline").
Proof.
  destruct (failed_load_keeps_snapshot unit any_geometry no_proto "8080" "http:"
              NetworkFailure loaded)
    as (H1 & H2 & _ & _ & _ & _ & _ & H3 & _ & _ & H4 & _).
  - intros data; discriminate.
  - split; [exact H1|]. split; [exact H2|]. split; [reflexivity|].
    split; [now rewrite H3|]. split; [now rewrite H4 | reflexivity].
Defined.

(** ** A failed infrastructure load *)

Section InfrastructureFacts.

Variable geometry : Type.
Variables port protocol : string.

Lemma renderPoint_preserves {T} (proj : state geometry -> T) pt :
  (forall m s, proj (add_marker m s) = proj s) ->
  preserves proj (renderPoint (geometry := geometry) pt).
Proof.
  intros H s. unfold renderPoint.
  destruct (match pt_type pt with
            | Some "treatment" => ("#ec4899", 4, Treatments)
            | Some "trapping" => ("#facc15", 6, Trapping)
            | Some "barrier" =>
                match pt_fc pt with
                | Some "No" => ("#f87171", 5, Barriers)
                | _ => ("#38bdf8", 5, Barriers)
                end
            | _ => ("#38bdf8", 5, Barriers)
            end) as [[c r] g].
  destruct (pt_lat pt), (pt_lon pt), (pt_type pt); try reflexivity. apply H.
Qed.

Lemma loadInfrastructure_preserves {T} (proj : state geometry -> T) resp :
  (forall m s, proj (add_marker m s) = proj s) ->
  (forall e s, proj (log e s) = proj s) ->
  preserves proj (loadInfrastructure (geometry := geometry) port protocol resp).
Proof.
  intros Hm Hl. unfold loadInfrastructure.
  apply preserves_tryCatch.
  - apply preserves_bind; [apply preserves_modify; intros s; apply Hl|].
    intros _. destruct resp as [| | |[points|]]; try apply preserves_throw.
    apply preserves_forEach. intros pt. apply renderPoint_preserves, Hm.
  - intros e. apply preserves_modify. intros s; apply Hl.
Qed.

Lemma loadInfrastructure_returns resp (st : state geometry) :
  fst (loadInfrastructure port protocol resp st) = Ok tt.
Proof.
  unfold loadInfrastructure, JS.tryCatch.
  match goal with |- context [JS.bind ?m ?k st] => destruct (JS.bind m k st) as [[[]|e] s'] end;
    reflexivity.
Qed.

End InfrastructureFacts.

(** C9. The infrastructure refresh touches neither the page - so no row dot,
    the [integrity] dot included, nor the master status, nor the alert feed -
    nor the overlay of regions nor the pending panel updates, whatever its
    outcome, and it always returns normally.  When it fails for a transport
    or parse error, the failure is only logged: the state changes in the
    console alone, which gains the line of the fetch and the error. *)
Theorem failed_infrastructure_is_only_logged
    (geometry : Type) (port protocol : string)
    (resp : response (option (list point))) (st : state geometry) :
  let out := loadInfrastructure port protocol resp st in
  fst out = Ok tt
  /\ page (snd out) = page st
  /\ master_status (page (snd out)) = master_status (page st)
  /\ risk_overlay (snd out) = risk_overlay st
  /\ panel_queue (snd out) = panel_queue st
  /\ focus (snd out) = focus st
  /\ (failed resp ->
      infrastructure (snd out) = infrastructure st
      /\ console (snd out)
         = (console st
            ++ [Log ("Fetching GLFC Infrastructure from: "
                     ++ apiUrl port protocol "/infrastructure");
                ErrorLog "Infrastructure loading failed:"
                  (failure_of "Infrastructure API Error" resp)])%list).
Proof.
  intros out. subst out.
  assert (Hp : page (snd (loadInfrastructure port protocol resp st)) = page st)
    by (apply (loadInfrastructure_preserves geometry port protocol page); reflexivity).
  split; [apply loadInfrastructure_returns|].
  split; [exact Hp|].
  split; [now rewrite Hp|].
  split; [apply (loadInfrastructure_preserves geometry port protocol risk_overlay); reflexivity|].
  split; [apply (loadInfrastructure_preserves geometry port protocol panel_queue); reflexivity|].
  split; [apply (loadInfrastructure_preserves geometry port protocol focus); reflexivity|].
  intros Hf. destruct resp as [| | |data]; [| | |now elim (Hf data)];
    split; simpl; rewrite <- ?app_assoc; reflexivity.
Qed.

(** * Further properties *)

(** ** The status board *)

Lemma contains_in cls e : classList_contains cls e = true <-> In cls (el_class e).
Proof.
  unfold classList_contains. rewrite existsb_exists. split.
  - intros [x [Hx E]]. apply String.eqb_eq in E. now subst x.
  - intros H. exists cls. split; [exact H | apply String.eqb_refl].
Qed.

Lemma row_has_some cls d :
  existsb (row_has cls) d = true <-> some_row_dot cls d.
Proof.
  rewrite existsb_exists. unfold some_row_dot, row_has. split.
  - intros [e [He H]]. apply andb_prop in H as [H1 H2].
    exists e. now rewrite <- !contains_in.
  - intros [e [He [H1 H2]]]. exists e. split; [exact He|].
    apply andb_true_intro. now rewrite !contains_in.
Qed.

(** X1. [updateMasterStatus] always returns normally and shows the worst
    class among the row dots of the page: on a page with a master light, the
    light gets the classes [status-dot red] and the status text reads "System
    Offline" when some row dot is red; [status-dot yellow] and "Syncing
    Data..." when none is red and some is yellow; [status-dot active] and
    "Live Model Connected" otherwise.  It writes to the master light and the
    status text only, and on a page without a master light it writes
    nothing, the status text included. *)
Theorem master_status_reads_row_dots (d : document) :
  let d' := snd (updateMasterStatus d) in
  fst (updateMasterStatus d) = Ok tt
  /\ Forall2 (kept_outside ["master-status-light"; "status-text"]) d d'
  /\ (~ In "master-status-light" (map el_id d) -> d' = d)
  /\ (In "master-status-light" (map el_id d) ->
      exists light text,
        option_map el_class (getElementById "master-status-light" d')
        = Some ["status-dot"; light]
        /\ (In "status-text" (map el_id d) ->
            option_map el_text (getElementById "status-text" d') = Some text)
        /\ (some_row_dot "red" d -> light = "red" /\ text = "System Offline")
        /\ (~ some_row_dot "red" d -> some_row_dot "yellow" d ->
            light = "yellow" /\ text = "Syncing Data...")
        /\ (~ some_row_dot "red" d -> ~ some_row_dot "yellow" d ->
            light = "active" /\ text = "Live Model Connected")).
Proof.
  intros d'. subst d'. rewrite updateMasterStatus_run. simpl fst; simpl snd.
  split; [reflexivity|]. split; [|split].
  - apply kept_outside_masterPage; [apply kept_outside_refl | in_strings ..].
  - intros Hn. unfold masterPage. apply getElementById_none in Hn. now rewrite Hn.
  - intros Hl. unfold masterPage.
    destruct (getElementById_in _ _ Hl) as [l El]. rewrite El.
    rewrite rowFlags_page.
    set (lt := verdict (existsb (row_has "red") d, existsb (row_has "yellow") d)).
    exists (fst lt), (snd lt). split; [|split; [|split; [|split]]].
    + unfold master_write.
      rewrite getElementById_modify_other by (apply set_text_keeps_id || discriminate).
      rewrite getElementById_modify_same by apply set_class_keeps_id.
      rewrite El. reflexivity.
    + intros Ht. destruct (getElementById_in _ _ Ht) as [t Et]. unfold master_write.
      rewrite getElementById_modify_same by apply set_text_keeps_id.
      rewrite getElementById_modify_other by (apply set_class_keeps_id || discriminate).
      rewrite Et. reflexivity.
    + intros Hr. apply row_has_some in Hr. subst lt. rewrite Hr. split; reflexivity.
    + intros Hr Hy. apply row_has_some in Hy. subst lt. rewrite Hy.
      destruct (existsb (row_has "red") d) eqn:E;
        [elim Hr; now apply row_has_some | split; reflexivity].
    + intros Hr Hy. subst lt.
      destruct (existsb (row_has "red") d) eqn:E;
        [elim Hr; now apply row_has_some|].
      destruct (existsb (row_has "yellow") d) eqn:E';
        [elim Hy; now apply row_has_some | split; reflexivity].
Qed.

Lemma kept_outside_ids ids d0 d :
  Forall2 (kept_outside ids) d0 d -> map el_id d = map el_id d0.
Proof.
  induction 1 as [|e0 e d0 d [Hid _] H IH]; simpl; [reflexivity|].
  now rewrite Hid, IH.
Qed.

Lemma kept_outside_statusEntry pm ids k v d0 d :
  Forall2 (kept_outside ids) d0 d -> In (dotId pm k) ids ->
  Forall2 (kept_outside ids) d0 (snd (statusEntry pm (k, v) d)).
Proof.
  intros H Hk. rewrite statusEntry_run.
  destruct (getElementById (dotId pm k) d); [|exact H].
  destruct (v =? "green"); [|destruct (token_error v)]; simpl;
    apply kept_outside_modify; try assumption; apply set_class_keeps_id.
Qed.

Lemma kept_outside_statusLoop pm ids health d0 d :
  Forall2 (kept_outside ids) d0 d -> incl (dots_of pm health) ids ->
  Forall2 (kept_outside ids) d0 (snd (JS.forEach health (statusEntry pm) d)).
Proof.
  revert d; induction health as [|[k v] health IH]; intros d H Hinc; [exact H|].
  rewrite forEach_cons.
  assert (Hk : In (dotId pm k) ids) by (apply Hinc; now left).
  pose proof (kept_outside_statusEntry pm ids k v d0 d H Hk) as Hs.
  destruct (statusEntry pm (k, v) d) as [[u|e] d']; simpl in Hs; [|exact Hs].
  apply IH; [exact Hs|]. intros x Hx; apply Hinc; now right.
Qed.

(** X2. Whatever the signal set and whatever the outcome, a status update
    keeps the id of every element and changes no element other than the dots
    its entries name, the master light and the status text: the alert feed,
    the side panel and the dots of sources the set does not name stay as they
    were. *)
Theorem status_update_writes_board_only
    (pm : string -> option string) (health : signal_set) (d : document) :
  Forall2 (kept_outside (status_targets pm health)) d
    (snd (updateStatusUI pm health d))
  /\ map el_id (snd (updateStatusUI pm health d)) = map el_id d.
Proof.
  assert (F : Forall2 (kept_outside (status_targets pm health)) d
                (snd (updateStatusUI pm health d))).
  { unfold updateStatusUI, originalUpdateStatusUI, JS.bind.
    pose proof (kept_outside_statusLoop pm (status_targets pm health) health d d
                  (kept_outside_refl _ d)) as Hs.
    assert (Hinc : incl (dots_of pm health) (status_targets pm health))
      by (intros x Hx; apply in_or_app; now left).
    specialize (Hs Hinc).
    destruct (JS.forEach health (statusEntry pm) d) as [[u|e] d1]; simpl in Hs;
      [|exact Hs].
    rewrite !updateMasterStatus_run. simpl.
    apply kept_outside_masterPage;
      [|apply in_or_app; right; in_strings ..].
    apply kept_outside_masterPage;
      [exact Hs|apply in_or_app; right; in_strings ..]. }
  split; [exact F | exact (kept_outside_ids _ _ _ F)].
Qed.

(** X3. A status that [classList.add] rejects (the empty string, or one with
    whitespace) under a key whose dot is on the page makes the update throw
    at that entry: the entries before it are applied, the dot of the entry is
    left reset to its bare class, no later entry is applied and the master
    status is not recomputed. *)
Theorem rejected_status_stops_update
    (pm : string -> option string) (before after : signal_set)
    (k v : string) (e : exn) (d : document) :
  (forall k' v', In (k', v') before -> valid_status v') ->
  token_error v = Some e ->
  In (dotId pm k) (map el_id d) ->
  updateStatusUI pm (before ++ (k, v) :: after)%list d
  = (Throw e,
     modify_by_id (dotId pm k) (set_class ["status-row-dot"])
       (loop_page pm before d)).
Proof.
  intros Hv He Hin.
  assert (L : forall d0, In (dotId pm k) (map el_id d0) ->
                JS.forEach (before ++ (k, v) :: after)%list (statusEntry pm) d0
                = (Throw e,
                   modify_by_id (dotId pm k) (set_class ["status-row-dot"])
                     (loop_page pm before d0))).
  { clear Hin. induction before as [|[k0 v0] before IH]; intros d0 Hin.
    - simpl app. rewrite forEach_cons, statusEntry_run.
      destruct (getElementById_in _ _ Hin) as [dot ->].
      assert (Hg : (v =? "green") = false).
      { destruct (String.eqb_spec v "green") as [->|]; [discriminate He | reflexivity]. }
      rewrite Hg, He. reflexivity.
    - simpl app. rewrite forEach_cons.
      rewrite statusEntry_valid by (apply (Hv k0 v0); now left).
      simpl loop_page. apply IH.
      + intros k' v' H'; apply (Hv k' v'); now right.
      + rewrite modify_by_id_ids by apply set_class_keeps_id. exact Hin. }
  unfold updateStatusUI, originalUpdateStatusUI, JS.bind.
  rewrite (L d Hin). reflexivity.
Qed.

Lemma rejected_status_stops_update_witness :
  updateStatusUI no_proto
    [("maritime", "yellow"); ("us_data", "very red"); ("integrity", "red")]
    board_page
  = (Throw (DOMException "InvalidCharacterError"),
     modify_by_id "dot-us" (set_class ["status-row-dot"])
       (loop_page no_proto [("maritime", "yellow")] board_page))
  /\ master_status
       (snd (updateStatusUI no_proto
               [("maritime", "yellow"); ("us_data", "very red"); ("integrity", "red")]
               board_page))
     = (Some ["status-dot"; "active"], Some "Live Model Connected").
Proof.
  split; [|reflexivity].
  apply (rejected_status_stops_update no_proto [("maritime", "yellow")]
           [("integrity", "red")] "us_data" "very red"
           (DOMException "InvalidCharacterError") board_page).
  - intros k' v' [H|[]]. inversion H; subst. now right.
  - reflexivity.
  - in_strings.
Defined.

Lemma getElementById_id i d e : getElementById i d = Some e -> el_id e = i.
Proof. intros H. now apply getElementById_some in H. Qed.

(** Reading an element after the loop of the status update. *)
Lemma getElementById_loop_page pm health i d :
  getElementById i (loop_page pm health d)
  = option_map (restyle pm health) (getElementById i d).
Proof.
  revert d; induction health as [|[k v] health IH]; intros d.
  - simpl. now destruct (getElementById i d).
  - simpl loop_page. rewrite IH. simpl fst; simpl snd.
    destruct (String.eqb_spec (dotId pm k) i) as [E|E].
    + subst i. rewrite getElementById_modify_same by apply set_class_keeps_id.
      destruct (getElementById (dotId pm k) d) as [e|] eqn:Ee; [|reflexivity].
      simpl. rewrite (getElementById_id _ _ _ Ee), String.eqb_refl. reflexivity.
    + rewrite getElementById_modify_other by (apply set_class_keeps_id || exact E).
      destruct (getElementById i d) as [e|] eqn:Ee; [|reflexivity].
      simpl. rewrite (getElementById_id _ _ _ Ee).
      destruct (String.eqb_spec i (dotId pm k)); [congruence | reflexivity].
Qed.

(** X4. Writing a signal and reading its dot: after a status update with
    distinct known source names and accepted statuses, the dot of each entry
    whose element is on the page carries exactly the class of its status -
    the bare [status-row-dot] for green, [status-row-dot] and the status
    otherwise - whatever the dot showed before. *)
Theorem status_dot_shows_signal
    (pm : string -> option string) (health : signal_set) (d : document)
    (k v i : string) :
  NoDup (map fst health) ->
  (forall k' v', In (k', v') health -> mapping k' <> None /\ valid_status v') ->
  In (k, v) health ->
  mapping k = Some i ->
  In i (map el_id d) ->
  fst (updateStatusUI pm health d) = Ok tt
  /\ option_map el_class (getElementById i (snd (updateStatusUI pm health d)))
     = Some (dot_class v).
Proof.
  intros Hnd Hall Hin Hm Hi.
  rewrite updateStatusUI_valid by (intros k' v' H'; exact (proj2 (Hall k' v' H'))).
  split; [reflexivity|]. simpl snd.
  destruct (mapping_not_master k i Hm) as [Hl Ht].
  rewrite !getElementById_masterPage by assumption.
  rewrite getElementById_loop_page.
  destruct (getElementById_in _ _ Hi) as [e Ee]. rewrite Ee. simpl.
  rewrite (restyle_addressed pm health e k v Hnd).
  - reflexivity.
  - intros k' v' H'. exact (proj1 (Hall k' v' H')).
  - exact Hin.
  - rewrite (getElementById_id _ _ _ Ee). symmetry. now apply dotId_known.
Qed.

Lemma status_dot_shows_signal_witness :
  fst (updateStatusUI no_proto [("us_data", "red"); ("integrity", "green")]
         (snd (updateStatusUI no_proto degraded board_page))) = Ok tt
  /\ option_map el_class
       (getElementById "dot-gbif"
          (snd (updateStatusUI no_proto [("us_data", "red"); ("integrity", "green")]
                  (snd (updateStatusUI no_proto degraded board_page)))))
     = Some ["status-row-dot"].
Proof.
  apply (status_dot_shows_signal no_proto [("us_data", "red"); ("integrity", "green")]
           (snd (updateStatusUI no_proto degraded board_page))
           "integrity" "green" "dot-gbif").
  - nodup_strings.
  - intros k' v' H; simpl in H.
    repeat (destruct H as [H|H];
            [inversion H; subst; split; [discriminate | first [now left | now right]]|]).
    contradiction.
  - in_strings.
  - reflexivity.
  - in_strings.
Defined.

(** X5. An entry whose dot is not on the page is skipped whatever its source
    name and its status, a status [classList.add] would reject included: the
    update gives the same outcome and the same page as without the entry. *)
Theorem entry_without_dot_is_skipped
    (pm : string -> option string) (before after : signal_set)
    (k v : string) (d : document) :
  ~ In (dotId pm k) (map el_id d) ->
  updateStatusUI pm (before ++ (k, v) :: after)%list d
  = updateStatusUI pm (before ++ after)%list d.
Proof.
  intros Hn.
  assert (L : forall d0, map el_id d0 = map el_id d ->
                JS.forEach (before ++ (k, v) :: after)%list (statusEntry pm) d0
                = JS.forEach (before ++ after)%list (statusEntry pm) d0).
  { induction before as [|[k0 v0] before IH]; intros d0 Hids.
    - simpl app. rewrite forEach_cons, statusEntry_absent by (rewrite Hids; exact Hn).
      reflexivity.
    - simpl app. rewrite !forEach_cons.
      pose proof (statusEntry_ids pm (k0, v0) d0) as Hs.
      destruct (statusEntry pm (k0, v0) d0) as [[u|e] d1]; [|reflexivity].
      apply IH. simpl in Hs. now rewrite Hs. }
  unfold updateStatusUI, originalUpdateStatusUI, JS.bind.
  rewrite (L d eq_refl). reflexivity.
Qed.

Lemma entry_without_dot_is_skipped_witness :
  updateStatusUI no_proto
    [("maritime", "yellow"); ("infrastructure", ""); ("us_data", "red")]
    (removelast board_page)
  = updateStatusUI no_proto [("maritime", "yellow"); ("us_data", "red")]
      (removelast board_page).
Proof.
  apply (entry_without_dot_is_skipped no_proto [("maritime", "yellow")]
           [("us_data", "red")] "infrastructure" "" (removelast board_page)).
  simpl. intuition discriminate.
Defined.

Lemma Forall2_in_right {A B} (R : A -> B -> Prop) l1 l2 y :
  Forall2 R l1 l2 -> In y l2 -> exists x, In x l1 /\ R x y.
Proof.
  induction 1 as [|x0 y0 l1 l2 Hr H IH]; intros Hin; [contradiction|].
  destruct Hin as [<-|Hin].
  - exists x0. split; [now left | exact Hr].
  - destruct (IH Hin) as [x [Hx Hxy]]. exists x. split; [now right | exact Hxy].
Qed.

(** X6. The second [updateMasterStatus] that the reassigned [updateStatusUI]
    adds changes nothing: on a page with distinct ids whose master light is
    no row dot, and for a signal set none of whose entries is looked up under
    the id of the master light, the wrapper gives the same outcome and the
    same page as the function it wraps. *)
Theorem wrapper_adds_nothing
    (pm : string -> option string) (health : signal_set) (d : document) :
  NoDup (map el_id d) ->
  (forall e, In e d -> el_id e = "master-status-light" ->
             classList_contains "status-row-dot" e = false) ->
  (forall k v, In (k, v) health -> dotId pm k <> "master-status-light") ->
  updateStatusUI pm health d = originalUpdateStatusUI pm health d.
Proof.
  intros Hd Hml Hk.
  unfold updateStatusUI, originalUpdateStatusUI, JS.bind.
  pose proof (drift_statusLoop pm (dots_of pm health) d health d
                (drifted_refl _ _ d) (fun x Hx => Hx)) as D.
  destruct (JS.forEach health (statusEntry pm) d) as [[u|e] d1]; [|reflexivity].
  simpl in D. rewrite !updateMasterStatus_run.
  rewrite masterPage_idem; [reflexivity| |].
  - rewrite (drifted_ids _ _ _ _ D). exact Hd.
  - intros e1 Hin Hid.
    destruct (Forall2_in_right _ _ _ _ D Hin) as [e0 [Hin0 [Hid0 [Hc _]]]].
    rewrite Hid in Hid0.
    destruct Hc as [Hc|[Hc|[_ Hc]]].
    + rewrite (contains_class_eq _ e1 e0 Hc). apply (Hml e0 Hin0). now symmetry.
    + exfalso. unfold dots_of in Hc. apply in_map_iff in Hc as [[k v] [E Hkv]].
      apply (Hk k v Hkv). simpl in E. congruence.
    + exact Hc.
Qed.

Lemma wrapper_adds_nothing_witness :
  updateStatusUI no_proto degraded board_page
  = originalUpdateStatusUI no_proto degraded board_page.
Proof.
  apply (wrapper_adds_nothing no_proto degraded board_page).
  - nodup_strings.
  - intros e H E; simpl in H.
    repeat (destruct H as [H|H]; [subst e; first [reflexivity | discriminate E]|]).
    contradiction.
  - intros k v H; simpl in H.
    repeat (destruct H as [H|H]; [inversion H; subst; discriminate|]).
    contradiction.
Defined.

(** X7. A status update is safe to repeat: on a page with distinct ids whose
    master light is no row dot, applying a signal set of accepted statuses a
    second time gives the outcome and the page of the first application. *)
Theorem status_update_is_idempotent
    (pm : string -> option string) (health : signal_set) (d : document) :
  NoDup (map el_id d) ->
  (forall e, In e d -> el_id e = "master-status-light" ->
             classList_contains "status-row-dot" e = false) ->
  (forall k v, In (k, v) health -> valid_status v) ->
  updateStatusUI pm health (snd (updateStatusUI pm health d))
  = (Ok tt, snd (updateStatusUI pm health d)).
Proof.
  intros Hd Hml Hv.
  set (light := In "master-status-light" (map el_id d)).
  pose proof (drift_updateStatusUI pm (dots_of pm health) d health d
                (drifted_refl _ _ d) (fun x Hx => Hx)) as D1.
  pose proof (drifted_refl (dots_of pm health) light d) as D2.
  pose proof (drifted_ids _ _ _ _ D1) as I1.
  rewrite (updateStatusUI_valid pm health (snd (updateStatusUI pm health d))) by exact Hv.
  rewrite (updateStatusUI_valid pm health d) at 2 by exact Hv. simpl snd at 2.
  rewrite !loop_page_map by (rewrite ?I1; exact Hd).
  do 2 f_equal.
  apply (masterPage_congr light).
  - rewrite map_restyle_ids, I1. exact Hd.
  - intros Hl. rewrite map_restyle_ids, I1. exact Hl.
  - apply (Forall2_join _ _ _ _ _ _ D1 D2).
    intros e0 e1 e2 Hin H1 H2.
    apply (same_board_after_loop pm health light e0); [|exact H1|exact H2].
    intros E; exact (Hml e0 Hin E).
Qed.

Lemma status_update_is_idempotent_witness :
  updateStatusUI no_proto degraded (snd (updateStatusUI no_proto degraded board_page))
  = (Ok tt, snd (updateStatusUI no_proto degraded board_page)).
Proof.
  apply (status_update_is_idempotent no_proto degraded board_page).
  - nodup_strings.
  - intros e H E; simpl in H.
    repeat (destruct H as [H|H]; [subst e; first [reflexivity | discriminate E]|]).
    contradiction.
  - intros k v H; simpl in H.
    repeat (destruct H as [H|H]; [inversion H; subst; first [now left | now right]|]).
    contradiction.
Defined.

(** ** Grid references and the feed *)

Lemma after_prefix_separator p s c b :
  all_ref p = true -> GridRef.is_ref_char c = false ->
  GridRef.after_prefix p (s ++ String c b)
  = option_map (fun r => r ++ String c b) (GridRef.after_prefix p s).
Proof.
  intros Hp Hc. revert s Hp; induction p as [|a p IH]; intros s Hp; [reflexivity|].
  simpl in Hp. apply andb_prop in Hp as [Ha Hp].
  destruct s as [|x s]; simpl.
  - destruct (Ascii.eqb_spec a c) as [->|]; [congruence | reflexivity].
  - destruct (Ascii.eqb a x); [now apply IH | reflexivity].
Qed.

Lemma span_ref_separator r c b :
  GridRef.is_ref_char c = false ->
  GridRef.span_ref (r ++ String c b)
  = (fst (GridRef.span_ref r), snd (GridRef.span_ref r) ++ String c b).
Proof.
  intros Hc. induction r as [|x r IH]; simpl.
  - now rewrite Hc.
  - destruct (GridRef.is_ref_char x); [|reflexivity].
    rewrite IH. now destruct (GridRef.span_ref r).
Qed.

Lemma match_here_separator s c b :
  GridRef.is_ref_char c = false ->
  GridRef.match_here (s ++ String c b)
  = match GridRef.match_here s with
    | Some (tok, tl) => Some (tok, tl ++ String c b)
    | None => None
    end.
Proof.
  intros Hc. unfold GridRef.match_here.
  rewrite (after_prefix_separator "grid-" s c b eq_refl Hc).
  destruct (GridRef.after_prefix "grid-" s) as [rest|]; [|reflexivity].
  unfold option_map. rewrite (span_ref_separator rest c b Hc).
  destruct (GridRef.span_ref rest) as [[|x run] tl]; reflexivity.
Qed.

Lemma pieces_separator a c b :
  GridRef.is_ref_char c = false ->
  GridRef.pieces (a ++ String c b)
  = (GridRef.pieces a ++ GridRef.Lit c :: GridRef.pieces b)%list.
Proof.
  intros Hc.
  remember (String.length a) as len eqn:El.
  revert a El. induction len as [len IH] using lt_wf_ind. intros a El.
  destruct a as [|x a].
  - simpl append. rewrite pieces_step.
    change (String c b) with ("" ++ String c b).
    rewrite (match_here_separator "" c b Hc). reflexivity.
  - change (String x a ++ String c b) with (String x (a ++ String c b)).
    rewrite pieces_step.
    change (String x (a ++ String c b)) with (String x a ++ String c b).
    rewrite (match_here_separator (String x a) c b Hc), (pieces_step x a).
    destruct (GridRef.match_here (String x a)) as [[tok tl]|] eqn:E.
    + apply match_here_some in E as [[w [_ [_ ->]]] [Es _]].
      simpl. f_equal. apply (IH (String.length tl)); [|reflexivity].
      subst len. rewrite Es, !append_length. simpl. lia.
    + simpl. f_equal. apply (IH (String.length a)); [subst len; simpl; lia | reflexivity].
Qed.

Lemma refs_app ps qs :
  GridRef.refs (ps ++ qs) = (GridRef.refs ps ++ GridRef.refs qs)%list.
Proof.
  induction ps as [|[c|tok] ps IH]; simpl; [reflexivity | exact IH | now rewrite IH].
Qed.

Lemma render_app wrap ps qs :
  GridRef.render wrap (ps ++ qs) = GridRef.render wrap ps ++ GridRef.render wrap qs.
Proof.
  induction ps as [|[c|tok] ps IH]; simpl; [reflexivity | now rewrite IH |].
  now rewrite IH, append_assoc.
Qed.

(** X8. A character that is neither a word character nor a hyphen separates:
    no token runs across it, so the tokens of a text are the tokens of what
    stands before such a character followed by the tokens of what stands
    after it, and the enriched text is put together the same way. *)
Theorem separator_splits_scan (a b : string) (c : ascii) :
  GridRef.is_ref_char c = false ->
  GridRef.tokens (a ++ String c b) = (GridRef.tokens a ++ GridRef.tokens b)%list
  /\ GridRef.enrich (a ++ String c b)
     = GridRef.enrich a ++ String c (GridRef.enrich b).
Proof.
  intros Hc. unfold GridRef.tokens, GridRef.enrich.
  rewrite (pieces_separator a c b Hc). split.
  - rewrite refs_app. reflexivity.
  - rewrite render_app. reflexivity.
Qed.

Lemma separator_splits_scan_witness :
  GridRef.tokens ("near grid-042" ++ String "," " then grid-7-can")
  = (GridRef.tokens "near grid-042" ++ GridRef.tokens " then grid-7-can")%list
  /\ GridRef.enrich ("near grid-042" ++ String "," " then grid-7-can")
     = GridRef.enrich "near grid-042" ++ String "," (GridRef.enrich " then grid-7-can").
Proof.
  apply (separator_splits_scan "near grid-042" " then grid-7-can" ","%char).
  reflexivity.
Defined.

Lemma grid_link_length tok :
  String.length (GridRef.grid_link tok)
  = String.length tok + (String.length tok + link_overhead).
Proof.
  unfold GridRef.grid_link, link_overhead, GridRef.dq. rewrite !append_length.
  cbn [String.length]. lia.
Qed.

Lemma enrich_length_pieces ps :
  String.length (GridRef.render GridRef.grid_link ps)
  = String.length (GridRef.render (fun t => t) ps)
    + list_sum (map (fun t => String.length t + link_overhead) (GridRef.refs ps)).
Proof.
  induction ps as [|[c|tok] ps IH].
  - reflexivity.
  - cbn [GridRef.render GridRef.refs String.length]. rewrite IH. reflexivity.
  - cbn [GridRef.render GridRef.refs map].
    rewrite !append_length, IH, grid_link_length.
    change (list_sum (?x :: ?l)) with (x + list_sum l). lia.
Qed.

Lemma render_no_refs wrap ps :
  GridRef.refs ps = [] -> GridRef.render wrap ps = GridRef.render (fun t => t) ps.
Proof.
  induction ps as [|[c|tok] ps IH]; simpl; intros H;
    [reflexivity | now rewrite IH | discriminate].
Qed.

(** X9. Enriching adds to the detail, for every token, a link of the token's
    length plus 56 characters, and nothing else: the enriched text is as
    long as the detail plus that much per token, and it is the detail itself
    exactly when the detail holds no token. *)
Theorem enrich_adds_one_link_per_token (detail : string) :
  String.length (GridRef.enrich detail)
  = String.length detail
    + list_sum (map (fun t => String.length t + link_overhead) (GridRef.tokens detail))
  /\ (GridRef.enrich detail = detail <-> GridRef.tokens detail = []).
Proof.
  assert (L : String.length (GridRef.enrich detail)
              = String.length detail
                + list_sum (map (fun t => String.length t + link_overhead)
                              (GridRef.tokens detail))).
  { unfold GridRef.enrich, GridRef.tokens.
    rewrite enrich_length_pieces, pieces_partition. reflexivity. }
  split; [exact L|]. split.
  - intros E. rewrite E in L.
    destruct (GridRef.tokens detail) as [|t ts]; [reflexivity|].
    simpl in L. unfold link_overhead in L. lia.
  - intros E. unfold GridRef.enrich, GridRef.tokens in *.
    rewrite (render_no_refs _ _ E). apply pieces_partition.
Qed.

Lemma append_empty (s : string) : s ++ "" = s.
Proof. induction s as [|c s IH]; simpl; [reflexivity | now rewrite IH]. Qed.

Lemma concat_cons (x : string) (xs : list string) :
  String.concat "" (x :: xs) = x ++ String.concat "" xs.
Proof. destruct xs; simpl; [now rewrite append_empty | reflexivity]. Qed.

Lemma feedHtml_all alerts :
  Forall (fun al => a_detail al <> None) alerts ->
  feedHtml alerts = Ok (String.concat "" (map feedItemOf alerts)).
Proof.
  induction 1 as [|al alerts Ha H IH]; [reflexivity|].
  cbn [feedHtml map]. rewrite concat_cons, IH.
  unfold feedEntry, feedItemOf. destruct (a_detail al); [reflexivity | now elim Ha].
Qed.

Lemma feedHtml_throws alerts :
  Exists (fun al => a_detail al = None) alerts ->
  feedHtml alerts = Throw no_detail_error.
Proof.
  induction 1 as [al alerts Ha|al alerts H IH]; cbn [feedHtml]; unfold feedEntry.
  - rewrite Ha. reflexivity.
  - destruct (a_detail al); [now rewrite IH | reflexivity].
Qed.

Lemma modify_by_class_first cls d e :
  querySelector cls d = Some e ->
  exists before after,
    d = (before ++ e :: after)%list
    /\ (forall x, In x before -> classList_contains cls x = false)
    /\ (forall f, modify_by_class cls f d = (before ++ f e :: after)%list).
Proof.
  unfold querySelector. induction d as [|x d IH]; simpl; [discriminate|].
  destruct (classList_contains cls x) eqn:E.
  - intros [= ->]. exists [], d. repeat split. intros y [].
  - intros H. destruct (IH H) as [before [after [-> [Hb Hm]]]].
    exists (x :: before), after. repeat split.
    + intros y [<-|Hy]; [exact E | now apply Hb].
    + intros f. simpl. now rewrite Hm.
Qed.

(** X10. The feed is replaced whole or not at all.  On a page without a
    feed container [updateAlertsFeed] does nothing.  Otherwise it writes to
    the first feed container only: the notice "No active alerts..." for an
    empty list, and for a list of alerts that all have a detail the items of
    the alerts joined in source order; when some alert has no detail it
    throws and leaves the page, the old feed included, exactly as it was. *)
Theorem feed_is_replaced_whole_or_kept (al : list alert) (d : document) :
  (querySelector "feed-container" d = None -> updateAlertsFeed al d = (Ok tt, d))
  /\ (forall feed, querySelector "feed-container" d = Some feed ->
      exists before after,
        d = (before ++ feed :: after)%list
        /\ (forall x, In x before -> classList_contains "feed-container" x = false)
        /\ (al = [] ->
            updateAlertsFeed al d
            = (Ok tt, (before ++ set_text noAlerts feed :: after)%list))
        /\ (al <> [] -> Forall (fun a => a_detail a <> None) al ->
            updateAlertsFeed al d
            = (Ok tt,
               (before
                ++ set_text (String.concat "" (map feedItemOf al)) feed :: after)%list))
        /\ (Exists (fun a => a_detail a = None) al ->
            updateAlertsFeed al d = (Throw no_detail_error, d))).
Proof.
  split.
  - intros E. unfold updateAlertsFeed, JS.bind, JS.get. rewrite E. reflexivity.
  - intros feed E.
    destruct (modify_by_class_first "feed-container" d feed E)
      as [before [after [Hd [Hb Hm]]]].
    exists before, after. split; [exact Hd|]. split; [exact Hb|].
    unfold updateAlertsFeed, JS.bind, JS.get. rewrite E. split; [|split].
    + intros ->. unfold JS.modify. now rewrite Hm.
    + intros Hne Hall. destruct al as [|a al]; [now elim Hne|].
      rewrite (feedHtml_all _ Hall). unfold JS.modify. now rewrite Hm.
    + intros Hex. destruct al as [|a al]; [inversion Hex|].
      rewrite (feedHtml_throws _ Hex). reflexivity.
Qed.

(** ** Loading predictions *)

Section LoadFacts.

Variable geometry : Type.
Variable geoJSON_ok : geometry -> bool.
Variable pm : string -> option string.
Variables port protocol : string.

Implicit Types (s st : state geometry) (r : region geometry).

Lemma renderable_dec r : {renderable geoJSON_ok r} + {~ renderable geoJSON_ok r}.
Proof.
  unfold renderable. destruct (r_properties r) as [p|].
  - destruct (geoJSON_ok (r_geometry r)).
    + left. split; [discriminate | reflexivity].
    + right. intros [_ H]. discriminate.
  - right. intros [H _]. now apply H.
Qed.

Lemma renderRegion_bad r s :
  ~ renderable geoJSON_ok r ->
  renderRegion geoJSON_ok r s = (Throw (render_error r), s).
Proof.
  unfold renderable, renderRegion, render_error. intros H.
  destruct (r_properties r) as [p|]; [|reflexivity].
  destruct (geoJSON_ok (r_geometry r)); [|reflexivity].
  exfalso. apply H. split; [discriminate | reflexivity].
Qed.

(** The rendering stops at the first region it cannot render. *)
Lemma renderRiskPolygons_stops good bad rest s :
  (forall r, In r good -> renderable geoJSON_ok r) ->
  ~ renderable geoJSON_ok bad ->
  exists new,
    renderRiskPolygons geoJSON_ok (Some (good ++ bad :: rest)%list) s
    = (Throw (render_error bad), with_overlay (risk_overlay s ++ new)%list s)
    /\ Forall2 shows good new.
Proof.
  intros Hgood Hbad. revert s; induction good as [|r good IH]; intros s.
  - exists []. split; [|constructor]. simpl. unfold JS.bind.
    rewrite (renderRegion_bad bad s Hbad). rewrite app_nil_r. now destruct s.
  - destruct (Hgood r (or_introl eq_refl)) as [Hp Hg].
    destruct (r_properties r) as [props|] eqn:Ep; [|now elim Hp].
    destruct (IH (fun r' H' => Hgood r' (or_intror H'))
                 (add_layer (geoLayer r props) s)) as [new [E HF]].
    exists (geoLayer r props :: new). split.
    + simpl in *. unfold JS.bind, renderRegion at 1. rewrite Ep, Hg.
      unfold JS.modify. rewrite E. f_equal. unfold with_overlay; simpl.
      now rewrite <- app_assoc.
    + constructor; [|exact HF]. repeat split. simpl. now symmetry.
Qed.

(** A batch splits at its first region that cannot be rendered, if any. *)
Lemma first_bad_region (rs : list (region geometry)) :
  (forall r, In r rs -> renderable geoJSON_ok r)
  \/ exists good bad rest,
       rs = (good ++ bad :: rest)%list
       /\ (forall r, In r good -> renderable geoJSON_ok r)
       /\ ~ renderable geoJSON_ok bad.
Proof.
  induction rs as [|r rs IH]; [left; intros r []|].
  destruct (renderable_dec r) as [Hr|Hr].
  - destruct IH as [IH|[good [bad [rest [-> [Hg Hb]]]]]].
    + left. intros r' [<-|H']; auto.
    + right. exists (r :: good), bad, rest.
      split; [reflexivity|]. split; [|exact Hb].
      intros r' [<-|H']; auto.
  - right. exists [], r, rs.
    split; [reflexivity|]. split; [intros r' []|exact Hr].
Qed.

Lemma catch_of_load (error : exn) s :
  (JS.modify (log (ErrorLog "Failed to load AI Layer:" error)) ;;;
   on_page (updateStatusUI pm degraded)) s
  = (Ok tt,
     with_page (snd (updateStatusUI pm degraded (page s)))
       (log (ErrorLog "Failed to load AI Layer:" error) s)).
Proof.
  unfold JS.bind, JS.modify, on_page, JS.zoom. simpl.
  rewrite degraded_page. reflexivity.
Qed.

End LoadFacts.

(** X11. [loadAILayer] never rejects: whatever the response - no response,
    a bad status, a body that does not parse, a body of any shape - and
    whatever the state, the call returns normally, every throw of its [try]
    block ending in the [catch], which cannot throw itself. *)
Theorem loadAILayer_never_rejects
    (geometry : Type) (geoJSON_ok : geometry -> bool)
    (pm : string -> option string) (port protocol : string)
    (resp : response (predict_data geometry)) (st : state geometry) :
  fst (loadAILayer geoJSON_ok pm port protocol resp st) = Ok tt.
Proof.
  unfold loadAILayer, JS.tryCatch.
  match goal with
  | |- context [match ?body st with _ => _ end] =>
      destruct (body st) as [[[]|e] s']
  end; [reflexivity|].
  rewrite catch_of_load. reflexivity.
Qed.

(** X12. A region the code cannot render (no [properties], or a geometry
    Leaflet refuses) stops the whole load where it stands in the batch: the
    regions before it are on the map, the regions behind it are not, the
    alerts of the same response are not shown and the side panel is not
    asked to show anything; the error is logged and the status board gets
    the degraded set, as after a failed fetch. *)
Theorem load_stops_at_first_bad_region
    (geometry : Type) (geoJSON_ok : geometry -> bool)
    (pm : string -> option string) (port protocol : string)
    (data : predict_data geometry)
    (good : list (region geometry)) (bad : region geometry)
    (rest : list (region geometry)) (st : state geometry) :
  regions data = Some (good ++ bad :: rest)%list ->
  (forall r, In r good -> renderable geoJSON_ok r) ->
  ~ renderable geoJSON_ok bad ->
  let st' := snd (loadAILayer geoJSON_ok pm port protocol (Body data) st) in
  exists new,
    risk_overlay st' = (risk_overlay st ++ new)%list
    /\ Forall2 shows good new
    /\ panel_queue st' = panel_queue st
    /\ page st' = snd (updateStatusUI pm degraded (page st))
    /\ console st'
       = (console st
          ++ [Log "Fetching AI Predictions from Hybrid Backend...";
              Log ("Fetching AI Predictions from: " ++ apiUrl port protocol "/predict");
              ErrorLog "Failed to load AI Layer:" (render_error bad)])%list.
Proof.
  intros Hr Hgood Hbad st'. subst st'.
  rewrite loadAILayer_body.
  set (s2 := log (Log ("Fetching AI Predictions from: " ++ apiUrl port protocol "/predict"))
               (log (Log "Fetching AI Predictions from Hybrid Backend...") st)).
  destruct (renderRiskPolygons_stops geometry geoJSON_ok good bad rest s2 Hgood Hbad)
    as [new [E HF]].
  rewrite <- Hr in E. unfold showPredictions.
  rewrite (tryCatch_thrown _ _ _ _ _ _ E), catch_of_load.
  exists new. simpl. rewrite <- !app_assoc. repeat split; try reflexivity. exact HF.
Qed.

Lemma load_stops_at_first_bad_region_witness :
  let bad : region unit := {| id := Some "grid-B"; r_geometry := tt; r_properties := None |} in
  let st' :=
    snd (loadAILayer any_geometry no_proto "8080" "http:"
           (Body {| regions := Some [sample_region (Some "grid-A") 0.9; bad;
                                     sample_region (Some "grid-C") 0.1];
                    alerts := Some []; metadata_health := None |})
           (startup app_page)) in
  map regionId (risk_overlay st') = [Some "grid-A"]
  /\ panel_queue st' = []
  /\ master_status (page st') = (Some ["status-dot"; "red"], Some "System Offline")
  /\ querySelector "feed-container" (page st')
     = querySelector "feed-container" app_page.
Proof.
  intros bad st'.
  destruct (load_stops_at_first_bad_region unit any_geometry no_proto "8080" "http:"
              {| regions := Some [sample_region (Some "grid-A") 0.9; bad;
                                  sample_region (Some "grid-C") 0.1];
                 alerts := Some []; metadata_health := None |}
              [sample_region (Some "grid-A") 0.9] bad
              [sample_region (Some "grid-C") 0.1] (startup app_page))
    as [new [H1 [H2 [H3 [H4 _]]]]].
  - reflexivity.
  - intros r [<-|[]]. split; [discriminate | reflexivity].
  - intros [H _]. now apply H.
  - repeat split; reflexivity.
Defined.

Section CompletedLoad.

Variable geometry : Type.
Variable geoJSON_ok : geometry -> bool.
Variable pm : string -> option string.

Lemma on_page_run {A} (m : JS.M document A) (s : state geometry) :
  on_page m s = (fst (m (page s)), with_page (snd (m (page s))) s).
Proof. unfold on_page, JS.zoom. now destruct (m (page s)). Qed.

Lemma modify_by_class_ids cls f d :
  keeps_id f -> map el_id (modify_by_class cls f d) = map el_id d.
Proof.
  intros Hf; induction d as [|e d IH]; simpl; [reflexivity|].
  destruct (classList_contains cls e); simpl; [rewrite Hf | rewrite IH]; reflexivity.
Qed.

End CompletedLoad.

(** X13. When the [try] block of [loadAILayer] runs to its end, on alerts
    that bring no markup of their own (so that the feed holds the elements
    of the item template only, none of which the script ever looks up), the
    whole batch is on the map behind the layers that were there, every region
    of it having rendered; the side panel has been asked for the properties
    of the first region of the batch (for nothing when the batch is empty);
    nothing has been logged; and map focus and infrastructure markers are
    untouched. *)
Theorem completed_load_shows_whole_batch
    (geometry : Type) (geoJSON_ok : geometry -> bool)
    (pm : string -> option string)
    (data : predict_data geometry) (s s' : state geometry) :
  (forall al, alerts data = Some al -> Forall plain_alert al) ->
  showPredictions geoJSON_ok pm data s = (Ok tt, s') ->
  exists rs new,
    regions data = Some rs
    /\ (forall r, In r rs -> renderable geoJSON_ok r)
    /\ risk_overlay s' = (risk_overlay s ++ new)%list
    /\ Forall2 shows rs new
    /\ panel_queue s' = (panel_queue s ++ first_panel (regions data))%list
    /\ console s' = console s
    /\ focus s' = focus s
    /\ infrastructure s' = infrastructure s.
Proof.
  intros _ H. unfold showPredictions in H.
  destruct (regions data) as [rs|] eqn:Er; [|discriminate H].
  destruct (first_bad_region geometry geoJSON_ok rs)
    as [Hall|[good [bad [rest [-> [Hg Hb]]]]]].
  2: { destruct (renderRiskPolygons_stops geometry geoJSON_ok good bad rest s Hg Hb)
         as [new [E _]].
       unfold JS.bind in H. rewrite E in H. discriminate H. }
  destruct (renderRiskPolygons_all geometry geoJSON_ok rs s Hall) as [new [E HF]].
  exists rs, new. split; [reflexivity|]. split; [exact Hall|].
  unfold JS.bind at 1 in H. rewrite E in H.
  set (s1 := with_overlay (risk_overlay s ++ new)%list s) in *.
  unfold JS.bind at 1 in H.
  assert (exists p1, (match alerts data with
                      | Some al => on_page (updateAlertsFeed al)
                      | None => JS.ret tt
                      end) s1 = (fst ((match alerts data with
                      | Some al => on_page (updateAlertsFeed al)
                      | None => JS.ret tt
                      end) s1), with_page p1 s1)) as [p1 E1].
  { destruct (alerts data) as [al|].
    - exists (snd (updateAlertsFeed al (page s1))). rewrite on_page_run. reflexivity.
    - exists (page s1). now destruct s. }
  rewrite E1 in H.
  destruct (fst _) as [[]|e] in H; [|discriminate H].
  unfold JS.bind at 1 in H.
  set (s2 := with_page p1 s1) in *.
  assert (exists q, (match rs with
                     | r :: _ => updateSidePanel (r_properties r)
                     | [] => JS.ret tt
                     end) s2
                    = (match q with
                       | Some _ => Ok tt
                       | None => Throw (TypeError "Cannot read properties of null (reading 'style')")
                       end,
                       match q with
                       | Some (Some p) => queue_panel p s2
                       | _ => s2
                       end)
                    /\ (forall p, q = Some (Some p) -> first_panel (Some rs) = [p])
                    /\ (q = Some None -> first_panel (Some rs) = []))
    as [q [E2 [Q1 Q2]]].
  { destruct rs as [|r rs'].
    - exists (Some None). repeat split; try reflexivity; discriminate.
    - unfold updateSidePanel, JS.bind, JS.get.
      destruct (getElementById "prediction-content" (page s2)) as [el|] eqn:Eg.
      + exists (Some (Some (r_properties r))). split; [reflexivity|].
        split; [|discriminate]. intros p [= <-]. reflexivity.
      + exists None. split; [reflexivity|]. split; discriminate. }
  rewrite E2 in H. destruct q as [q|]; [|discriminate H].
  set (s3 := match q with Some p => queue_panel p s2 | None => s2 end) in *.
  assert (Hq : panel_queue s3 = (panel_queue s ++ first_panel (Some rs))%list).
  { destruct q as [p|].
    - rewrite (Q1 p eq_refl). reflexivity.
    - rewrite (Q2 eq_refl). simpl. now rewrite app_nil_r. }
  assert (Hs' : exists p3, s' = with_page p3 s3).
  { destruct (metadata_health data) as [health|].
    - rewrite on_page_run in H. inversion H. now eexists.
    - inversion H. exists (page s3). now destruct s3. }
  destruct Hs' as [p3 ->].
  split; [destruct q; reflexivity|]. split; [exact HF|].
  split; [exact Hq|].
  split; [destruct q; reflexivity|].
  split; destruct q; reflexivity.
Qed.

Lemma completed_load_shows_whole_batch_witness :
  let data : predict_data unit :=
    {| regions := Some [sample_region (Some "grid-A") 0.9; sample_region (Some "grid-B") 0.3];
       alerts := Some [ {| a_type := "CRITICAL"; a_title := "Breach";
                           a_detail := Some "near grid-A"; a_timestamp := "now" |} ];
       metadata_health := Some [("us_data", "green")] |} in
  let s' := snd (showPredictions any_geometry no_proto data (startup app_page)) in
  exists rs new,
    regions data = Some rs
    /\ (forall r, In r rs -> renderable any_geometry r)
    /\ risk_overlay s' = (risk_overlay (startup (geometry := unit) app_page) ++ new)%list
    /\ Forall2 shows rs new
    /\ panel_queue s'
       = (panel_queue (startup (geometry := unit) app_page)
          ++ first_panel (regions data))%list
    /\ console s' = console (startup (geometry := unit) app_page)
    /\ focus s' = focus (startup (geometry := unit) app_page)
    /\ infrastructure s' = infrastructure (startup (geometry := unit) app_page).
Proof.
  intros data s'.
  apply (completed_load_shows_whole_batch unit any_geometry no_proto data
           (startup app_page) s').
  - intros al [= <-]. repeat constructor.
  - reflexivity.
Defined.

(** ** Links and layers *)

Lemma findLayer_app {geometry : Type} (tok : string)
    (stale fresh : list (layer geometry)) :
  findLayer tok (stale ++ fresh)%list
  = match findLayer tok fresh with
    | Some l => Some l
    | None => findLayer tok stale
    end.
Proof.
  induction fresh as [|l fresh IH] using rev_ind.
  - now rewrite app_nil_r.
  - rewrite app_assoc, !findLayer_snoc, IH.
    destruct (has_id tok l); reflexivity.
Qed.

(** X14. Which region a link reaches after a batch has been rendered: when
    the batch has regions with the identifier of the link, the link reaches
    the layer of the last of them, never a layer that was on the map before;
    when the batch has none, the link reaches what it reached before, a
    layer of an earlier batch if there was one. *)
Theorem link_reaches_last_region_of_batch
    (geometry : Type) (geoJSON_ok : geometry -> bool)
    (rs : list (region geometry)) (tok : string) (st : state geometry) :
  (forall r, In r rs -> renderable geoJSON_ok r) ->
  let st' := snd (renderRiskPolygons geoJSON_ok (Some rs) st) in
  ((forall r, In r rs -> id r <> Some tok) ->
   findLayer tok (risk_overlay st') = findLayer tok (risk_overlay st))
  /\ (forall before r after,
        rs = (before ++ r :: after)%list ->
        id r = Some tok ->
        (forall r', In r' after -> id r' <> Some tok) ->
        exists l, findLayer tok (risk_overlay st') = Some l /\ shows r l).
Proof.
  intros Hall st'. subst st'.
  destruct (renderRiskPolygons_all geometry geoJSON_ok rs st Hall) as [new [E HF]].
  rewrite E. simpl snd. change (risk_overlay (with_overlay ?o ?s)) with o.
  rewrite findLayer_app.
  assert (N : forall rs0 new0, Forall2 shows rs0 new0 ->
                (forall r, In r rs0 -> id r <> Some tok) ->
                forall l : layer geometry, In l new0 -> has_id tok l = false).
  { intros rs0 new0 HF0 Hno l Hin.
    destruct (Forall2_in_right _ _ _ _ HF0 Hin) as [r [Hr [Hid _]]].
    destruct (has_id tok l) eqn:Eh; [|reflexivity].
    apply has_id_true in Eh. rewrite Hid in Eh. now elim (Hno r Hr). }
  split.
  - intros Hno.
    assert (findLayer tok new = None) as ->
      by (apply findLayer_none; exact (N rs new HF Hno)).
    reflexivity.
  - intros before r after -> Hid Hafter.
    apply Forall2_app_inv_l in HF as [nb [na' [_ [HF' ->]]]].
    inversion HF' as [|? l ? na Hs HFa]; subst.
    exists l. split; [|exact Hs].
    assert (findLayer tok (nb ++ l :: na)%list = Some l) as ->; [|reflexivity].
    apply findLayer_some. exists nb, na. split; [reflexivity|]. split.
    + apply has_id_true. destruct Hs as [-> _]. exact Hid.
    + exact (N after na HFa Hafter).
Qed.

Lemma link_reaches_last_region_of_batch_witness :
  let st' :=
    snd (renderRiskPolygons any_geometry
           (Some [sample_region (Some "grid-A") 0.2; sample_region (Some "grid-B") 0.6;
                  sample_region (Some "grid-A") 0.9]) loaded) in
  (exists l, findLayer "grid-A" (risk_overlay st') = Some l
             /\ shows (sample_region (Some "grid-A") 0.9) l)
  /\ findLayer "grid-Z" (risk_overlay st') = findLayer "grid-Z" (risk_overlay loaded).
Proof.
  intros st'.
  destruct (link_reaches_last_region_of_batch unit any_geometry
              [sample_region (Some "grid-A") 0.2; sample_region (Some "grid-B") 0.6;
               sample_region (Some "grid-A") 0.9] "grid-A" loaded) as [_ H].
  { intros r Hr; simpl in Hr.
    repeat (destruct Hr as [Hr|Hr]; [subst r; split; [discriminate | reflexivity]|]).
    contradiction. }
  split.
  - apply (H [sample_region (Some "grid-A") 0.2; sample_region (Some "grid-B") 0.6]
             (sample_region (Some "grid-A") 0.9) []); [reflexivity | reflexivity |].
    intros r' [].
  - reflexivity.
Defined.

(** ** Infrastructure markers *)

Ltac split_string t :=
  destruct t as [|[[] [] [] [] [] [] [] []] t]; try reflexivity.

Lemma fc_match (fc : option string) (A : Type) (a b : A) :
  match fc with Some "No" => a | _ => b end
  = if match fc with Some f => f =? "No" | None => false end then a else b.
Proof.
  destruct fc as [f|]; [|reflexivity].
  do 3 split_string f.
Qed.

Lemma type_match (ty fc : option string) :
  match ty with
  | Some "treatment" => ("#ec4899", 4, Treatments)
  | Some "trapping" => ("#facc15", 6, Trapping)
  | Some "barrier" =>
      match fc with
      | Some "No" => ("#f87171", 5, Barriers)
      | _ => ("#38bdf8", 5, Barriers)
      end
  | _ => ("#38bdf8", 5, Barriers)
  end = point_style ty fc.
Proof.
  unfold point_style. rewrite fc_match.
  destruct ty as [t|]; [|reflexivity].
  do 10 split_string t.
Qed.

Section PointFacts.

Variable geometry : Type.
Implicit Types (s st : state geometry) (pt : point).

(** The loop body of [loadInfrastructure], as one case analysis. *)
Lemma renderPoint_run pt s :
  renderPoint pt s =
  match pt_lat pt, pt_lon pt, pt_type pt with
  | Some lat, Some lon, Some _ =>
      (Ok tt,
       add_marker {| m_latlng := (lat, lon);
                     m_radius := snd (fst (point_style (pt_type pt) (pt_fc pt)));
                     m_color := fst (fst (point_style (pt_type pt) (pt_fc pt)));
                     m_group := snd (point_style (pt_type pt) (pt_fc pt));
                     m_point := pt |} s)
  | _, _, _ => (Throw (point_error pt), s)
  end.
Proof.
  unfold renderPoint, point_error. rewrite type_match.
  destruct (point_style (pt_type pt) (pt_fc pt)) as [[c r] g].
  destruct (pt_lat pt), (pt_lon pt), (pt_type pt); reflexivity.
Qed.

Lemma renderPoint_drawable pt s :
  drawable pt ->
  exists m, renderPoint pt s = (Ok tt, add_marker m s) /\ m_point m = pt.
Proof.
  intros [Ha [Ho Ht]]. rewrite renderPoint_run.
  destruct (pt_lat pt); [|now elim Ha]. destruct (pt_lon pt); [|now elim Ho].
  destruct (pt_type pt); [|now elim Ht]. eexists. split; reflexivity.
Qed.

Lemma renderPoint_bad pt s :
  ~ drawable pt -> renderPoint pt s = (Throw (point_error pt), s).
Proof.
  intros H. rewrite renderPoint_run.
  destruct (pt_lat pt) eqn:Ea, (pt_lon pt) eqn:Eo, (pt_type pt) eqn:Et; try reflexivity.
  exfalso. apply H. unfold drawable. rewrite Ea, Eo, Et. repeat split; discriminate.
Qed.

Lemma renderPoints_all (pts : list point) s :
  (forall pt, In pt pts -> drawable pt) ->
  exists ms,
    JS.forEach pts renderPoint s
    = (Ok tt, with_infrastructure (infrastructure s ++ ms)%list s)
    /\ map m_point ms = pts.
Proof.
  revert s; induction pts as [|pt pts IH]; intros s H.
  - exists []. split; [|reflexivity]. simpl. rewrite app_nil_r. now destruct s.
  - destruct (renderPoint_drawable pt s (H pt (or_introl eq_refl))) as [m [Em Hm]].
    destruct (IH (add_marker m s) (fun p Hp => H p (or_intror Hp))) as [ms [E Hms]].
    exists (m :: ms). split; [|simpl; now rewrite Hm, Hms].
    simpl. unfold JS.bind. rewrite Em, E. f_equal.
    unfold with_infrastructure; simpl. now rewrite <- app_assoc.
Qed.

Lemma renderPoints_stop (good : list point) bad rest s :
  (forall pt, In pt good -> drawable pt) -> ~ drawable bad ->
  exists ms,
    JS.forEach (good ++ bad :: rest)%list renderPoint s
    = (Throw (point_error bad), with_infrastructure (infrastructure s ++ ms)%list s)
    /\ map m_point ms = good.
Proof.
  intros Hgood Hbad. revert s; induction good as [|pt good IH]; intros s.
  - exists []. split; [|reflexivity]. simpl. unfold JS.bind.
    rewrite (renderPoint_bad bad s Hbad). rewrite app_nil_r. now destruct s.
  - destruct (renderPoint_drawable pt s (Hgood pt (or_introl eq_refl))) as [m [Em Hm]].
    destruct (IH (fun p Hp => Hgood p (or_intror Hp)) (add_marker m s)) as [ms [E Hms]].
    exists (m :: ms). split; [|simpl; now rewrite Hm, Hms].
    simpl. unfold JS.bind. rewrite Em, E. f_equal.
    unfold with_infrastructure; simpl. now rewrite <- app_assoc.
Qed.

End PointFacts.

(** X15. How a point is drawn.  A point with coordinates and a type gets
    one marker, at its coordinates: pink, radius 4, in the treatments group
    for the type [treatment]; yellow, radius 6, in the trapping group for
    [trapping]; in the barriers group with radius 5 for every other type,
    unknown ones included - red when the type is [barrier] and the control
    flag is [No], blue otherwise (so a point of another type is drawn as a
    control barrier even with the flag [No]). *)
Theorem point_marker_by_type
    (geometry : Type) (pt : point) (lat lon : float) (ty : string)
    (st : state geometry) :
  pt_lat pt = Some lat -> pt_lon pt = Some lon -> pt_type pt = Some ty ->
  exists m,
    renderPoint pt st = (Ok tt, add_marker m st)
    /\ m_point m = pt /\ m_latlng m = (lat, lon)
    /\ (ty = "treatment" ->
        m_group m = Treatments /\ m_color m = "#ec4899" /\ m_radius m = 4)
    /\ (ty = "trapping" ->
        m_group m = Trapping /\ m_color m = "#facc15" /\ m_radius m = 6)
    /\ (ty = "barrier" -> pt_fc pt = Some "No" ->
        m_group m = Barriers /\ m_color m = "#f87171" /\ m_radius m = 5)
    /\ (ty <> "treatment" -> ty <> "trapping" ->
        ~ (ty = "barrier" /\ pt_fc pt = Some "No") ->
        m_group m = Barriers /\ m_color m = "#38bdf8" /\ m_radius m = 5).
Proof.
  intros Ha Ho Ht. rewrite renderPoint_run, Ha, Ho, Ht.
  eexists. split; [reflexivity|]. split; [reflexivity|]. split; [reflexivity|].
  simpl m_group; simpl m_color; simpl m_radius. unfold point_style.
  split; [|split; [|split]].
  - intros ->. repeat split.
  - intros ->. repeat split.
  - intros -> ->. repeat split.
  - intros H1 H2 H3.
    destruct (String.eqb_spec ty "treatment") as [|_]; [contradiction|].
    destruct (String.eqb_spec ty "trapping") as [|_]; [contradiction|].
    destruct (String.eqb_spec ty "barrier") as [E|_]; [|repeat split].
    destruct (pt_fc pt) as [f|]; [|repeat split].
    destruct (String.eqb_spec f "No") as [->|_]; [|repeat split].
    exfalso. apply H3. now split.
Qed.

Lemma point_marker_by_type_witness :
  exists m,
    renderPoint (sample_point (Some "weir") (Some "No")) (startup (geometry := unit) [])
    = (Ok tt, add_marker m (startup []))
    /\ m_group m = Barriers /\ m_color m = "#38bdf8" /\ m_radius m = 5.
Proof.
  destruct (point_marker_by_type unit (sample_point (Some "weir") (Some "No"))
              44.5%float (-84.2)%float "weir" (startup []) eq_refl eq_refl eq_refl)
    as [m [E [_ [_ [_ [_ [_ H]]]]]]].
  exists m. split; [exact E|].
  apply H; [discriminate | discriminate | intros [F _]; discriminate].
Defined.

(** X16. A body whose points all have coordinates and a type is drawn
    whole: the load adds one marker per point behind the markers that were
    there, in source order, and logs the fetch line and nothing else. *)
Theorem infrastructure_batch_is_drawn_whole
    (geometry : Type) (port protocol : string)
    (pts : list point) (st : state geometry) :
  (forall pt, In pt pts -> drawable pt) ->
  let st' := snd (loadInfrastructure port protocol (Body (Some pts)) st) in
  exists ms,
    infrastructure st' = (infrastructure st ++ ms)%list
    /\ map m_point ms = pts
    /\ console st'
       = (console st
          ++ [Log ("Fetching GLFC Infrastructure from: "
                   ++ apiUrl port protocol "/infrastructure")])%list.
Proof.
  intros Hall st'. subst st'.
  set (s1 := log (Log ("Fetching GLFC Infrastructure from: "
                       ++ apiUrl port protocol "/infrastructure")) st).
  destruct (renderPoints_all geometry pts s1 Hall) as [ms [E Hms]].
  exists ms. unfold loadInfrastructure, JS.tryCatch, JS.bind, JS.modify.
  fold s1. rewrite E. simpl. repeat split. exact Hms.
Qed.

Lemma infrastructure_batch_is_drawn_whole_witness :
  let st' :=
    snd (loadInfrastructure "8080" "http:"
           (Body (Some [sample_point (Some "barrier") (Some "No");
                        sample_point (Some "trapping") None]))
           (startup (geometry := unit) board_page)) in
  map m_group (infrastructure st') = [Barriers; Trapping]
  /\ map m_color (infrastructure st') = ["#f87171"; "#facc15"]
  /\ List.length (console st') = 1.
Proof.
  intros st'.
  destruct (infrastructure_batch_is_drawn_whole unit "8080" "http:"
              [sample_point (Some "barrier") (Some "No");
               sample_point (Some "trapping") None] (startup board_page))
    as [ms [H1 [H2 H3]]].
  { intros pt Hp; simpl in Hp.
    repeat (destruct Hp as [Hp|Hp]; [subst pt; repeat split; discriminate|]).
    contradiction. }
  fold st' in H3. rewrite H3. repeat split; reflexivity.
Defined.

(** X17. A point that has its coordinates but no type stops the
    infrastructure load where it stands: reading [pt.type.charAt] for the
    popup text throws before the marker is added.  The points before it keep
    their markers, the points behind it get none, and the error is logged
    after the fetch line. *)
Theorem infrastructure_stops_at_point_without_type
    (geometry : Type) (port protocol : string)
    (good : list point) (bad : point) (rest : list point) (lat lon : float)
    (st : state geometry) :
  (forall pt, In pt good -> drawable pt) ->
  pt_lat bad = Some lat -> pt_lon bad = Some lon -> pt_type bad = None ->
  let st' :=
    snd (loadInfrastructure port protocol (Body (Some (good ++ bad :: rest)%list)) st) in
  exists ms,
    infrastructure st' = (infrastructure st ++ ms)%list
    /\ map m_point ms = good
    /\ console st'
       = (console st
          ++ [Log ("Fetching GLFC Infrastructure from: "
                   ++ apiUrl port protocol "/infrastructure");
              ErrorLog "Infrastructure loading failed:"
                (TypeError "Cannot read properties of undefined (reading 'charAt')")])%list.
Proof.
  intros Hgood Ha Ho Ht st'. subst st'.
  set (s1 := log (Log ("Fetching GLFC Infrastructure from: "
                       ++ apiUrl port protocol "/infrastructure")) st).
  assert (Hbad : ~ drawable bad) by (intros [_ [_ H]]; now apply H).
  destruct (renderPoints_stop geometry good bad rest s1 Hgood Hbad) as [ms [E Hms]].
  exists ms. unfold loadInfrastructure, JS.tryCatch, JS.bind, JS.modify.
  fold s1. rewrite E. unfold point_error. rewrite Ha, Ho.
  simpl. rewrite <- app_assoc. repeat split. exact Hms.
Qed.

Lemma infrastructure_stops_at_point_without_type_witness :
  let st' :=
    snd (loadInfrastructure "8080" "http:"
           (Body (Some [sample_point (Some "treatment") None;
                        sample_point None None;
                        sample_point (Some "barrier") None]))
           (startup (geometry := unit) board_page)) in
  map m_group (infrastructure st') = [Treatments]
  /\ console st'
     = [Log "Fetching GLFC Infrastructure from: http://127.0.0.1:8000/infrastructure";
        ErrorLog "Infrastructure loading failed:"
          (TypeError "Cannot read properties of undefined (reading 'charAt')")].
Proof.
  intros st'.
  destruct (infrastructure_stops_at_point_without_type unit "8080" "http:"
              [sample_point (Some "treatment") None] (sample_point None None)
              [sample_point (Some "barrier") None] 44.5%float (-84.2)%float
              (startup board_page))
    as [ms [H1 [H2 H3]]].
  { intros pt [<-|[]]. repeat split; discriminate. }
  { reflexivity. }
  { reflexivity. }
  { reflexivity. }
  split; [reflexivity | exact H3].
Defined.

(** ** Collapsible panels *)

Lemma has_class_in tok cl : has_class tok cl = true <-> In tok cl.
Proof.
  unfold has_class. rewrite existsb_exists. split.
  - intros [x [Hx E]]. apply String.eqb_eq in E. now subst x.
  - intros H. exists tok. split; [exact H | apply String.eqb_refl].
Qed.

Lemma in_classList_add tok cl c : In c (classList_add tok cl) <-> c = tok \/ In c cl.
Proof.
  unfold classList_add. destruct (existsb (String.eqb tok) cl) eqn:E.
  - split; [now right|]. intros [->|H]; [|exact H].
    now apply has_class_in.
  - rewrite in_app_iff. simpl. split; [intros [H|[H|[]]]; auto | intros [H|H]; auto].
Qed.

Lemma in_classList_remove tok cl c :
  In c (classList_remove tok cl) <-> c <> tok /\ In c cl.
Proof.
  unfold classList_remove. rewrite filter_In.
  destruct (String.eqb_spec c tok) as [E|E]; simpl; split.
  - intros [_ H]. discriminate.
  - intros [H _]. contradiction.
  - intros [H _]. now split.
  - intros [_ H]. now split.
Qed.

Lemma has_class_add tok cl : has_class tok (classList_add tok cl) = true.
Proof. apply has_class_in, in_classList_add. now left. Qed.

Lemma has_class_remove tok cl : has_class tok (classList_remove tok cl) = false.
Proof.
  destruct (has_class tok (classList_remove tok cl)) eqn:E; [|reflexivity].
  apply has_class_in, in_classList_remove in E. now destruct E as [E _].
Qed.

Lemma same_other_add cl : same_other_classes cl (classList_add "collapsed" cl).
Proof. intros c Hc. rewrite in_classList_add. split; [intros [H|H]; [contradiction|exact H] | now right]. Qed.

Lemma same_other_remove cl : same_other_classes cl (classList_remove "collapsed" cl).
Proof. intros c Hc. rewrite in_classList_remove. split; [now intros [_ H] | now split]. Qed.

Lemma same_other_refl cl : same_other_classes cl cl.
Proof. intros c _. reflexivity. Qed.

Lemma same_other_trans cl1 cl2 cl3 :
  same_other_classes cl1 cl2 -> same_other_classes cl2 cl3 -> same_other_classes cl1 cl3.
Proof. intros H1 H2 c Hc. rewrite (H2 c Hc). exact (H1 c Hc). Qed.

(** X18. [togglePanel] leaves the panel in the state asked for - collapsed
    or open as forced, the opposite of what it was when nothing is forced -
    with the chevron to match (down when collapsed, up when open) and with
    its other classes as they were; two calls without force bring the panel
    back to the state it was in. *)
Theorem togglePanel_sets_state_and_chevron (force : option bool) (p : panel) :
  let target := match force with Some b => b | None => negb (collapsed p) end in
  collapsed (togglePanel force p) = target
  /\ p_points (togglePanel force p) = (if target then chevronDown else chevronUp)
  /\ same_other_classes (p_class p) (p_class (togglePanel force p))
  /\ collapsed (togglePanel None (togglePanel None p)) = collapsed p
  /\ same_other_classes (p_class p) (p_class (togglePanel None (togglePanel None p))).
Proof.
  assert (T : forall f q,
             collapsed (togglePanel f q)
             = match f with Some b => b | None => negb (collapsed q) end
             /\ p_points (togglePanel f q)
                = (if match f with Some b => b | None => negb (collapsed q) end
                   then chevronDown else chevronUp)
             /\ same_other_classes (p_class q) (p_class (togglePanel f q))).
  { intros f q. unfold togglePanel, collapsed.
    destruct (match f with Some b => b | None => negb (has_class "collapsed" (p_class q)) end);
      simpl; (split; [|split; [reflexivity|]]).
    - apply has_class_add.
    - apply same_other_add.
    - apply has_class_remove.
    - apply same_other_remove. }
  intros target. subst target.
  destruct (T force p) as [H1 [H2 H3]].
  destruct (T None p) as [A1 [_ A3]].
  destruct (T None (togglePanel None p)) as [B1 [_ B3]].
  split; [exact H1|]. split; [exact H2|]. split; [exact H3|]. split.
  - rewrite B1, A1. apply negb_involutive.
  - exact (same_other_trans _ _ _ A3 B3).
Qed.

Lemma handleResize_panel (small : bool) (p : panel) :
  let p' := if small
            then (if negb (has_class "collapsed" (p_class p))
                  then togglePanel (Some true) p else p)
            else (if has_class "collapsed" (p_class p)
                  then togglePanel (Some false) p else p) in
  collapsed p' = small
  /\ same_other_classes (p_class p) (p_class p')
  /\ (collapsed p = small -> p' = p).
Proof.
  unfold collapsed, togglePanel.
  destruct small, (has_class "collapsed" (p_class p)) eqn:E; simpl;
    (split; [|split]); try exact E; try apply same_other_refl;
    try reflexivity; try discriminate.
  - apply has_class_add.
  - apply same_other_add.
  - apply has_class_remove.
  - apply same_other_remove.
Qed.

(** X19. A resize decides the panels by the window alone: after
    [handleResize] the sidebar and the status board are both collapsed when
    the window is at most 768 wide or at most 700 high and both open
    otherwise, whatever they were - a panel the user had toggled is put back
    - with their other classes and the sections untouched; a panel already
    in that state is not written to, and a second resize at the same size
    changes nothing. *)
Theorem handleResize_follows_window (innerWidth innerHeight : Z) (u : ui) :
  let u' := handleResize innerWidth innerHeight u in
  let small := small_screen innerWidth innerHeight in
  collapsed (sidebar u') = small
  /\ collapsed (statusBoard u') = small
  /\ same_other_classes (p_class (sidebar u)) (p_class (sidebar u'))
  /\ same_other_classes (p_class (statusBoard u)) (p_class (statusBoard u'))
  /\ sections u' = sections u
  /\ (collapsed (sidebar u) = small -> sidebar u' = sidebar u)
  /\ (collapsed (statusBoard u) = small -> statusBoard u' = statusBoard u)
  /\ handleResize innerWidth innerHeight u' = u'
  /\ collapsed (sidebar (handleResize innerWidth innerHeight (clickSidebarToggle u)))
     = small
  /\ collapsed (statusBoard (handleResize innerWidth innerHeight (clickStatusToggle u)))
     = small.
Proof.
  assert (R : forall v,
             collapsed (sidebar (handleResize innerWidth innerHeight v))
             = small_screen innerWidth innerHeight
             /\ collapsed (statusBoard (handleResize innerWidth innerHeight v))
                = small_screen innerWidth innerHeight
             /\ same_other_classes (p_class (sidebar v))
                  (p_class (sidebar (handleResize innerWidth innerHeight v)))
             /\ same_other_classes (p_class (statusBoard v))
                  (p_class (statusBoard (handleResize innerWidth innerHeight v)))
             /\ sections (handleResize innerWidth innerHeight v) = sections v
             /\ (collapsed (sidebar v) = small_screen innerWidth innerHeight ->
                 sidebar (handleResize innerWidth innerHeight v) = sidebar v)
             /\ (collapsed (statusBoard v) = small_screen innerWidth innerHeight ->
                 statusBoard (handleResize innerWidth innerHeight v) = statusBoard v)).
  { intros v. unfold handleResize, small_screen.
    pose proof (handleResize_panel ((innerWidth <=? 768) || (innerHeight <=? 700))%Z
                  (sidebar v)) as [S1 [S2 S3]].
    pose proof (handleResize_panel ((innerWidth <=? 768) || (innerHeight <=? 700))%Z
                  (statusBoard v)) as [B1 [B2 B3]].
    destruct ((innerWidth <=? 768) || (innerHeight <=? 700))%Z; simpl;
      (split; [exact S1|split; [exact B1|split; [exact S2|split; [exact B2|
       split; [reflexivity|split; [exact S3|exact B3]]]]]]). }
  intros u' small. subst u' small.
  destruct (R u) as [H1 [H2 [H3 [H4 [H5 [H6 H7]]]]]].
  repeat match goal with |- _ /\ _ => split end; try assumption.
  - destruct (R (handleResize innerWidth innerHeight u))
      as [_ [_ [_ [_ [G5 [G6 G7]]]]]].
    specialize (G6 H1). specialize (G7 H2).
    destruct (handleResize innerWidth innerHeight (handleResize innerWidth innerHeight u))
      as [a b c] eqn:E.
    simpl in *. subst a b c.
    now destruct (handleResize innerWidth innerHeight u).
  - exact (proj1 (R (clickSidebarToggle u))).
  - exact (proj1 (proj2 (R (clickStatusToggle u)))).
Qed.

Lemma enforceDefault_state (section : element) :
  has_class "collapsed" (el_class (enforceDefault section))
  = negb (el_id section =? "feed-section")
  /\ el_id (enforceDefault section) = el_id section
  /\ el_text (enforceDefault section) = el_text section
  /\ same_other_classes (el_class section) (el_class (enforceDefault section)).
Proof.
  unfold enforceDefault. destruct (el_id section =? "feed-section"); simpl;
    (split; [|split; [reflexivity|split; [reflexivity|]]]).
  - apply has_class_remove.
  - apply same_other_remove.
  - apply has_class_add.
  - apply same_other_add.
Qed.

(** X20. The state [setupUIInteractivity] leaves: every section is
    collapsed except the one with the id [feed-section], which is open,
    whatever the page said, each with its id, its text and its other classes
    kept and in the same order; and the sidebar and the status board are
    both collapsed on a small window (at most 768 wide or at most 700 high)
    and both open on a larger one, whatever the page said. *)
Theorem setup_default_state (innerWidth innerHeight : Z) (u : ui) :
  let u' := setupUIInteractivity innerWidth innerHeight u in
  Forall2
    (fun before after =>
       el_id after = el_id before /\ el_text after = el_text before
       /\ same_other_classes (el_class before) (el_class after)
       /\ (has_class "collapsed" (el_class after) = true
           <-> el_id before <> "feed-section"))
    (sections u) (sections u')
  /\ collapsed (sidebar u') = small_screen innerWidth innerHeight
  /\ collapsed (statusBoard u') = small_screen innerWidth innerHeight
  /\ same_other_classes (p_class (sidebar u)) (p_class (sidebar u'))
  /\ same_other_classes (p_class (statusBoard u)) (p_class (statusBoard u')).
Proof.
  intros u'. subst u'. unfold setupUIInteractivity.
  set (u1 := {| sidebar := sidebar u; statusBoard := statusBoard u;
                sections := map enforceDefault (sections u) |}).
  set (u2 := if (innerWidth <=? 768)%Z
             then {| sidebar := togglePanel (Some true) (sidebar u1);
                     statusBoard := togglePanel (Some true) (statusBoard u1);
                     sections := sections u1 |}
             else u1).
  assert (S2 : sections u2 = map enforceDefault (sections u))
    by (unfold u2; destruct (innerWidth <=? 768)%Z; reflexivity).
  assert (C2 : same_other_classes (p_class (sidebar u)) (p_class (sidebar u2))
               /\ same_other_classes (p_class (statusBoard u)) (p_class (statusBoard u2))).
  { unfold u2. destruct (innerWidth <=? 768)%Z; simpl.
    - split; apply same_other_add.
    - split; apply same_other_refl. }
  assert (R : forall v,
             collapsed (sidebar (handleResize innerWidth innerHeight v))
             = small_screen innerWidth innerHeight
             /\ collapsed (statusBoard (handleResize innerWidth innerHeight v))
                = small_screen innerWidth innerHeight
             /\ same_other_classes (p_class (sidebar v))
                  (p_class (sidebar (handleResize innerWidth innerHeight v)))
             /\ same_other_classes (p_class (statusBoard v))
                  (p_class (statusBoard (handleResize innerWidth innerHeight v)))
             /\ sections (handleResize innerWidth innerHeight v) = sections v).
  { intros v. unfold handleResize, small_screen.
    pose proof (handleResize_panel ((innerWidth <=? 768) || (innerHeight <=? 700))%Z
                  (sidebar v)) as [S1 [S2' _]].
    pose proof (handleResize_panel ((innerWidth <=? 768) || (innerHeight <=? 700))%Z
                  (statusBoard v)) as [B1 [B2 _]].
    destruct ((innerWidth <=? 768) || (innerHeight <=? 700))%Z; simpl;
      (split; [exact S1|split; [exact B1|split; [exact S2'|split; [exact B2|
       reflexivity]]]]). }
  destruct (R u2) as [H1 [H2 [H3 [H4 H5]]]]. destruct C2 as [C2 C2'].
  split; [|split; [exact H1|split; [exact H2|split]]].
  - rewrite H5, S2. clear. induction (sections u) as [|x l IH]; constructor; [|exact IH].
    destruct (enforceDefault_state x) as [E1 [E2 [E3 E4]]].
    split; [exact E2|]. split; [exact E3|]. split; [exact E4|].
    rewrite E1. destruct (String.eqb_spec (el_id x) "feed-section"); simpl;
      split; congruence.
  - exact (same_other_trans _ _ _ C2 H3).
  - exact (same_other_trans _ _ _ C2' H4).
Qed.
